(** * Personal-User-Feed: the ingestion pipeline, embedded and verified

    A shallow embedding of the feed and mailbox ingestion code
    (src/rss/feed-discovery.ts, feed-parser.ts, rss-ingest.ts and
    src/gmail/gmail-ingest.ts) together with the properties the
    specification states about it.

    Conventions of the embedding.
    - A JavaScript string is a [string]: one [ascii] per UTF-16 code unit,
      for code units in U+0000..U+00FF.  [length], [substring], [includes]
      are then exactly the JavaScript ones on that range.
    - [undefined]/[null] fields are [option]s; the JavaScript [a || b] on
      such fields is [orElse], which also skips the empty string.
    - The database is a record of tables, each a list of rows in insertion
      order.  Code that awaits repository calls becomes state-passing code
      in the monad [M]; a thrown exception is the [Throw] outcome and keeps
      the writes made before it.
    - The outside world (HTTP servers, the clock, nanoid, the XML/JSON/HTML
      parsers, the WHATWG URL resolver, the regular-expression engine) is
      the class [Runtime]; servers, clock and nanoid are read through
      counters kept in the state, so that every call may answer anew.
    - Repository calls are total: the store is reachable, and nanoid never
      repeats an identifier, so no insert violates a primary key. *)

From Stdlib Require Import ZArith List String Ascii Bool Arith Lia DecimalString Permutation.
Import ListNotations.

Local Open Scope list_scope.

(* ====================================================================== *)
(** ** SHA-256 (FIPS 180-4), as computed by [crypto.createHash("sha256")] *)
(* ====================================================================== *)

Module SHA256.
Local Open Scope Z_scope.

Definition wordMod : Z := 4294967296.

Definition add32 (x y : Z) : Z := (x + y) mod wordMod.

Definition rotr (n x : Z) : Z :=
  Z.lor (Z.shiftr x n) ((Z.shiftl x (32 - n)) mod wordMod).

Definition not32 (x : Z) : Z := wordMod - 1 - x.

Definition Ch (x y z : Z) : Z := Z.lxor (Z.land x y) (Z.land (not32 x) z).
Definition Maj (x y z : Z) : Z :=
  Z.lxor (Z.lxor (Z.land x y) (Z.land x z)) (Z.land y z).
Definition Sigma0 (x : Z) : Z := Z.lxor (Z.lxor (rotr 2 x) (rotr 13 x)) (rotr 22 x).
Definition Sigma1 (x : Z) : Z := Z.lxor (Z.lxor (rotr 6 x) (rotr 11 x)) (rotr 25 x).
Definition sigma0 (x : Z) : Z := Z.lxor (Z.lxor (rotr 7 x) (rotr 18 x)) (Z.shiftr x 3).
Definition sigma1 (x : Z) : Z := Z.lxor (Z.lxor (rotr 17 x) (rotr 19 x)) (Z.shiftr x 10).

(** The first sixty-four primes. *)
Definition isPrime (n : nat) : bool :=
  forallb (fun d => negb (Nat.eqb (Nat.modulo n d) 0)) (seq 2 (n - 2)).

Definition primes64 : list Z :=
  map Z.of_nat (filter isPrime (seq 2 310)).

(** Integer cube root, one bit at a time from bit [bits - 1] down. *)
Fixpoint cubeRootBits (bits : nat) (n acc : Z) : Z :=
  match bits with
  | O => acc
  | S b =>
      let c := acc + Z.shiftl 1 (Z.of_nat b) in
      if c * c * c <=? n then cubeRootBits b n c else cubeRootBits b n acc
  end.

(** The round constants: the first 32 bits of the fractional parts of the
    cube roots of the primes. *)
Definition K : list Z :=
  Eval vm_compute in
    map (fun p => (cubeRootBits 36 (p * Z.shiftl 1 96) 0) mod wordMod) primes64.

(** The eight working words / the chaining value. *)
Record Words8 : Type := mkWords8 {
  wa : Z; wb : Z; wc : Z; wd : Z; we : Z; wf : Z; wg : Z; wh : Z
}.

(** The initial value: the first 32 bits of the fractional parts of the
    square roots of the first eight primes. *)
Definition fracSqrt (p : Z) : Z := (Z.sqrt (p * Z.shiftl 1 64)) mod wordMod.

Definition H0 : Words8 :=
  Eval vm_compute in
    mkWords8 (fracSqrt 2) (fracSqrt 3) (fracSqrt 5) (fracSqrt 7)
             (fracSqrt 11) (fracSqrt 13) (fracSqrt 17) (fracSqrt 19).

(** Padding: a 1 bit, zero bytes up to 56 mod 64, the bit length on 8 bytes. *)
Definition be64 (n : Z) : list Z :=
  map (fun i => (Z.shiftr n (8 * i)) mod 256) [7; 6; 5; 4; 3; 2; 1; 0].

Definition pad (msg : list Z) : list Z :=
  let l := Z.of_nat (List.length msg) in
  msg ++ [0x80] ++ repeat 0 (Z.to_nat ((55 - l) mod 64)) ++ be64 (8 * l).

Fixpoint toWords (bs : list Z) : list Z :=
  match bs with
  | b0 :: b1 :: b2 :: b3 :: rest =>
      (b0 * 16777216 + b1 * 65536 + b2 * 256 + b3) :: toWords rest
  | _ => []
  end.

(** Message schedule: [win] holds the previous sixteen words. *)
Fixpoint schedule (n : nat) (win : list Z) : list Z :=
  match n with
  | O => []
  | S n' =>
      let w := add32 (add32 (sigma1 (nth 14 win 0)) (nth 9 win 0))
                     (add32 (sigma0 (nth 1 win 0)) (nth 0 win 0)) in
      w :: schedule n' (tl win ++ [w])
  end.

Definition round (s : Words8) (kw : Z * Z) : Words8 :=
  let '(k, w) := kw in
  let t1 := add32 (add32 (add32 (wh s) (Sigma1 (we s)))
                         (add32 (Ch (we s) (wf s) (wg s)) k)) w in
  let t2 := add32 (Sigma0 (wa s)) (Maj (wa s) (wb s) (wc s)) in
  mkWords8 (add32 t1 t2) (wa s) (wb s) (wc s) (add32 (wd s) t1) (we s) (wf s) (wg s).

Definition compress (h : Words8) (block : list Z) : Words8 :=
  let W := block ++ schedule 48 block in
  let s := fold_left round (combine K W) h in
  mkWords8 (add32 (wa h) (wa s)) (add32 (wb h) (wb s))
           (add32 (wc h) (wc s)) (add32 (wd h) (wd s))
           (add32 (we h) (we s)) (add32 (wf h) (wf s))
           (add32 (wg h) (wg s)) (add32 (wh h) (wh s)).

Fixpoint hashBlocks (n : nat) (ws : list Z) (h : Words8) : Words8 :=
  match n with
  | O => h
  | S n' => hashBlocks n' (skipn 16 ws) (compress h (firstn 16 ws))
  end.

Definition digest (msg : list Z) : Words8 :=
  let ws := toWords (pad msg) in
  hashBlocks (Nat.div (List.length ws) 16) ws H0.

(** [digest("hex")]: lower-case hexadecimal, most significant nibble first. *)
Definition hexDigit (n : Z) : ascii :=
  if n <? 10 then ascii_of_nat (Z.to_nat (48 + n))
  else ascii_of_nat (Z.to_nat (87 + n)).

Definition hex32 (x : Z) : string :=
  string_of_list_ascii
    (map (fun i => hexDigit ((Z.shiftr x (4 * i)) mod 16)) [7; 6; 5; 4; 3; 2; 1; 0]).

Definition hexOfWords (h : Words8) : string :=
  hex32 (wa h) ++ hex32 (wb h) ++ hex32 (wc h) ++ hex32 (wd h) ++
  hex32 (we h) ++ hex32 (wf h) ++ hex32 (wg h) ++ hex32 (wh h).

End SHA256.

(* ====================================================================== *)
(** ** JavaScript strings                                                  *)
(* ====================================================================== *)

Local Open Scope string_scope.

(** [a || b] on possibly-undefined strings: the empty string is falsy. *)
Definition truthy (s : string) : bool := negb (String.eqb s "").

Definition orElse (a b : option string) : option string :=
  match a with
  | Some s => if truthy s then a else b
  | None => b
  end.

(** [a || ""], [a || "Untitled"], ...: the right operand is a literal. *)
Definition orDefault (a : option string) (d : string) : string :=
  match a with
  | Some s => if truthy s then s else d
  | None => d
  end.

Definition startsWith (s pre : string) : bool := String.prefix pre s.

Fixpoint includes (s needle : string) : bool :=
  if String.prefix needle s then true
  else match s with
       | EmptyString => false
       | String _ r => includes r needle
       end.

Fixpoint endsWith (s suf : string) : bool :=
  if String.eqb s suf then true
  else match s with
       | EmptyString => false
       | String _ r => endsWith r suf
       end.

Definition codeOf (c : ascii) : nat := nat_of_ascii c.

(** The double-quote character, as a string. *)
Definition dquote : string := String (ascii_of_nat 34) EmptyString.

(** [String.prototype.toLowerCase] on U+0000..U+00FF: A-Z, and the Latin-1
    capitals U+00C0..U+00DE except the multiplication sign U+00D7. *)
Definition lowerChar (c : ascii) : ascii :=
  let n := codeOf c in
  if ((65 <=? n) && (n <=? 90))%nat then ascii_of_nat (n + 32)
  else if ((192 <=? n) && (n <=? 222) && negb (n =? 215))%nat then ascii_of_nat (n + 32)
  else c.

Fixpoint toLowerCase (s : string) : string :=
  match s with
  | EmptyString => EmptyString
  | String c r => String (lowerChar c) (toLowerCase r)
  end.

(** White space and line terminators of ECMAScript within U+0000..U+00FF. *)
Definition isWhiteSpace (c : ascii) : bool :=
  let n := codeOf c in
  ((n =? 9) || (n =? 10) || (n =? 11) || (n =? 12) || (n =? 13) || (n =? 32) || (n =? 160))%nat.

Fixpoint trimStart (s : string) : string :=
  match s with
  | EmptyString => EmptyString
  | String c r => if isWhiteSpace c then trimStart r else s
  end.

Fixpoint trimEnd (s : string) : string :=
  match s with
  | EmptyString => EmptyString
  | String c r =>
      match trimEnd r with
      | EmptyString => if isWhiteSpace c then EmptyString else String c EmptyString
      | r' => String c r'
      end
  end.

Definition trim (s : string) : string := trimEnd (trimStart s).

(** [s.replace(/needle/g, by)] for a literal, non-empty [needle]: [skip]
    counts the characters of a match still to be dropped. *)
Fixpoint replaceAllFrom (skip : nat) (needle by_ s : string) : string :=
  match s with
  | EmptyString => EmptyString
  | String c r =>
      match skip with
      | S k => replaceAllFrom k needle by_ r
      | O =>
          if String.prefix needle s
          then by_ ++ replaceAllFrom (String.length needle - 1) needle by_ r
          else String c (replaceAllFrom 0 needle by_ r)
      end
  end.

Definition replaceAll (needle by_ s : string) : string :=
  replaceAllFrom 0 needle by_ s.

(** [s.split("?")[0]]. *)
Fixpoint beforeFirst (sep : ascii) (s : string) : string :=
  match s with
  | EmptyString => EmptyString
  | String c r => if Ascii.eqb c sep then EmptyString else String c (beforeFirst sep r)
  end.

(** UTF-8 bytes of a string, the encoding [hash.update(data)] applies to a
    string argument: one byte below U+0080, two bytes up to U+00FF. *)
Fixpoint utf8 (s : string) : list Z :=
  match s with
  | EmptyString => []
  | String c r =>
      let n := Z.of_nat (nat_of_ascii c) in
      if (n <? 128)%Z then n :: utf8 r
      else (Z.lor 192 (Z.shiftr n 6)) :: (Z.lor 128 (Z.land n 63)) :: utf8 r
  end.

(** [crypto.createHash("sha256").update(data).digest("hex")]. *)
Definition sha256_hex (data : string) : string :=
  SHA256.hexOfWords (SHA256.digest (utf8 data)).

(** [text.substring(0, n)]. *)
Definition substringTo (n : nat) (s : string) : string := String.substring 0 n s.

Definition optEqb (a b : option string) : bool :=
  match a, b with
  | Some x, Some y => String.eqb x y
  | None, None => true
  | _, _ => false
  end.

(** SQL [column = value]: a NULL column matches nothing. *)
Definition sqlEq (column : option string) (value : string) : bool :=
  match column with
  | Some x => String.eqb x value
  | None => false
  end.

(** Decimal rendering of a number inside a template literal. *)
Definition showNat (n : nat) : string :=
  NilEmpty.string_of_uint (Nat.to_uint n).

(* ====================================================================== *)
(** ** Tables (schema.ts and the columns the ingestion code writes)        *)
(* ====================================================================== *)

Inductive FeedType : Type := Rss | Atom | JsonFeed.
Inductive DiscoveryMethod : Type := WellKnownPath | HtmlLinkTag | Manual.
Inductive SyncStatus : Type := SyncSuccess | SyncError.

Definition FeedType_eqb (a b : FeedType) : bool :=
  match a, b with
  | Rss, Rss | Atom, Atom | JsonFeed, JsonFeed => true
  | _, _ => false
  end.

(** rss_sources *)
Record RssSource : Type := mkRssSource {
  src_sourceId : string;
  src_userId : string;
  src_siteUrl : string;
  src_feedUrl : string;
  src_feedType : FeedType;
  src_feedTitle : option string;
  src_feedDescription : option string;
  src_discoveryMethod : DiscoveryMethod;
  src_discoveryAttemptedAt : string;
  src_etag : option string;
  src_lastModified : option string;
  src_lastCheckedAt : option string;
  src_lastSyncedAt : option string;
  src_lastSyncStatus : option SyncStatus;
  src_lastSyncError : option string;
  src_addedAt : string;
  src_isActive : bool
}.

(** creators; the columns every modelled write leaves NULL (avatar_url,
    subscriber_count, metadata) are omitted. *)
Record Creator : Type := mkCreator {
  cr_creatorId : string;
  cr_sourceType : string;
  cr_externalId : string;
  cr_name : string;
  cr_handle : option string;
  cr_bio : option string;
  cr_profileUrl : option string;
  cr_firstSeenAt : string;
  cr_lastUpdatedAt : option string
}.

(** The JSON stored in content_items.metadata. *)
Inductive ContentMetadata : Type :=
| RssMetadata (author contentHtml : option string)
| SubstackMetadata (htmlContent : string).

(** content_items; thumbnail_url, duration, word_count and the engagement
    counters are NULL in every modelled write and omitted. *)
Record ContentItem : Type := mkContentItem {
  ci_contentId : string;
  ci_creatorId : string;
  ci_sourceType : string;
  ci_externalId : string;
  ci_title : string;
  ci_description : option string;
  ci_contentUrl : string;
  ci_mediaType : string;
  ci_publishedAt : string;
  ci_addedAt : string;
  ci_updatedAt : option string;
  ci_metadata : ContentMetadata;
  ci_isArchived : bool;
  ci_contentHash : option string
}.

(** gmail_processed_messages: message_id is the primary key and
    content_hash is NOT NULL. *)
Record ProcessedMessage : Type := mkProcessedMessage {
  pm_messageId : string;
  pm_userId : string;
  pm_gmailConnectionId : string;
  pm_contentHash : string;
  pm_processedAt : string;
  pm_substackAuthor : option string;
  pm_substackPostUrl : option string;
  pm_contentId : option string
}.

(** user_subscriptions *)
Record UserSubscription : Type := mkUserSubscription {
  us_userId : string;
  us_creatorId : string;
  us_connectionId : option string;
  us_subscribedAt : string;
  us_isActive : bool;
  us_notificationsEnabled : bool
}.

(** gmail_connections, without the credential columns. *)
Record GmailConnection : Type := mkGmailConnection {
  gc_gmailConnectionId : string;
  gc_userId : string;
  gc_gmailAddress : string;
  gc_lastSyncedAt : option string;
  gc_isActive : bool
}.

(** The store, and the number of reads made so far of each outside
    source of values (nanoid, the clock, the network). *)
Record State : Type := mkState {
  rssSources : list RssSource;
  creators : list Creator;
  contentItems : list ContentItem;
  gmailProcessedMessages : list ProcessedMessage;
  userSubscriptions : list UserSubscription;
  gmailConnections : list GmailConnection;
  nanoidCalls : nat;
  clockReads : nat;
  fetchCalls : nat
}.

Definition set_rssSources (f : list RssSource -> list RssSource) (st : State) : State :=
  mkState (f (rssSources st)) (creators st) (contentItems st)
          (gmailProcessedMessages st) (userSubscriptions st) (gmailConnections st)
          (nanoidCalls st) (clockReads st) (fetchCalls st).

Definition set_creators (f : list Creator -> list Creator) (st : State) : State :=
  mkState (rssSources st) (f (creators st)) (contentItems st)
          (gmailProcessedMessages st) (userSubscriptions st) (gmailConnections st)
          (nanoidCalls st) (clockReads st) (fetchCalls st).

Definition set_contentItems (f : list ContentItem -> list ContentItem) (st : State) : State :=
  mkState (rssSources st) (creators st) (f (contentItems st))
          (gmailProcessedMessages st) (userSubscriptions st) (gmailConnections st)
          (nanoidCalls st) (clockReads st) (fetchCalls st).

Definition set_gmailProcessedMessages
    (f : list ProcessedMessage -> list ProcessedMessage) (st : State) : State :=
  mkState (rssSources st) (creators st) (contentItems st)
          (f (gmailProcessedMessages st)) (userSubscriptions st) (gmailConnections st)
          (nanoidCalls st) (clockReads st) (fetchCalls st).

Definition set_userSubscriptions
    (f : list UserSubscription -> list UserSubscription) (st : State) : State :=
  mkState (rssSources st) (creators st) (contentItems st)
          (gmailProcessedMessages st) (f (userSubscriptions st)) (gmailConnections st)
          (nanoidCalls st) (clockReads st) (fetchCalls st).

Definition set_gmailConnections
    (f : list GmailConnection -> list GmailConnection) (st : State) : State :=
  mkState (rssSources st) (creators st) (contentItems st)
          (gmailProcessedMessages st) (userSubscriptions st) (f (gmailConnections st))
          (nanoidCalls st) (clockReads st) (fetchCalls st).

Definition tick_nanoid (st : State) : State :=
  mkState (rssSources st) (creators st) (contentItems st)
          (gmailProcessedMessages st) (userSubscriptions st) (gmailConnections st)
          (S (nanoidCalls st)) (clockReads st) (fetchCalls st).

Definition tick_clock (st : State) : State :=
  mkState (rssSources st) (creators st) (contentItems st)
          (gmailProcessedMessages st) (userSubscriptions st) (gmailConnections st)
          (nanoidCalls st) (S (clockReads st)) (fetchCalls st).

Definition tick_fetch (st : State) : State :=
  mkState (rssSources st) (creators st) (contentItems st)
          (gmailProcessedMessages st) (userSubscriptions st) (gmailConnections st)
          (nanoidCalls st) (clockReads st) (S (fetchCalls st)).

(* ====================================================================== *)
(** ** The monad of awaited, possibly throwing code                        *)
(* ====================================================================== *)

Inductive outcome (A : Type) : Type :=
| Ret (a : A)
| Throw (msg : string).
Arguments Ret {A} a.
Arguments Throw {A} msg.

Definition M (A : Type) : Type := State -> outcome A * State.

Definition ret {A : Type} (a : A) : M A := fun st => (Ret a, st).

Definition throw {A : Type} (msg : string) : M A := fun st => (Throw msg, st).

Definition bind {A B : Type} (m : M A) (k : A -> M B) : M B :=
  fun st =>
    match m st with
    | (Ret a, st') => k a st'
    | (Throw e, st') => (Throw e, st')
    end.

(** [try { m } catch (error) { h error.message }] *)
Definition tryCatch {A : Type} (m : M A) (h : string -> M A) : M A :=
  fun st =>
    match m st with
    | (Ret a, st') => (Ret a, st')
    | (Throw e, st') => h e st'
    end.

Definition gets {A : Type} (f : State -> A) : M A := fun st => (Ret (f st), st).

Definition modify (f : State -> State) : M unit := fun st => (Ret tt, f st).

Declare Scope m_scope.
Delimit Scope m_scope with M.
Notation "x <- m ;; k" := (bind m (fun x => k))
  (at level 100, m at next level, right associativity) : m_scope.
Notation "m ;; k" := (bind m (fun _ => k))
  (at level 100, right associativity) : m_scope.
Local Open Scope m_scope.

(** [for (const x of xs) { body }] carrying the loop's mutable locals. *)
Fixpoint foldM {A B : Type} (body : B -> A -> M B) (xs : list A) (acc : B) : M B :=
  match xs with
  | [] => ret acc
  | x :: rest => acc' <- body acc x ;; foldM body rest acc'
  end.

Fixpoint forEach {A : Type} (xs : list A) (body : A -> M unit) : M unit :=
  match xs with
  | [] => ret tt
  | x :: rest => body x ;; forEach rest body
  end.

(* ====================================================================== *)
(** ** The outside world                                                   *)
(* ====================================================================== *)

(** What [fetch] resolves to: the final response after redirects. *)
Record Response : Type := mkResponse {
  status : nat;
  statusText : string;
  header_content_type : option string;
  header_etag : option string;
  header_last_modified : option string;
  body : string
}.

(** [response.ok] *)
Definition ok (r : Response) : bool := ((200 <=? status r) && (status r <=? 299))%nat.

Inductive FetchReply : Type :=
| Replied (r : Response)
| Rejected (msg : string).   (* network error, or the abort of the timeout *)

(** The request headers that vary; the user agent is always
    Curators-Desk-Feed-Reader/1.0. *)
Record RequestHeaders : Type := mkRequestHeaders {
  If_None_Match : option string;
  If_Modified_Since : option string
}.

Definition plainRequest : RequestHeaders := mkRequestHeaders None None.

(** An item as rss-parser returns it (with the customFields of
    feed-parser.ts), restricted to the properties the code reads. *)
Record RssParserItem : Type := mkRssParserItem {
  rp_title : option string;
  rp_link : option string;
  rp_guid : option string;
  rp_pubDate : option string;
  rp_contentEncoded : option string;
  rp_content_encoded : option string;   (* item["content:encoded"] *)
  rp_content : option string;
  rp_contentSnippet : option string;
  rp_description : option string;
  rp_creator : option string;
  rp_dc_creator : option string;          (* item["dc:creator"] *)
  rp_author_name : option string          (* item.author?.name *)
}.

Record RssParserOutput : Type := mkRssParserOutput {
  rp_feed_title : option string;
  rp_feed_description : option string;
  rp_feed_link : option string;
  rp_items : list RssParserItem
}.

(** A parsed JSON Feed document; [id] is required by the format. *)
Record JsonFeedItem : Type := mkJsonFeedItem {
  jf_id : string;
  jf_url : option string;
  jf_title : option string;
  jf_content_html : option string;
  jf_content_text : option string;
  jf_summary : option string;
  jf_date_published : option string;
  jf_author_name : option string
}.

Record JsonFeedDoc : Type := mkJsonFeedDoc {
  jf_version : option string;
  jf_feed_title : option string;
  jf_feed_description : option string;
  jf_home_page_url : option string;
  jf_items : list JsonFeedItem
}.

(** A [<link rel="alternate">] element as cheerio selects it. *)
Record LinkElement : Type := mkLinkElement {
  attr_type : option string;
  attr_href : option string
}.

(** Libraries and platform services the code calls.  The three [..At]
    fields are indexed by the number of earlier calls, so that servers,
    the clock and nanoid may answer differently every time. *)
Class Runtime : Type := {
  nanoidAt : nat -> string;
  nowAt : nat -> string;                          (* new Date().toISOString() *)
  fetchAt : nat -> string -> RequestHeaders -> FetchReply;
  (** [new Date(s).toISOString()]; [None] is the RangeError of an invalid date *)
  dateToISO : string -> option string;
  (** [new Date(parseInt(s)).toISOString()] *)
  epochMsToISO : string -> option string;
  (** [new URL(relative, base).toString()]; [None] is the TypeError *)
  urlResolve : string -> string -> option string;
  (** rss-parser's [parser.parseString]; [inl] is the rejection message *)
  rssParserParseString : string -> string + RssParserOutput;
  (** [JSON.parse] of a feed document; [inl] is the SyntaxError message *)
  jsonParse : string -> string + JsonFeedDoc;
  (** text of the first element a selector matches in the XML document *)
  cheerioXmlText : string -> string -> string;
  (** the link elements with rel=alternate that cheerio selects in the
      loaded HTML, in document order *)
  cheerioAlternateLinks : string -> list LinkElement;
  (** the base64 payload decoded to bytes and read as UTF-8 *)
  decodeBase64Utf8 : string -> string;
  (** groups 1 and 2 of [/^(.*?)\s*<(.+?)>$/] *)
  matchFromHeader : string -> option (string * string);
  (** all matches of the global URL pattern: http:// or https:// followed by
      one or more characters other than white space, quotes and angle brackets *)
  matchAllUrls : string -> list string;
  (** [/https?:\/\/[^\/]+\.substack\.com\/p\/[^?&#]+/] matches *)
  isDirectPostUrl : string -> bool;
  (** first match of [/https:\/\/substack\.com\/redirect\/\d+\/[A-Za-z0-9+/=]+/] *)
  matchRedirectUrl : string -> option string;
  (** group 1 of [/https?:\/\/([^\/]+)\.substack\.com/] *)
  matchSubstackHandle : string -> option string
}.

Section Pipeline.
Context {RT : Runtime}.

Definition nanoid : M string :=
  fun st => (Ret (nanoidAt (nanoidCalls st)), tick_nanoid st).

(** [new Date().toISOString()] *)
Definition nowISO : M string :=
  fun st => (Ret (nowAt (clockReads st)), tick_clock st).

Definition fetch (url : string) (headers : RequestHeaders) : M FetchReply :=
  fun st => (Ret (fetchAt (fetchCalls st) url headers), tick_fetch st).

(* ====================================================================== *)
(** ** rss/feed-discovery.ts                                               *)
(* ====================================================================== *)

Record FeedDiscoveryResult : Type := mkFeedDiscoveryResult {
  feedUrl : string;
  feedType : FeedType;
  discoveryMethod : DiscoveryMethod;
  feedTitle : option string;
  feedDescription : option string;
  siteUrl : string
}.

Record FeedCheckResult : Type := mkFeedCheckResult {
  success : bool;
  chk_feedUrl : option string;
  chk_feedType : option FeedType;
  chk_feedTitle : option string;
  chk_feedDescription : option string;
  chk_etag : option string;
  chk_lastModified : option string
}.

Definition checkFailed : FeedCheckResult :=
  mkFeedCheckResult false None None None None None None.

Definition WELL_KNOWN_PATHS : list string :=
  [ "/feed.xml"; "/rss.xml"; "/atom.xml"; "/feed/"; "/index.xml";
    "/feed.json"; "/rss/"; "/feeds/rss.xml" ].

Definition normalizeSiteUrl (url : string) : string :=
  let normalized := trim url in
  let normalized :=
    if negb (startsWith normalized "http://") && negb (startsWith normalized "https://")
    then "https://" ++ normalized else normalized in
  if endsWith normalized "/"
  then substringTo (String.length normalized - 1) normalized
  else normalized.

Definition detectFeedType (contentType url : string) : option FeedType :=
  let ct := toLowerCase contentType in
  if includes ct "application/rss+xml" || includes ct "application/xml" then Some Rss
  else if includes ct "application/atom+xml" then Some Atom
  else if includes ct "application/json" || includes ct "application/feed+json"
  then Some JsonFeed
  else if includes url "atom" then Some Atom
  else if includes url "json" then Some JsonFeed
  else if includes url "rss" || includes url "feed" then Some Rss
  else None.

Definition detectFeedTypeFromContent (content : string) : option FeedType :=
  let isJsonFeed :=
    if startsWith (trim content) "{" then
      match jsonParse content with
      | inr json =>
          match jf_version json with
          | Some v => truthy v && includes v "https://jsonfeed.org"
          | None => false
          end
      | inl _ => false
      end
    else false in
  if isJsonFeed then Some JsonFeed
  else if includes content "<feed" &&
          includes content ("xmlns=" ++ dquote ++ "http://www.w3.org/2005/Atom" ++ dquote)
  then Some Atom
  else if includes content "<rss" || includes content "<channel>" then Some Rss
  else None.

(** The [{ title?, description? }] that [extractFeedMetadata] returns. *)
Definition extractFeedMetadata (content : string) (ft : FeedType)
  : option string * option string :=
  match ft with
  | JsonFeed =>
      match jsonParse content with
      | inr feed => (jf_feed_title feed, jf_feed_description feed)
      | inl _ => (None, None)
      end
  | Atom =>
      (Some (cheerioXmlText content "feed > title"),
       Some (cheerioXmlText content "feed > subtitle"))
  | Rss =>
      (Some (cheerioXmlText content "channel > title"),
       Some (cheerioXmlText content "channel > description"))
  end.

(** The part of [checkFeedUrl] after the response has arrived. *)
Definition classifyResponse (url : string) (reply : FetchReply) : FeedCheckResult :=
  match reply with
  | Rejected _ => checkFailed
  | Replied response =>
      if negb (ok response) then checkFailed
      else
        let text := body response in
        let contentType := orDefault (header_content_type response) "" in
        let ft :=
          match detectFeedType contentType url with
          | Some t => Some t
          | None => detectFeedTypeFromContent text
          end in
        match ft with
        | None => checkFailed
        | Some t =>
            let metadata := extractFeedMetadata text t in
            mkFeedCheckResult true (Some url) (Some t) (fst metadata) (snd metadata)
              (orElse (header_etag response) None)
              (orElse (header_last_modified response) None)
        end
  end.

Definition checkFeedUrl (url : string) (timeout : nat) : M FeedCheckResult :=
  reply <- fetch url plainRequest ;;
  ret (classifyResponse url reply).

(** [result.success && result.feedUrl && result.feedType], and the values
    the branch then reads. *)
Definition usableCheck (result : FeedCheckResult) : option (string * FeedType) :=
  if success result then
    match chk_feedUrl result, chk_feedType result with
    | Some u, Some t => if truthy u then Some (u, t) else None
    | _, _ => None
    end
  else None.

(** Step 1 of [discoverFeed]: the loop over the well-known paths; [None]
    when the loop ends without returning. *)
Fixpoint tryWellKnownPaths (paths : list string) (normalizedUrl : string) (timeout : nat)
  : M (option FeedDiscoveryResult) :=
  match paths with
  | [] => ret None
  | path :: rest =>
      match urlResolve path normalizedUrl with
      | None => throw "Invalid URL"
      | Some url =>
          result <- checkFeedUrl url timeout ;;
          match usableCheck result with
          | Some (u, t) =>
              ret (Some (mkFeedDiscoveryResult u t WellKnownPath
                           (chk_feedTitle result) (chk_feedDescription result)
                           normalizedUrl))
          | None => tryWellKnownPaths rest normalizedUrl timeout
          end
      end
  end.

(** The [type] attribute test of [discoverFeedFromHtml]. *)
Definition linkFeedType (type : string) : option FeedType :=
  if includes type "application/rss+xml" || includes type "application/xml" then Some Rss
  else if includes type "application/atom+xml" then Some Atom
  else if includes type "application/json" || includes type "application/feed+json"
  then Some JsonFeed
  else None.

(** The [.map(...).get().filter(...)] that resolves every href; [None]
    when one [new URL] throws. *)
Fixpoint resolveLinks (links : list LinkElement) (site : string)
  : option (list (string * string)) :=
  match links with
  | [] => Some []
  | el :: rest =>
      let type := orDefault (option_map toLowerCase (attr_type el)) "" in
      match orElse (attr_href el) None with
      | None => resolveLinks rest site
      | Some href =>
          match urlResolve href site with
          | None => None
          | Some absoluteUrl =>
              option_map (cons (absoluteUrl, type)) (resolveLinks rest site)
          end
      end
  end.

(** The verification loop over the candidate links. *)
Fixpoint firstVerifiedLink (links : list (string * string)) (timeout : nat)
  : M (option FeedDiscoveryResult) :=
  match links with
  | [] => ret None
  | (url, type) :: rest =>
      match linkFeedType type with
      | None => firstVerifiedLink rest timeout
      | Some t =>
          result <- checkFeedUrl url timeout ;;
          if success result
          then ret (Some (mkFeedDiscoveryResult url t HtmlLinkTag
                            (chk_feedTitle result) (chk_feedDescription result) ""))
          else firstVerifiedLink rest timeout
      end
  end.

(** The site URL of the result is filled in by the caller. *)
Definition discoverFeedFromHtml (site : string) (timeout : nat)
  : M (option FeedDiscoveryResult) :=
  reply <- fetch site plainRequest ;;
  match reply with
  | Rejected _ => ret None
  | Replied response =>
      match resolveLinks (cheerioAlternateLinks (body response)) site with
      | None => ret None
      | Some feedLinks => firstVerifiedLink feedLinks timeout
      end
  end.

Definition withSiteUrl (r : FeedDiscoveryResult) (site : string) : FeedDiscoveryResult :=
  mkFeedDiscoveryResult (feedUrl r) (feedType r) (discoveryMethod r)
                        (feedTitle r) (feedDescription r) site.

Definition discoverFeed (site : string) (timeout : nat) : M FeedDiscoveryResult :=
  let normalizedUrl := normalizeSiteUrl site in
  found <- tryWellKnownPaths WELL_KNOWN_PATHS normalizedUrl timeout ;;
  match found with
  | Some r => ret r
  | None =>
      htmlResult <- tryCatch (discoverFeedFromHtml normalizedUrl timeout)
                             (fun _ => ret None) ;;
      match htmlResult with
      | Some r => ret (withSiteUrl r normalizedUrl)
      | None =>
          throw ("No feed found for " ++ site ++
                 ". Please provide the feed URL manually.")
      end
  end.

(* ====================================================================== *)
(** ** rss/feed-parser.ts                                                  *)
(* ====================================================================== *)

Record ParsedFeedItem : Type := mkParsedFeedItem {
  title : string;
  url : string;
  description : option string;
  contentHtml : option string;
  publishedAt : string;
  author : option string;
  hash : string;
  guid : option string
}.

Record ParsedFeed : Type := mkParsedFeed {
  pf_title : option string;
  pf_description : option string;
  pf_link : option string;
  items : list ParsedFeedItem
}.

Record FeedFetchResult : Type := mkFeedFetchResult {
  feed : ParsedFeed;
  ffr_etag : option string;
  ffr_lastModified : option string;
  ffr_feedType : FeedType
}.

(** The string that is hashed: the three fields joined by a vertical bar. *)
Definition hashInput (url title content : string) : string :=
  url ++ "|" ++ title ++ "|" ++ content.

Definition generateContentHash (url title content : string) : string :=
  substringTo 16 (sha256_hex (hashInput url title content)).

(** Removal of the matches of the tag pattern (an opening angle bracket,
    any characters but a closing one, a closing angle bracket): [pending]
    holds the text of a tag that has been opened and not yet closed. *)
Fixpoint removeTags (inTag : bool) (pending : string) (s : string) : string :=
  match s with
  | EmptyString => pending
  | String c r =>
      if inTag then
        if Ascii.eqb c ">" then removeTags false "" r
        else removeTags true (pending ++ String c "") r
      else if Ascii.eqb c "<" then removeTags true "<" r
      else String c (removeTags false "" r)
  end.

Definition stripHtmlTags (html : string) : string :=
  trim
    (replaceAll "&#39;" "'"
    (replaceAll "&quot;" dquote
    (replaceAll "&gt;" ">"
    (replaceAll "&lt;" "<"
    (replaceAll "&amp;" "&"
    (replaceAll "&nbsp;" " "
    (removeTags false "" html))))))).

Definition truncateText (text : string) (maxLength : nat) : string :=
  if (String.length text <=? maxLength)%nat then text
  else substringTo (maxLength - 3) text ++ "...".

(** [s ? new Date(s).toISOString() : new Date().toISOString()] *)
Definition publishedAtOf (date : option string) : M string :=
  match orElse date None with
  | Some d =>
      match dateToISO d with
      | Some iso => ret iso
      | None => throw "Invalid time value"
      end
  | None => nowISO
  end.

(** The callback of [.map] in [parseRssOrAtom]. *)
Definition parseRssItem (item : RssParserItem) : M ParsedFeedItem :=
  let contentHtml :=
    orElse (rp_contentEncoded item)
      (orElse (rp_content_encoded item) (orElse (rp_content item) None)) in
  let author :=
    orElse (rp_creator item)
      (orElse (rp_dc_creator item)
         (orElse (rp_creator item) (orElse (rp_author_name item) None))) in
  let guid := orDefault (orElse (rp_guid item) (rp_link item)) "" in
  let url := orDefault (rp_link item) guid in
  let hash := generateContentHash url (orDefault (rp_title item) "")
                                  (orDefault contentHtml "") in
  published <- publishedAtOf (rp_pubDate item) ;;
  ret (mkParsedFeedItem
         (orDefault (rp_title item) "Untitled")
         url
         (Some (stripHtmlTags
                  (orDefault (orElse (rp_contentSnippet item) (rp_description item)) "")))
         contentHtml
         published
         author
         hash
         (Some guid)).

Fixpoint mapM {A B : Type} (f : A -> M B) (xs : list A) : M (list B) :=
  match xs with
  | [] => ret []
  | x :: rest => y <- f x ;; ys <- mapM f rest ;; ret (y :: ys)
  end.

Definition parseRssOrAtom (content : string) : M ParsedFeed :=
  match rssParserParseString content with
  | inl msg => throw msg
  | inr feed =>
      parsed <- mapM parseRssItem (rp_items feed) ;;
      ret (mkParsedFeed (rp_feed_title feed) (rp_feed_description feed)
                        (rp_feed_link feed) parsed)
  end.

(** The callback of [.map] in [parseJsonFeed]. *)
Definition parseJsonItem (item : JsonFeedItem) : M ParsedFeedItem :=
  let url := orDefault (jf_url item) (jf_id item) in
  let contentHtml := orElse (jf_content_html item) None in
  let hash := generateContentHash url (orDefault (jf_title item) "")
                (orDefault (orElse contentHtml (jf_content_text item)) "") in
  published <- publishedAtOf (jf_date_published item) ;;
  ret (mkParsedFeedItem
         (orDefault (jf_title item) "Untitled")
         url
         (Some (orDefault (jf_summary item)
                  (stripHtmlTags (orDefault (jf_content_text item) ""))))
         contentHtml
         published
         (jf_author_name item)
         hash
         (Some (jf_id item))).

Definition parseJsonFeed (content : string) : M ParsedFeed :=
  match jsonParse content with
  | inl msg => throw msg
  | inr feed =>
      parsed <- mapM parseJsonItem (jf_items feed) ;;
      ret (mkParsedFeed (jf_feed_title feed) (jf_feed_description feed)
                        (jf_home_page_url feed) parsed)
  end.

(** [null] (here [None]) is the 304 answer. *)
Definition fetchAndParseFeed (url : string) (ft : FeedType)
    (etag lastModified : option string) : M (option FeedFetchResult) :=
  let headers := mkRequestHeaders (orElse etag None) (orElse lastModified None) in
  reply <- fetch url headers ;;
  match reply with
  | Rejected msg => throw msg
  | Replied response =>
      if (status response =? 304)%nat then ret None
      else if negb (ok response)
      then throw ("HTTP " ++ showNat (status response) ++ ": " ++ statusText response)
      else
        let content := body response in
        let etag' := orElse (header_etag response) None in
        let lastModified' := orElse (header_last_modified response) None in
        parsedFeed <- (if FeedType_eqb ft JsonFeed
                       then parseJsonFeed content
                       else parseRssOrAtom content) ;;
        ret (Some (mkFeedFetchResult parsedFeed etag' lastModified' ft))
  end.

(* ====================================================================== *)
(** ** rss/rss-ingest.ts: the repository                                   *)
(* ====================================================================== *)

(** [ORDER BY added_at DESC]: insertion sort on the text column. *)
Fixpoint insertByAddedAtDesc (s : RssSource) (sorted : list RssSource) : list RssSource :=
  match sorted with
  | [] => [s]
  | x :: rest =>
      if String.leb (src_addedAt x) (src_addedAt s) && negb (String.eqb (src_addedAt x) (src_addedAt s))
      then s :: sorted
      else x :: insertByAddedAtDesc s rest
  end.

Definition orderByAddedAtDesc (rows : list RssSource) : list RssSource :=
  fold_right insertByAddedAtDesc [] rows.

(** [eq(rssSourcesTable.sourceId, sourceId)] *)
Definition isSource (sourceId : string) (s : RssSource) : bool :=
  String.eqb (src_sourceId s) sourceId.

Definition getSource (sourceId : string) : M (option RssSource) :=
  gets (fun st => find (isSource sourceId) (rssSources st)).

Definition getUserSources (userId : string) : M (list RssSource) :=
  gets (fun st =>
    orderByAddedAtDesc
      (filter (fun s => String.eqb (src_userId s) userId && src_isActive s)
              (rssSources st))).

(** The row after [updateSourceSync]: last_synced_at is written only on
    success (drizzle skips an undefined value). *)
Definition withSync (now : string) (sts : SyncStatus) (error : option string)
    (s : RssSource) : RssSource :=
  mkRssSource (src_sourceId s) (src_userId s) (src_siteUrl s) (src_feedUrl s)
    (src_feedType s) (src_feedTitle s) (src_feedDescription s)
    (src_discoveryMethod s) (src_discoveryAttemptedAt s)
    (src_etag s) (src_lastModified s)
    (Some now)
    (match sts with SyncSuccess => Some now | SyncError => src_lastSyncedAt s end)
    (Some sts)
    (orElse error None)
    (src_addedAt s) (src_isActive s).

Definition updateWhere {A : Type} (p : A -> bool) (f : A -> A) (rows : list A) : list A :=
  map (fun r => if p r then f r else r) rows.

Definition updateSourceSync (sourceId : string) (sts : SyncStatus) (error : option string)
  : M unit :=
  now <- nowISO ;;
  modify (set_rssSources
            (updateWhere (isSource sourceId)
                         (withSync now sts error))).

Definition withHeaders (etag lastModified : option string) (s : RssSource) : RssSource :=
  mkRssSource (src_sourceId s) (src_userId s) (src_siteUrl s) (src_feedUrl s)
    (src_feedType s) (src_feedTitle s) (src_feedDescription s)
    (src_discoveryMethod s) (src_discoveryAttemptedAt s)
    (orElse etag None) (orElse lastModified None)
    (src_lastCheckedAt s) (src_lastSyncedAt s) (src_lastSyncStatus s)
    (src_lastSyncError s) (src_addedAt s) (src_isActive s).

Definition updateSourceHeaders (sourceId : string) (etag lastModified : option string)
  : M unit :=
  modify (set_rssSources
            (updateWhere (isSource sourceId)
                         (withHeaders etag lastModified))).

Definition withNameBio (name : string) (bio : option string) (now : string)
    (c : Creator) : Creator :=
  mkCreator (cr_creatorId c) (cr_sourceType c) (cr_externalId c) name
            (cr_handle c) bio (cr_profileUrl c) (cr_firstSeenAt c) (Some now).

(** [upsertCreator] of the RSS repository. *)
Definition upsertCreator (feedUrl_ feedTitle_ : string) (feedDescription_ : option string)
  : M string :=
  now <- nowISO ;;
  let externalId := feedUrl_ in
  existing <- gets (fun st =>
    find (fun c => String.eqb (cr_sourceType c) "rss" &&
                   String.eqb (cr_externalId c) externalId) (creators st)) ;;
  match existing with
  | Some row =>
      let creatorId := cr_creatorId row in
      modify (set_creators
                (updateWhere (fun c => String.eqb (cr_creatorId c) creatorId)
                             (withNameBio feedTitle_ (orElse feedDescription_ None) now))) ;;
      ret creatorId
  | None =>
      id <- nanoid ;;
      let creatorId := "rss-" ++ id in
      modify (set_creators (fun rows =>
                (rows ++ [mkCreator creatorId "rss" externalId feedTitle_ None
                            (orElse feedDescription_ None) (Some feedUrl_) now (Some now)])%list)) ;;
      ret creatorId
  end.

(** The row after the update of an edited post. *)
Definition withEdit (post : ParsedFeedItem) (now : string) (c : ContentItem) : ContentItem :=
  mkContentItem (ci_contentId c) (ci_creatorId c) (ci_sourceType c) (ci_externalId c)
    (title post)
    (Some (truncateText (orDefault (description post) "") 500))
    (ci_contentUrl c) (ci_mediaType c) (ci_publishedAt c) (ci_addedAt c)
    (Some now) (ci_metadata c) (ci_isArchived c) (Some (hash post)).

(** The row [upsertPosts] inserts for a post that matched nothing. *)
Definition newContentItem (contentId creatorId now : string) (post : ParsedFeedItem)
  : ContentItem :=
  mkContentItem contentId creatorId "rss"
    (orDefault (guid post) (url post))
    (title post)
    (Some (truncateText (orDefault (description post) "") 500))
    (url post) "article" (publishedAt post) now None
    (RssMetadata (author post) (contentHtml post))
    false (Some (hash post)).

(** The SELECT at the head of the loop body: source type rss and an
    equal content hash, LIMIT 1. *)
Definition findRssByHash (h : string) (rows : list ContentItem) : option ContentItem :=
  find (fun c => String.eqb (ci_sourceType c) "rss" && sqlEq (ci_contentHash c) h) rows.

(** One iteration of the loop of [upsertPosts]. *)
Definition upsertPost (creatorId now : string) (newPostsCount : nat) (post : ParsedFeedItem)
  : M nat :=
  existing <- gets (fun st => findRssByHash (hash post) (contentItems st)) ;;
  match existing with
  | Some existingPost =>
      (if negb (optEqb (ci_contentHash existingPost) (Some (hash post)))
       then modify (set_contentItems
                      (updateWhere
                         (fun c => String.eqb (ci_contentId c) (ci_contentId existingPost))
                         (withEdit post now)))
       else ret tt) ;;
      ret newPostsCount
  | None =>
      contentId <- nanoid ;;
      modify (set_contentItems (fun rows =>
                (rows ++ [newContentItem contentId creatorId now post])%list)) ;;
      ret (S newPostsCount)
  end.

Definition upsertPosts (creatorId : string) (posts : list ParsedFeedItem) : M nat :=
  now <- nowISO ;;
  foldM (upsertPost creatorId now) posts 0.

(* ====================================================================== *)
(** ** rss/rss-ingest.ts: RssIngestionService                              *)
(* ====================================================================== *)

Definition syncSource (sourceId : string) : M unit :=
  found <- getSource sourceId ;;
  match found with
  | None => throw ("Source not found or inactive: " ++ sourceId)
  | Some source =>
      if negb (src_isActive source)
      then throw ("Source not found or inactive: " ++ sourceId)
      else
        tryCatch
          (result <- fetchAndParseFeed (src_feedUrl source) (src_feedType source)
                       (orElse (src_etag source) None)
                       (orElse (src_lastModified source) None) ;;
           match result with
           | None => updateSourceSync sourceId SyncSuccess None
           | Some r =>
               updateSourceHeaders sourceId (ffr_etag r) (ffr_lastModified r) ;;
               creatorId <- upsertCreator (src_feedUrl source)
                              (orDefault (orElse (pf_title (feed r)) (src_feedTitle source))
                                         "Untitled Blog")
                              (orElse (pf_description (feed r)) (src_feedDescription source)) ;;
               newPostsCount <- upsertPosts creatorId (items (feed r)) ;;
               updateSourceSync sourceId SyncSuccess None
           end)
          (fun errorMessage =>
             updateSourceSync sourceId SyncError (Some errorMessage) ;;
             throw errorMessage)
  end.

Definition syncAllSources (userId : string) : M unit :=
  sources <- getUserSources userId ;;
  forEach sources (fun source =>
    tryCatch (syncSource (src_sourceId source)) (fun _ => ret tt)).

(* ====================================================================== *)
(** ** gmail/gmail-ingest.ts                                               *)
(* ====================================================================== *)

Record SubstackPost : Type := mkSubstackPost {
  sp_messageId : string;
  sp_author : string;
  sp_authorEmail : string;
  sp_title : string;
  sp_postUrl : string;
  sp_snippet : string;
  sp_publishedAt : string;
  sp_htmlContent : string
}.

Record MessagePart : Type := mkMessagePart {
  mimeType : string;
  part_body_data : option string      (* part.body?.data *)
}.

Record GmailMessage : Type := mkGmailMessage {
  msg_id : string;
  threadId : string;
  headers : list (string * string);     (* name, value *)
  parts : option (list MessagePart);
  payload_body_data : option string;    (* payload.body?.data *)
  internalDate : option string;
  snippet : option string
}.

(** [headers.find(h => h.name.toLowerCase() === name)?.value] *)
Definition headerValue (name : string) (hs : list (string * string)) : option string :=
  option_map snd (find (fun h => String.eqb (toLowerCase (fst h)) name) hs).

(** The loop over the parts: the first text/html part with data is
    decoded and the loop stops. *)
Fixpoint htmlOfParts (ps : list MessagePart) : string :=
  match ps with
  | [] => ""
  | part :: rest =>
      match orElse (part_body_data part) None with
      | Some data =>
          if String.eqb (mimeType part) "text/html" then decodeBase64Utf8 data
          else htmlOfParts rest
      | None => htmlOfParts rest
      end
  end.

(** The loop over all URLs of the HTML; [None] when it ends without a
    [break]. *)
Fixpoint selectPostUrl (allUrls : list string) : option string :=
  match allUrls with
  | [] => None
  | u :: rest =>
      if includes u "substackcdn.com" || includes u "/image/" ||
         includes u "substack.com/@" || includes u "open.substack.com/live-stream"
      then selectPostUrl rest
      else if isDirectPostUrl u then Some (beforeFirst "?" u)
      else if includes u "substack.com/app-link/post?" && includes u "post_id="
      then Some u
      else selectPostUrl rest
  end.

(** [parseSubstackPost]; every exception inside is caught and gives null. *)
Definition parseSubstackPost (message : GmailMessage) : option SubstackPost :=
  let from := orDefault (headerValue "from" (headers message)) "" in
  let subject := orDefault (headerValue "subject" (headers message)) "Untitled" in
  let date := orDefault (headerValue "date" (headers message)) "" in
  let fromMatch := matchFromHeader from in
  let author := match fromMatch with Some (g1, _) => trim g1 | None => from end in
  let authorEmail := match fromMatch with Some (_, g2) => trim g2 | None => from end in
  let htmlContent :=
    htmlOfParts (match parts message with Some ps => ps | None => [] end) in
  let htmlContent :=
    if truthy htmlContent then htmlContent
    else match orElse (payload_body_data message) None with
         | Some data => decodeBase64Utf8 data
         | None => htmlContent
         end in
  if negb (truthy htmlContent) then None
  else
    let postUrl := orElse (selectPostUrl (matchAllUrls htmlContent)) None in
    let postUrl :=
      match postUrl with
      | Some u => Some u
      | None => matchRedirectUrl htmlContent
      end in
    match orElse postUrl None with
    | None => None
    | Some postUrl =>
        let published :=
          match orElse (internalDate message) None with
          | Some ms => epochMsToISO ms
          | None => dateToISO date
          end in
        match published with
        | None => None       (* RangeError, caught *)
        | Some publishedAt =>
            Some (mkSubstackPost (msg_id message) author authorEmail subject postUrl
                    (orDefault (snippet message) "") publishedAt htmlContent)
        end
    end.

(** The mailbox content hash (the private [generateContentHash]). *)
Definition mailHashInput (post : SubstackPost) : string :=
  sp_postUrl post ++ ":" ++ sp_title post ++ ":" ++ sp_author post.

Definition generateMailContentHash (post : SubstackPost) : string :=
  sha256_hex (mailHashInput post).

Definition isMessageProcessed (messageId : string) : M bool :=
  gets (fun st =>
    existsb (fun p => String.eqb (pm_messageId p) messageId) (gmailProcessedMessages st)).

(** [authorEmail.replace(/[^a-zA-Z0-9]/g, "-")] *)
Definition isAlnum (c : ascii) : bool :=
  let n := codeOf c in
  (((48 <=? n) && (n <=? 57)) || ((65 <=? n) && (n <=? 90)) ||
   ((97 <=? n) && (n <=? 122)))%nat.

Fixpoint dashNonAlnum (s : string) : string :=
  match s with
  | EmptyString => EmptyString
  | String c r => String (if isAlnum c then c else "-"%char) (dashNonAlnum r)
  end.

Definition withName (name now : string) (c : Creator) : Creator :=
  mkCreator (cr_creatorId c) (cr_sourceType c) (cr_externalId c) name
            (cr_handle c) (cr_bio c) (cr_profileUrl c) (cr_firstSeenAt c) (Some now).

(** [upsertCreator] of the Gmail service. *)
Definition upsertSubstackCreator (creatorId : string) (post : SubstackPost) : M unit :=
  now <- nowISO ;;
  let handle := matchSubstackHandle (sp_postUrl post) in
  let profileUrl :=
    match orElse handle None with
    | Some h => "https://" ++ h ++ ".substack.com"
    | None => sp_postUrl post
    end in
  existing <- gets (fun st =>
    find (fun c => String.eqb (cr_creatorId c) creatorId) (creators st)) ;;
  match existing with
  | Some _ =>
      modify (set_creators
                (updateWhere (fun c => String.eqb (cr_creatorId c) creatorId)
                             (withName (sp_author post) now)))
  | None =>
      modify (set_creators (fun rows =>
                (rows ++ [mkCreator creatorId "substack" (sp_authorEmail post)
                            (sp_author post) handle None (Some profileUrl)
                            now (Some now)])%list))
  end.

Definition createContentItem (creatorId : string) (post : SubstackPost) : M string :=
  now <- nowISO ;;
  id <- nanoid ;;
  let contentId := "substack-" ++ id in
  modify (set_contentItems (fun rows =>
            (rows ++ [mkContentItem contentId creatorId "substack" (sp_postUrl post)
                        (sp_title post) (Some (sp_snippet post)) (sp_postUrl post)
                        "article" (sp_publishedAt post) now None
                        (SubstackMetadata (sp_htmlContent post)) false
                        (Some (generateMailContentHash post))])%list)) ;;
  ret contentId.

Definition ensureSubscription (userId creatorId : string) : M unit :=
  existing <- gets (fun st =>
    find (fun s => String.eqb (us_userId s) userId &&
                   String.eqb (us_creatorId s) creatorId) (userSubscriptions st)) ;;
  match existing with
  | Some _ => ret tt
  | None =>
      now <- nowISO ;;
      modify (set_userSubscriptions (fun rows =>
                (rows ++ [mkUserSubscription userId creatorId None now true true])%list))
  end.

Definition withLastSynced (syncedAt : string) (c : GmailConnection) : GmailConnection :=
  mkGmailConnection (gc_gmailConnectionId c) (gc_userId c) (gc_gmailAddress c)
                    (Some syncedAt) (gc_isActive c).

Definition updateConnectionSync (gmailConnectionId syncedAt : string) : M unit :=
  modify (set_gmailConnections
            (updateWhere (fun c => String.eqb (gc_gmailConnectionId c) gmailConnectionId)
                         (withLastSynced syncedAt))).

(** The INSERT into gmail_processed_messages. *)
Definition recordProcessed (userId gmailConnectionId : string) (message : GmailMessage)
    (post : SubstackPost) (contentHash : string) (contentId : option string) : M unit :=
  now <- nowISO ;;
  modify (set_gmailProcessedMessages (fun rows =>
            (rows ++ [mkProcessedMessage (msg_id message) userId gmailConnectionId
                        contentHash now (Some (sp_author post)) (Some (sp_postUrl post))
                        contentId])%list)).

(** The two counters of [ingestSubstackPosts]. *)
Record Tally : Type := mkTally { processed : nat; skipped : nat }.

(** One iteration of the loop of [ingestSubstackPosts]. *)
Definition ingestMessage (userId gmailConnectionId : string) (t : Tally)
    (message : GmailMessage) : M Tally :=
  already <- isMessageProcessed (msg_id message) ;;
  if already then ret (mkTally (processed t) (S (skipped t)))
  else
    match parseSubstackPost message with
    | None => ret (mkTally (processed t) (S (skipped t)))
    | Some post =>
        let contentHash := generateMailContentHash post in
        existingByHash <- gets (fun st =>
          find (fun p => String.eqb (pm_contentHash p) contentHash)
               (gmailProcessedMessages st)) ;;
        match existingByHash with
        | Some row =>
            recordProcessed userId gmailConnectionId message post contentHash
                            (pm_contentId row) ;;
            ret (mkTally (processed t) (S (skipped t)))
        | None =>
            let creatorId := "substack-" ++ dashNonAlnum (sp_authorEmail post) in
            upsertSubstackCreator creatorId post ;;
            contentId <- createContentItem creatorId post ;;
            recordProcessed userId gmailConnectionId message post contentHash
                            (Some contentId) ;;
            ensureSubscription userId creatorId ;;
            ret (mkTally (S (processed t)) (skipped t))
        end
    end.

(** [ingestSubstackPosts], from the point where [fetchMessages] has
    returned [messages]. *)
Definition ingestSubstackPosts (userId gmailConnectionId : string)
    (messages : list GmailMessage) : M Tally :=
  t <- foldM (ingestMessage userId gmailConnectionId) messages (mkTally 0 0) ;;
  now <- nowISO ;;
  updateConnectionSync gmailConnectionId now ;;
  ret t.

End Pipeline.

(* ====================================================================== *)
(** ** Reference readings of the specification, and sample data            *)
(* ====================================================================== *)

(** The content the specification says is hashed for a feed item: the
    full content, and the summary or description when that is absent. *)
Definition contentOrSummary (p : ParsedFeedItem) : string :=
  match contentHtml p with
  | Some c => c
  | None => orDefault (description p) ""
  end.

(** The feed hash as the specification words it, on the normalized item. *)
Definition specFeedHash (p : ParsedFeedItem) : string :=
  substringTo 16 (sha256_hex (url p ++ "|" ++ title p ++ "|" ++ contentOrSummary p)).

(** Binary numerals: a family of pairwise distinct short strings. *)
Fixpoint binary (p : positive) : string :=
  match p with
  | xH => "1"
  | xO q => String "0" (binary q)
  | xI q => String "1" (binary q)
  end.

(** The URL number [x]. *)
Definition numberedUrl (x : Z) : string :=
  "https://example.com/p/" ++ binary (Z.to_pos (x + 1)).

(** Both leading words of a chaining value are 32-bit words. *)
Definition Words8_bounded (h : SHA256.Words8) : Prop :=
  (0 <= SHA256.wa h < 4294967296)%Z /\ (0 <= SHA256.wb h < 4294967296)%Z.

(** The first 64 bits of the digest, as a number. *)
Definition digestPrefix (data : string) : Z :=
  (SHA256.wa (SHA256.digest (utf8 data)) * 4294967296 +
   SHA256.wb (SHA256.digest (utf8 data)))%Z.

(** Two triples of fields that differ in exactly one of url, title and
    content. *)
Definition differInExactlyOne (u1 t1 c1 u2 t2 c2 : string) : Prop :=
  (u1 <> u2 /\ t1 = t2 /\ c1 = c2) \/
  (u1 = u2 /\ t1 <> t2 /\ c1 = c2) \/
  (u1 = u2 /\ t1 = t2 /\ c1 <> c2).

(** What the parser attaches to an RSS or Atom item: the digest of the
    link (or identifier), the raw title and the full content, each empty
    when absent. *)
Definition rssItemHashed (item : RssParserItem) (p : ParsedFeedItem) : Prop :=
  contentHtml p =
    orElse (rp_contentEncoded item)
      (orElse (rp_content_encoded item) (orElse (rp_content item) None)) /\
  hash p = substringTo 16 (sha256_hex
             (url p ++ "|" ++ orDefault (rp_title item) "" ++ "|" ++
              orDefault (contentHtml p) "")).

(** The same for a JSON Feed item: content_html, else content_text. *)
Definition jsonItemHashed (item : JsonFeedItem) (p : ParsedFeedItem) : Prop :=
  hash p = substringTo 16 (sha256_hex
             (url p ++ "|" ++ orDefault (jf_title item) "" ++ "|" ++
              orDefault (orElse (jf_content_html item) (jf_content_text item)) "")).

(** Whether the ledger has a row for a message identity. *)
Definition seenIn (ledger : list ProcessedMessage) (id : string) : bool :=
  existsb (fun p => String.eqb (pm_messageId p) id) ledger.

(** Whether extraction yields a post for a message. *)
Definition extractable {RT : Runtime} (m : GmailMessage) : bool :=
  match parseSubstackPost m with
  | Some _ => true
  | None => false
  end.



(** The row [getSource] returns. *)
Definition sourceRow (sourceId : string) (st : State) : option RssSource :=
  find (isSource sourceId) (rssSources st).

(** The rows [getUserSources] returns, in its order. *)
Definition activeSources (userId : string) (st : State) : list RssSource :=
  orderByAddedAtDesc
    (filter (fun s => String.eqb (src_userId s) userId && src_isActive s) (rssSources st)).

(** The status a sync cycle reports for its outcome. *)
Definition statusOfOutcome {A : Type} (o : outcome A) : SyncStatus :=
  match o with
  | Ret _ => SyncSuccess
  | Throw _ => SyncError
  end.

(** The sync cycles of a list of sources, run one after the other, each
    from the store the previous one left. *)
Definition runCycles {RT : Runtime} (sources : list RssSource) (st : State) : State :=
  fold_left (fun s source => snd (syncSource (src_sourceId source) s)) sources st.

(** The conditional request [syncSource] sends for a source. *)
Definition conditionalRequest (source : RssSource) : RequestHeaders :=
  mkRequestHeaders (orElse (src_etag source) None) (orElse (src_lastModified source) None).

(** Code that leaves the feed tables alone: sources, creators and content
    items are as before, whatever it returns. *)
Definition keepsFeedTables {A : Type} (m : M A) : Prop :=
  forall st, rssSources (snd (m st)) = rssSources st /\
             creators (snd (m st)) = creators st /\
             contentItems (snd (m st)) = contentItems st.

(** The rows of the ledger for one inbox message. *)
Definition ledgerRowsFor (messageId : string) (st : State) : list ProcessedMessage :=
  filter (fun p => String.eqb (pm_messageId p) messageId) (gmailProcessedMessages st).

(** The stored feed items with a given external identity. *)
Definition rssItemsWithIdentity (externalId : string) (st : State) : list ContentItem :=
  filter (fun c => String.eqb (ci_sourceType c) "rss" &&
                   String.eqb (ci_externalId c) externalId) (contentItems st).

Definition emptyState : State := mkState [] [] [] [] [] [] 0 0 0.

(** A small world to run the code in: the site https://example.com serves
    an RSS feed at /rss.xml and advertises /alt.xml in its HTML; the site
    https://blog.example.org has no well-known path and advertises
    /alt.xml in its HTML; the feed at https://feeds.example.org/a.xml
    answers 304 to the validator v1; https://down.example.net does not
    answer. *)
Definition demoFeedItems : list RssParserItem :=
  [ mkRssParserItem (Some "First") (Some "https://example.com/1") (Some "g1")
      (Some "2024-01-01T00:00:00.000Z") None None (Some "<p>one</p>") (Some "one")
      None None None None;
    mkRssParserItem (Some "Second") (Some "https://example.com/2") (Some "g2")
      (Some "2024-01-02T00:00:00.000Z") None None (Some "<p>two</p>") (Some "two")
      None None None None ].

(** A JSON Feed item with a summary and no content. *)
Definition demoJsonItem : JsonFeedItem :=
  mkJsonFeedItem "https://example.com/notes/1" None (Some "Note") None None
                 (Some "A short summary") (Some "2024-03-01T00:00:00.000Z") None.

Definition demoFetch (n : nat) (u : string) (h : RequestHeaders) : FetchReply :=
  if String.eqb u "https://example.com/rss.xml" then
    Replied (mkResponse 200 "OK" (Some "application/rss+xml") (Some "v1") None "FEED")
  else if String.eqb u "https://example.com/alt.xml" then
    Replied (mkResponse 200 "OK" (Some "application/rss+xml") None None "FEED")
  else if String.eqb u "https://example.com" || String.eqb u "https://blog.example.org" then
    Replied (mkResponse 200 "OK" (Some "text/html") None None "HOME")
  else if String.eqb u "https://blog.example.org/alt.xml" then
    Replied (mkResponse 200 "OK" (Some "application/rss+xml") None None "FEED")
  else if String.eqb u "https://feeds.example.org/a.xml" then
    if optEqb (If_None_Match h) (Some "v1")
    then Replied (mkResponse 304 "Not Modified" None (Some "v1") None "")
    else Replied (mkResponse 200 "OK" (Some "application/rss+xml") (Some "v1") None "FEED")
  else if startsWith u "https://down.example.net" then Rejected "fetch failed"
  else Replied (mkResponse 404 "Not Found" (Some "text/html") None None "").

Definition demoRuntime : Runtime := {|
  nanoidAt := fun n => "id" ++ showNat n;
  nowAt := fun n => "2024-06-01T00:00:" ++ showNat n ++ "Z";
  fetchAt := demoFetch;
  dateToISO := fun s => if truthy s then Some s else None;
  epochMsToISO := fun s => Some s;
  urlResolve := fun rel base => if startsWith rel "/" then Some (base ++ rel) else Some rel;
  rssParserParseString := fun content =>
    if String.eqb content "FEED"
    then inr (mkRssParserOutput (Some "Example") (Some "A feed") None demoFeedItems)
    else inl "Unable to parse XML.";
  jsonParse := fun content =>
    if String.eqb content "NOTES"
    then inr (mkJsonFeedDoc (Some "https://jsonfeed.org/version/1.1") (Some "Notes")
                            None None [demoJsonItem])
    else inl "Unexpected token";
  cheerioXmlText := fun _ _ => "";
  cheerioAlternateLinks := fun html =>
    if String.eqb html "HOME"
    then [mkLinkElement (Some "application/rss+xml") (Some "/alt.xml")] else [];
  decodeBase64Utf8 := fun data => data;
  matchFromHeader := fun _ => None;
  matchAllUrls := fun html => if startsWith html "https://" then [html] else [];
  isDirectPostUrl := fun u => includes u ".substack.com/p/";
  matchRedirectUrl := fun _ => None;
  matchSubstackHandle := fun _ => None
|}.

(** What [parseJsonItem] returns for it. *)
Definition demoJsonParsed : ParsedFeedItem :=
  mkParsedFeedItem "Note" "https://example.com/notes/1" (Some "A short summary") None
                   "2024-03-01T00:00:00.000Z" None "6ba175d6a81fbea4"
                   (Some "https://example.com/notes/1").

(** The JSON document NOTES of the demo world, parsed. *)
Definition demoParsedNotes : ParsedFeed :=
  mkParsedFeed (Some "Notes") None None [demoJsonParsed].

(** The feed the demo world serves, parsed. *)
Definition demoParsedFeed : ParsedFeed :=
  Eval vm_compute in
    match fst (@parseRssOrAtom demoRuntime "FEED" emptyState) with
    | Ret f => f
    | Throw _ => mkParsedFeed None None None []
    end.

(** A feed post as the parser builds it from url, title and content. *)
Definition demoPost (u t content : string) : ParsedFeedItem :=
  mkParsedFeedItem t u (Some "") (Some content) "2024-01-01T00:00:00.000Z" None
                   (generateContentHash u t content) (Some u).

(** The scenario of the specification: a first sync with two items, a
    second sync in which the second item has a new body. *)
Definition firstSyncPosts : list ParsedFeedItem :=
  [ demoPost "https://example.com/1" "First" "<p>one</p>";
    demoPost "https://example.com/2" "Second" "<p>two</p>" ].

Definition secondSyncPosts : list ParsedFeedItem :=
  [ demoPost "https://example.com/1" "First" "<p>one</p>";
    demoPost "https://example.com/2" "Second" "<p>two, edited</p>" ].

(** The store after the first sync, and the row stored for the second item. *)
Definition storeAfterFirstSync : State :=
  Eval vm_compute in snd (@upsertPosts demoRuntime "rss-creator" firstSyncPosts emptyState).

Definition storedSecondItem : ContentItem :=
  Eval vm_compute in
    nth 1 (contentItems storeAfterFirstSync)
        (newContentItem "" "" "" (demoPost "" "" "")).

(** The empty store with the feed items of the first sync put in. *)
Definition storeWithFeedItems : State :=
  set_contentItems (fun _ => contentItems storeAfterFirstSync) emptyState.

Definition editedSecondPost : ParsedFeedItem :=
  demoPost "https://example.com/2" "Second" "<p>two, edited</p>".

(** An inbox message with an HTML part that links to a post, and one with
    no HTML body at all. *)
Definition demoMessage (id : string) (postUrl : string) : GmailMessage :=
  mkGmailMessage id "thread" [("From", "Jane Doe"); ("Subject", "Hello")]
                 (Some [mkMessagePart "text/html" (Some postUrl)]) None
                 (Some "1700000000000") (Some "snippet").

Definition plainTextMessage (id : string) : GmailMessage :=
  mkGmailMessage id "thread" [("From", "Jane Doe"); ("Subject", "Hello")]
                 (Some [mkMessagePart "text/plain" (Some "aGVsbG8=")]) None
                 (Some "1700000000000") (Some "snippet").

(** A batch of three messages: a post, a message that is not a post, and
    a second message about the same post. *)
Definition demoInbox : list GmailMessage :=
  [ demoMessage "m1" "https://jane.substack.com/p/hello";
    plainTextMessage "m2";
    demoMessage "m3" "https://jane.substack.com/p/hello" ].

Definition demoSource (id feed : string) (etag : option string) : RssSource :=
  mkRssSource id "user-1" "https://site" feed Rss (Some "Blog") None WellKnownPath
              "2024-01-01T00:00:00.000Z" etag None None None None None
              ("2024-01-0" ++ id) true.

Definition stateWithSources (rows : list RssSource) : State :=
  mkState rows [] [] [] [] [] 0 0 0.

(** Three subscriptions of one user: a feed that parses, a host that is
    down, and a feed that answers 304 to the stored validator. *)
Definition workingSource : RssSource := demoSource "1" "https://example.com/rss.xml" None.
Definition downSource : RssSource := demoSource "2" "https://down.example.net/feed" None.
Definition unchangedSource : RssSource :=
  demoSource "3" "https://feeds.example.org/a.xml" (Some "v1").

Definition demoBatch : State :=
  stateWithSources [workingSource; downSource; unchangedSource].

(* ====================================================================== *)
(** ** rss/rss-ingest.ts: subscribing, unsubscribing, reading             *)
(* ====================================================================== *)

Section Subscriptions.
Context {RT : Runtime}.

(** The default of the [timeout] parameter of [discoverFeed]. *)
Definition defaultTimeout : nat := 10 * 1000.

(** The first half of [addSource]: the discovery record, from the manual
    feed URL when one is given (fetched once, parsed as RSS), from
    [discoverFeed] otherwise. *)
Definition resolveDiscovery (site : string) (manualFeedUrl : option string)
  : M FeedDiscoveryResult :=
  match orElse manualFeedUrl None with
  | Some manual =>
      result <- fetchAndParseFeed manual Rss None None ;;
      match result with
      | None => throw ("Invalid feed URL: " ++ manual)
      | Some r =>
          ret (mkFeedDiscoveryResult manual (ffr_feedType r) Manual
                 (pf_title (feed r)) (pf_description (feed r)) site)
      end
  | None => discoverFeed site defaultTimeout
  end.

(** The row [addSource] inserts. *)
Definition newSourceRow (sourceId userId now : string) (discovery : FeedDiscoveryResult)
  : RssSource :=
  mkRssSource sourceId userId (siteUrl discovery) (feedUrl discovery) (feedType discovery)
    (orElse (feedTitle discovery) None) (orElse (feedDescription discovery) None)
    (discoveryMethod discovery) now None None None None None None now true.

Definition addSource (userId site : string) (manualFeedUrl : option string)
  : M (string * FeedDiscoveryResult) :=
  now <- nowISO ;;
  discovery <- resolveDiscovery site manualFeedUrl ;;
  sourceId <- nanoid ;;
  modify (set_rssSources (fun rows =>
            (rows ++ [newSourceRow sourceId userId now discovery])%list)) ;;
  ret (sourceId, discovery).

Definition withInactive (s : RssSource) : RssSource :=
  mkRssSource (src_sourceId s) (src_userId s) (src_siteUrl s) (src_feedUrl s)
    (src_feedType s) (src_feedTitle s) (src_feedDescription s)
    (src_discoveryMethod s) (src_discoveryAttemptedAt s)
    (src_etag s) (src_lastModified s) (src_lastCheckedAt s) (src_lastSyncedAt s)
    (src_lastSyncStatus s) (src_lastSyncError s) (src_addedAt s) false.

Definition removeSource (sourceId : string) : M unit :=
  modify (set_rssSources (updateWhere (isSource sourceId) withInactive)).

Definition addBlogSource (userId site : string) (manualFeedUrl : option string)
  : M string :=
  added <- addSource userId site manualFeedUrl ;;
  let sourceId := fst added in
  let discovery := snd added in
  creatorId <- upsertCreator (feedUrl discovery)
                 (orDefault (feedTitle discovery) "Untitled Blog")
                 (feedDescription discovery) ;;
  syncSource sourceId ;;
  ret sourceId.

(** A row of the result of [getLatestPosts]: the content item with the
    name of its creator and the source it is shown under. *)
Record LatestPost : Type := mkLatestPost {
  lp_item : ContentItem;
  lp_creatorName : string;
  lp_creatorExternalId : string;
  lp_sourceId : string
}.

(** [ORDER BY published_at DESC] on the joined rows. *)
Fixpoint insertByPublishedDesc (x : ContentItem * Creator)
    (sorted : list (ContentItem * Creator)) : list (ContentItem * Creator) :=
  match sorted with
  | [] => [x]
  | y :: rest =>
      if String.leb (ci_publishedAt (fst y)) (ci_publishedAt (fst x)) &&
         negb (String.eqb (ci_publishedAt (fst y)) (ci_publishedAt (fst x)))
      then x :: sorted
      else y :: insertByPublishedDesc x rest
  end.

Definition orderByPublishedDesc (rows : list (ContentItem * Creator))
  : list (ContentItem * Creator) :=
  fold_right insertByPublishedDesc [] rows.

(** [content_items INNER JOIN creators ON creator_id]. *)
Definition joinCreators (items_ : list ContentItem) (cs : list Creator)
  : list (ContentItem * Creator) :=
  flat_map (fun c =>
    map (fun cr => (c, cr))
        (filter (fun cr => String.eqb (cr_creatorId cr) (ci_creatorId c)) cs)) items_.

(** [new Map(userSources.map(s => [s.feedUrl, s.sourceId])).get(key)]: the
    last entry for a key wins. *)
Definition feedUrlToSourceId (userSources : list RssSource) (key : string) : option string :=
  option_map src_sourceId
    (find (fun s => String.eqb (src_feedUrl s) key) (rev userSources)).

Definition getLatestPosts (userId : string) (limit : nat) : M (list LatestPost) :=
  userSources <- gets (fun st =>
    filter (fun s => String.eqb (src_userId s) userId && src_isActive s) (rssSources st)) ;;
  match userSources with
  | [] => ret []
  | _ :: _ =>
      posts <- gets (fun st =>
        firstn (limit * 2)
          (orderByPublishedDesc
             (filter (fun row => String.eqb (ci_sourceType (fst row)) "rss")
                     (joinCreators (contentItems st) (creators st))))) ;;
      ret (flat_map
             (fun row =>
                match feedUrlToSourceId userSources (cr_externalId (snd row)) with
                | Some sid => [mkLatestPost (fst row) (cr_name (snd row))
                                            (cr_externalId (snd row)) sid]
                | None => []
                end)
             (firstn limit
                (filter (fun row =>
                           match feedUrlToSourceId userSources (cr_externalId (snd row)) with
                           | Some _ => true
                           | None => false
                           end) posts)))
  end.

End Subscriptions.

(* ====================================================================== *)
(** ** gmail/auth-google.ts and scripts/dailySync.ts                       *)
(* ====================================================================== *)

Section MailboxService.
Context {RT : Runtime}.

(** [getConnection]: the first active connection of the user. *)
Definition getConnection (userId : string) : M (option GmailConnection) :=
  gets (fun st =>
    find (fun c => String.eqb (gc_userId c) userId && gc_isActive c) (gmailConnections st)).

(** [GmailIngestionService.fromConnection]: the connection the service is
    bound to. *)
Definition fromConnection (userId : string) : M string :=
  connection <- getConnection userId ;;
  match connection with
  | None => throw "User has not connected Gmail yet"
  | Some c => ret (gc_gmailConnectionId c)
  end.

End MailboxService.

(* ====================================================================== *)
(** ** Vocabulary for the further properties                               *)
(* ====================================================================== *)

(** Every character of a string satisfies a test. *)
Fixpoint allChars (p : ascii -> bool) (s : string) : bool :=
  match s with
  | EmptyString => true
  | String c r => p c && allChars p r
  end.

(** A lower-case hexadecimal digit. *)
Definition isHexLower (c : ascii) : bool :=
  let n := codeOf c in
  (((48 <=? n) && (n <=? 57)) || ((97 <=? n) && (n <=? 102)))%nat.

(** A character of a creator identifier slug. *)
Definition isSlugChar (c : ascii) : bool := isAlnum c || Ascii.eqb c "-".

(** The content hashes stored for feed items: the values the lookup of
    [upsertPosts] can match. *)
Definition rssHashes (rows : list ContentItem) : list string :=
  flat_map (fun c =>
    if String.eqb (ci_sourceType c) "rss"
    then match ci_contentHash c with Some h => [h] | None => [] end
    else []) rows.

(** The content hashes stored for mailbox items. *)
Definition substackHashes (rows : list ContentItem) : list string :=
  flat_map (fun c =>
    if String.eqb (ci_sourceType c) "substack"
    then match ci_contentHash c with Some h => [h] | None => [] end
    else []) rows.


(** The key of a row of user_subscriptions. *)
Definition subscriptionKey (s : UserSubscription) : string * string :=
  (us_userId s, us_creatorId s).

(** The keys and references of the schema that the mailbox ingestion
    writes: creator identifiers and subscription keys are unique; the
    content item of a ledger row, the creator of a content item and the
    creator of a subscription exist. *)
Definition keysAndReferences (st : State) : Prop :=
  NoDup (map cr_creatorId (creators st)) /\
  NoDup (map subscriptionKey (userSubscriptions st)) /\
  (forall p id, In p (gmailProcessedMessages st) -> pm_contentId p = Some id ->
     In id (map ci_contentId (contentItems st))) /\
  (forall c, In c (contentItems st) ->
     In (ci_creatorId c) (map cr_creatorId (creators st))) /\
  (forall s, In s (userSubscriptions st) ->
     In (us_creatorId s) (map cr_creatorId (creators st))).

(** Every mailbox content item has its hash in the ledger, and no two
    mailbox content items share a hash. *)
Definition mailboxContentUnique (st : State) : Prop :=
  NoDup (substackHashes (contentItems st)) /\
  incl (substackHashes (contentItems st)) (map pm_contentHash (gmailProcessedMessages st)).


(** The publication date of a feed item is one the parser can take: it is
    absent or empty (the clock is read instead) or the Date constructor
    accepts it. *)
Definition dateUsable {RT : Runtime} (date : option string) : bool :=
  match orElse date None with
  | Some d => match dateToISO d with Some _ => true | None => false end
  | None => true
  end.

(** The demo world with a different network: every address answers 200
    with the same HTML page. *)
Definition samePageFetch (n : nat) (u : string) (h : RequestHeaders) : FetchReply :=
  Replied (mkResponse 200 "OK" (Some "text/html; charset=utf-8") None None
             "<html><body>Page not found</body></html>").

Definition samePageRuntime : Runtime := {|
  nanoidAt := @nanoidAt demoRuntime;
  nowAt := @nowAt demoRuntime;
  fetchAt := samePageFetch;
  dateToISO := @dateToISO demoRuntime;
  epochMsToISO := @epochMsToISO demoRuntime;
  urlResolve := @urlResolve demoRuntime;
  rssParserParseString := @rssParserParseString demoRuntime;
  jsonParse := @jsonParse demoRuntime;
  cheerioXmlText := @cheerioXmlText demoRuntime;
  cheerioAlternateLinks := @cheerioAlternateLinks demoRuntime;
  decodeBase64Utf8 := @decodeBase64Utf8 demoRuntime;
  matchFromHeader := @matchFromHeader demoRuntime;
  matchAllUrls := @matchAllUrls demoRuntime;
  isDirectPostUrl := @isDirectPostUrl demoRuntime;
  matchRedirectUrl := @matchRedirectUrl demoRuntime;
  matchSubstackHandle := @matchSubstackHandle demoRuntime
|}.


(* ====================================================================== *)
(** ** scripts/dailySync.ts                                                *)
(* ====================================================================== *)

(** The counters of [syncAllUsers]. *)
Record SyncTotals : Type := mkSyncTotals {
  totalProcessed : nat;
  totalSkipped : nat;
  successCount : nat;
  errorCount : nat
}.

Section DailySync.
Context {RT : Runtime}.

(** [fetchMessages] is left open: any awaited code that yields the
    messages of the mailbox of a user, or throws. *)
Variable fetchMessages : string -> M (list GmailMessage).

(** The body of the try block for one user: the service is made from the
    stored connection and run. *)
Definition ingestForUser (userId : string) : M Tally :=
  gmailConnectionId <- fromConnection userId ;;
  messages <- fetchMessages userId ;;
  ingestSubstackPosts userId gmailConnectionId messages.

(** One iteration of the loop over the users. *)
Definition syncUser (totals : SyncTotals) (userId : string) : M SyncTotals :=
  tryCatch
    (result <- ingestForUser userId ;;
     ret (mkSyncTotals (totalProcessed totals + processed result)
                       (totalSkipped totals + skipped result)
                       (S (successCount totals)) (errorCount totals)))
    (fun message =>
       if includes message "not connected Gmail" then ret totals
       else ret (mkSyncTotals (totalProcessed totals) (totalSkipped totals)
                              (successCount totals) (S (errorCount totals)))).

Definition syncAllUsers (users : list string) : M SyncTotals :=
  foldM syncUser users (mkSyncTotals 0 0 0 0).

End DailySync.

(** Whether a user has an active Gmail connection in the store. *)
Definition connected (userId : string) (st : State) : bool :=
  match find (fun c => String.eqb (gc_userId c) userId && gc_isActive c)
             (gmailConnections st) with
  | Some _ => true
  | None => false
  end.


(* ====================================================================== *)
(** ** JavaScript strings in full: UTF-16 code units                       *)
(* ====================================================================== *)

(** The string model above keeps one character per code unit and stops at
    U+00FF.  The feed hash is also computed for strings outside that
    range (JSON.parse delivers any code unit, an unpaired surrogate
    included).  Here a string is the list of its UTF-16 code units, and
    the encoder is the one [hash.update(data)] applies to a string
    argument: the UTF-8 of its code points, with U+FFFD in the place of
    every unpaired surrogate. *)
Module UTF16.

Local Open Scope Z_scope.

Definition isHigh (u : Z) : bool := (55296 <=? u) && (u <=? 56319).
Definition isLow (u : Z) : bool := (56320 <=? u) && (u <=? 57343).

(** The code point of a surrogate pair. *)
Definition pairCodePoint (high low : Z) : Z :=
  65536 + (high - 55296) * 1024 + (low - 56320).

(** UTF-8 of one code point. *)
Definition encode (cp : Z) : list Z :=
  if cp <? 128 then [cp]
  else if cp <? 2048 then [192 + cp / 64; 128 + cp mod 64]
  else if cp <? 65536
  then [224 + cp / 4096; 128 + (cp / 64) mod 64; 128 + cp mod 64]
  else [240 + cp / 262144; 128 + (cp / 4096) mod 64; 128 + (cp / 64) mod 64;
        128 + cp mod 64].

(** UTF-8 of U+FFFD, the replacement character. *)
Definition replacement : list Z := [239; 191; 189].

Fixpoint utf8 (s : list Z) : list Z :=
  match s with
  | [] => []
  | u :: r =>
      if isHigh u then
        match r with
        | l :: r' =>
            if isLow l then (encode (pairCodePoint u l) ++ utf8 r')%list
            else (replacement ++ utf8 r)%list
        | [] => replacement
        end
      else if isLow u then (replacement ++ utf8 r)%list
      else (encode u ++ utf8 r)%list
  end.

(** [String.prototype.isWellFormed]: code units in range and no unpaired
    surrogate. *)
Fixpoint isWellFormed (s : list Z) : bool :=
  match s with
  | [] => true
  | u :: r =>
      if isHigh u then
        match r with
        | l :: r' => isLow l && isWellFormed r'
        | [] => false
        end
      else negb (isLow u) && (0 <=? u) && (u <? 65536) && isWellFormed r
  end.

(** The code units of a string of the narrow model. *)
Definition ofString (s : string) : list Z :=
  map (fun c => Z.of_nat (nat_of_ascii c)) (list_ascii_of_string s).

(** The template literal of [generateContentHash]: 124 is the vertical
    bar. *)
Definition hashInput (url title content : list Z) : list Z :=
  (url ++ [124] ++ title ++ [124] ++ content)%list.

Definition generateContentHash (url title content : list Z) : string :=
  substringTo 16 (SHA256.hexOfWords (SHA256.digest (utf8 (hashInput url title content)))).

(** The first 64 bits of the SHA-256 of a byte string, as a number. *)
Definition digestPrefix (bytes : list Z) : Z :=
  SHA256.wa (SHA256.digest bytes) * 4294967296 + SHA256.wb (SHA256.digest bytes).

(** Two triples of fields that differ in exactly one of url, title and
    content. *)
Definition differInExactlyOne (u1 t1 c1 u2 t2 c2 : list Z) : Prop :=
  (u1 <> u2 /\ t1 = t2 /\ c1 = c2) \/
  (u1 = u2 /\ t1 <> t2 /\ c1 = c2) \/
  (u1 = u2 /\ t1 = t2 /\ c1 <> c2).

End UTF16.

(** A feed item without a title, as rss-parser delivers it. *)
Definition untitledItem : RssParserItem :=
  mkRssParserItem None (Some "https://example.com/3") (Some "g3")
    (Some "2024-01-03T00:00:00.000Z") None None (Some "<p>three</p>") (Some "three")
    None None None None.


(** An RSS item that has a description and no encoded content: rss-parser
    delivers the description in content (and its text in contentSnippet). *)
Definition describedItem : RssParserItem :=
  mkRssParserItem (Some "Fourth") (Some "https://example.com/4") (Some "g4")
    (Some "2024-01-04T00:00:00.000Z") None None (Some "About the fourth post")
    (Some "About the fourth post") None None None None.

(** Sample fields as code units: a URL, a content, and as titles the two
    unpaired surrogates U+D800 and U+D801, the emoji U+1F600 (a surrogate
    pair) and the letter U+00E9. *)
Definition wideUrl : list Z := UTF16.ofString "https://example.com/p/1".
Definition wideText : list Z := UTF16.ofString "text".
Definition loneSurrogate : list Z := [55296]%Z.
Definition otherLoneSurrogate : list Z := [55297]%Z.
Definition emojiTitle : list Z := [55357; 56832]%Z.
Definition accentTitle : list Z := [233]%Z.

(* ====================================================================== *)
(** * Properties                                                           *)
(* ====================================================================== *)

(** ** Strings and digests *)

(** The FIPS 180-4 test vectors. *)
Example sha256_hex_empty :
  sha256_hex "" = "e3b0c44298fc1c149afbf4c8996fb92427ae41e4649b934ca495991b7852b855".
Proof. vm_compute. reflexivity. Qed.

Example sha256_hex_abc :
  sha256_hex "abc" = "ba7816bf8f01cfea414140de5dae2223b00361a396177a9cb410ff61f20015ad".
Proof. vm_compute. reflexivity. Qed.

Lemma append_length (a b : string) :
  String.length (a ++ b) = String.length a + String.length b.
Proof. induction a as [|c a IH]; simpl; [reflexivity | now rewrite IH]. Qed.

Lemma append_assoc (a b c : string) : (a ++ b) ++ c = a ++ (b ++ c).
Proof. induction a as [|x a IH]; simpl; [reflexivity | now rewrite IH]. Qed.

Lemma append_cancel_l (s a b : string) : s ++ a = s ++ b -> a = b.
Proof.
  induction s as [|c s IH]; simpl; intros H; [exact H|].
  injection H as H. now apply IH.
Qed.

Lemma hex32_length (x : Z) : String.length (SHA256.hex32 x) = 8.
Proof. reflexivity. Qed.

Lemma sha256_hex_length (data : string) : String.length (sha256_hex data) = 64.
Proof.
  unfold sha256_hex, SHA256.hexOfWords.
  repeat rewrite append_length. repeat rewrite hex32_length. reflexivity.
Qed.

Lemma substring_full_prefix (a b : string) :
  String.substring 0 (String.length a) (a ++ b) = a.
Proof.
  induction a as [|c a IH]; simpl.
  - destruct b; reflexivity.
  - now rewrite IH.
Qed.

(** The truncated digest is the rendering of its first two words. *)
Lemma generateContentHash_words (u t c : string) :
  generateContentHash u t c =
  SHA256.hex32 (SHA256.wa (SHA256.digest (utf8 (hashInput u t c)))) ++
  SHA256.hex32 (SHA256.wb (SHA256.digest (utf8 (hashInput u t c)))).
Proof.
  unfold generateContentHash, substringTo, sha256_hex, SHA256.hexOfWords.
  set (d := SHA256.digest _).
  rewrite <- append_assoc.
  change 16 with (String.length (SHA256.hex32 (SHA256.wa d) ++ SHA256.hex32 (SHA256.wb d))).
  apply substring_full_prefix.
Qed.

Lemma generateContentHash_length (u t c : string) :
  String.length (generateContentHash u t c) = 16.
Proof. rewrite generateContentHash_words, append_length. reflexivity. Qed.

(** ** Counting: a truncated digest cannot tell all inputs apart *)

Lemma bounded_search (g : Z -> Z) (v N : Z) :
  (0 <= N)%Z ->
  (exists x, (0 <= x <= N)%Z /\ g x = v) \/ (forall x, (0 <= x <= N)%Z -> g x <> v).
Proof.
  intros HN. pattern N. apply natlike_ind; [ | | exact HN].
  - destruct (Z.eq_dec (g 0%Z) v) as [E|E].
    + left. exists 0%Z. split; [lia | exact E].
    + right. intros x Hx. replace x with 0%Z by lia. exact E.
  - intros n Hn [[x [Hx E]] | IH].
    + left. exists x. split; [lia | exact E].
    + destruct (Z.eq_dec (g (Z.succ n)) v) as [E|E].
      * left. exists (Z.succ n). split; [lia | exact E].
      * right. intros x Hx.
        destruct (Z.eq_dec x (Z.succ n)) as [->|Hne]; [exact E | apply IH; lia].
Qed.

(** [N + 1] arguments and [N] values: two arguments share a value. *)
Lemma pigeonhole (N : Z) :
  (0 <= N)%Z ->
  forall g : Z -> Z,
    (forall x, (0 <= x <= N)%Z -> (0 <= g x < N)%Z) ->
    exists x y, (0 <= x < y)%Z /\ (y <= N)%Z /\ g x = g y.
Proof.
  intros HN. pattern N. apply natlike_ind; [ | | exact HN].
  - intros g Hg. specialize (Hg 0%Z). lia.
  - intros n Hn IH g Hg.
    destruct (bounded_search g (g (Z.succ n)) n Hn) as [[x [Hx E]] | Hfresh].
    + exists x, (Z.succ n). split; [lia | split; [lia | exact E]].
    + set (v := g (Z.succ n)) in *.
      assert (Hv : (0 <= v < Z.succ n)%Z) by (apply Hg; lia).
      destruct (IH (fun x => if (g x <? v)%Z then g x else (g x - 1)%Z)) as [x [y [Hxy [Hy E]]]].
      * intros x Hx. specialize (Hfresh x Hx).
        assert (Hgx : (0 <= g x < Z.succ n)%Z) by (apply Hg; lia).
        destruct (g x <? v)%Z eqn:Elt;
          [apply Z.ltb_lt in Elt | apply Z.ltb_ge in Elt]; lia.
      * exists x, y. split; [lia | split; [lia | ]].
        assert (Hfx : g x <> v) by (apply Hfresh; lia).
        assert (Hfy : g y <> v) by (apply Hfresh; lia).
        cbv beta in E.
        destruct (g x <? v)%Z eqn:Ex; destruct (g y <? v)%Z eqn:Ey;
          try apply Z.ltb_lt in Ex; try apply Z.ltb_ge in Ex;
          try apply Z.ltb_lt in Ey; try apply Z.ltb_ge in Ey; lia.
Qed.

Lemma binary_nonempty (p : positive) : binary p <> "".
Proof. destruct p; discriminate. Qed.

Lemma binary_inj (p q : positive) : binary p = binary q -> p = q.
Proof.
  revert q. induction p as [p IH | p IH | ]; intros [q | q | ] H; simpl in H;
    try discriminate H; try reflexivity.
  - injection H as H. f_equal. now apply IH.
  - injection H as H. now apply binary_nonempty in H.
  - injection H as H. f_equal. now apply IH.
  - injection H as H. symmetry in H. now apply binary_nonempty in H.
Qed.

Lemma numberedUrl_inj (x y : Z) :
  (0 <= x)%Z -> (0 <= y)%Z -> numberedUrl x = numberedUrl y -> x = y.
Proof.
  intros Hx Hy H. unfold numberedUrl in H.
  apply append_cancel_l in H. apply binary_inj in H.
  apply (f_equal Z.pos) in H. rewrite !Z2Pos.id in H by lia. lia.
Qed.

Lemma add32_range (x y : Z) : (0 <= SHA256.add32 x y < 4294967296)%Z.
Proof. unfold SHA256.add32, SHA256.wordMod. apply Z.mod_pos_bound. lia. Qed.

Lemma hashBlocks_bounded (n : nat) :
  forall ws h, Words8_bounded h -> Words8_bounded (SHA256.hashBlocks n ws h).
Proof.
  induction n as [|n IH]; intros ws h Hh; cbn [SHA256.hashBlocks].
  - exact Hh.
  - apply IH. unfold SHA256.compress, Words8_bounded. cbn [SHA256.wa SHA256.wb].
    split; apply add32_range.
Qed.

Lemma digest_bounded (msg : list Z) : Words8_bounded (SHA256.digest msg).
Proof.
  unfold SHA256.digest. apply hashBlocks_bounded.
  unfold Words8_bounded, SHA256.H0. cbn [SHA256.wa SHA256.wb]. lia.
Qed.

Lemma digestPrefix_range (data : string) :
  (0 <= digestPrefix data < 18446744073709551616)%Z.
Proof.
  unfold digestPrefix. destruct (digest_bounded (utf8 data)) as [Ha Hb]. lia.
Qed.

Lemma digestPrefix_hash (u1 u2 t c : string) :
  digestPrefix (hashInput u1 t c) = digestPrefix (hashInput u2 t c) ->
  generateContentHash u1 t c = generateContentHash u2 t c.
Proof.
  intros H. rewrite !generateContentHash_words.
  unfold digestPrefix in H.
  destruct (digest_bounded (utf8 (hashInput u1 t c))) as [Ha1 Hb1].
  destruct (digest_bounded (utf8 (hashInput u2 t c))) as [Ha2 Hb2].
  assert (Ea : SHA256.wa (SHA256.digest (utf8 (hashInput u1 t c))) =
               SHA256.wa (SHA256.digest (utf8 (hashInput u2 t c)))) by lia.
  assert (Eb : SHA256.wb (SHA256.digest (utf8 (hashInput u1 t c))) =
               SHA256.wb (SHA256.digest (utf8 (hashInput u2 t c)))) by lia.
  now rewrite Ea, Eb.
Qed.

(** Two different URLs with one title and one content share a feed hash. *)
Lemma feed_hash_collision_exists (t c : string) :
  exists u1 u2, u1 <> u2 /\ generateContentHash u1 t c = generateContentHash u2 t c.
Proof.
  destruct (pigeonhole 18446744073709551616 ltac:(lia)
              (fun x => digestPrefix (hashInput (numberedUrl x) t c)))
    as [x [y [Hxy [Hy E]]]].
  - intros x _. apply digestPrefix_range.
  - exists (numberedUrl x), (numberedUrl y). split.
    + intros Heq. apply numberedUrl_inj in Heq; lia.
    + now apply digestPrefix_hash.
Qed.

(** ** Content hashes *)

(** C4, counterexample: the hash is not the stated formula on the parsed
    item in two cases.  A JSON Feed item with a summary and no content is
    hashed over the empty content, not over its summary; and an item
    without a title is stored as Untitled but hashed over the empty
    title. *)
Lemma feed_hash_ignores_summary_and_stored_title :
  (fst (@parseJsonItem demoRuntime demoJsonItem emptyState) = Ret demoJsonParsed /\
   contentHtml demoJsonParsed = None /\
   contentOrSummary demoJsonParsed = "A short summary" /\
   hash demoJsonParsed <> specFeedHash demoJsonParsed) /\
  (exists p,
     fst (@parseRssItem demoRuntime untitledItem emptyState) = Ret p /\
     title p = "Untitled" /\
     contentOrSummary p = "<p>three</p>" /\
     hash p <> specFeedHash p).
Proof.
  split.
  - split; [vm_compute; reflexivity | ].
    split; [reflexivity | ].
    split; [reflexivity | ].
    vm_compute. intros H. discriminate H.
  - eexists. split; [vm_compute; reflexivity | ].
    split; [reflexivity | ].
    split; [reflexivity | ].
    vm_compute. intros H. discriminate H.
Qed.

Section HashProperties.
Context {RT : Runtime}.

Lemma bind_Ret {A B : Type} (m : M A) (k : A -> M B) (st st' : State) (b : B) :
  bind m k st = (Ret b, st') ->
  exists a st1, m st = (Ret a, st1) /\ k a st1 = (Ret b, st').
Proof.
  unfold bind. destruct (m st) as [[a | e] st1]; intros H.
  - exists a, st1. split; [reflexivity | exact H].
  - discriminate H.
Qed.

Lemma mapM_Forall2 {A B : Type} (f : A -> M B) (P : A -> B -> Prop) :
  (forall a st b st', f a st = (Ret b, st') -> P a b) ->
  forall xs st ys st', mapM f xs st = (Ret ys, st') -> Forall2 P xs ys.
Proof.
  intros Hf. induction xs as [|x xs IH]; intros st ys st' H; cbn [mapM] in H.
  - injection H as <- _. constructor.
  - apply bind_Ret in H as [y [s1 [Hy H]]].
    apply bind_Ret in H as [ys' [s2 [Hys H]]].
    injection H as <- _. constructor; [eapply Hf; eassumption | eapply IH; eassumption].
Qed.

Lemma parseRssItem_hashed (item : RssParserItem) (st : State) (p : ParsedFeedItem) (st' : State) :
  parseRssItem item st = (Ret p, st') -> rssItemHashed item p.
Proof.
  unfold parseRssItem. intros H.
  apply bind_Ret in H as [published [s1 [_ H]]].
  injection H as <- _. split; reflexivity.
Qed.

Lemma parseJsonItem_hashed (item : JsonFeedItem) (st : State) (p : ParsedFeedItem) (st' : State) :
  parseJsonItem item st = (Ret p, st') -> jsonItemHashed item p.
Proof.
  unfold parseJsonItem. intros H.
  apply bind_Ret in H as [published [s1 [_ H]]].
  injection H as <- _. unfold jsonItemHashed. cbn [hash url contentHtml].
  unfold generateContentHash, hashInput.
  destruct (jf_content_html item) as [h|]; [ | reflexivity].
  cbn [orElse]. destruct (truthy h) eqn:E; cbn [orElse]; rewrite ?E; reflexivity.
Qed.

Lemma orElse_truthy (a b : option string) (c : string) :
  (forall d, b = Some d -> truthy d = true) ->
  orElse a b = Some c -> truthy c = true.
Proof.
  intros Hb. unfold orElse. destruct a as [s|]; [ | apply Hb].
  destruct (truthy s) eqn:E; [ | apply Hb].
  intros H. injection H as <-. exact E.
Qed.

Lemma orDefault_truthy (s d : string) :
  truthy s = true -> orDefault (Some s) d = s.
Proof. intros E. unfold orDefault. rewrite E. reflexivity. Qed.

(** Where the stated formula does hold: an RSS or Atom item that has a
    title and full content. *)
Lemma parseRssItem_stated_formula (item : RssParserItem) (st : State)
    (p : ParsedFeedItem) (st' : State) :
  parseRssItem item st = (Ret p, st') ->
  orElse (rp_title item) None <> None -> contentHtml p <> None ->
  hash p = specFeedHash p.
Proof.
  unfold parseRssItem. intros H.
  apply bind_Ret in H as [published [s1 [_ H]]].
  injection H as <- _. cbn [contentHtml]. intros Htitle Hcontent.
  unfold specFeedHash, contentOrSummary. cbn [hash url title contentHtml].
  destruct (orElse (rp_contentEncoded item)
              (orElse (rp_content_encoded item) (orElse (rp_content item) None)))
    as [c|] eqn:Ec; [ | contradiction Hcontent; reflexivity].
  assert (Tc : truthy c = true).
  { revert Ec. apply orElse_truthy. intros d. apply orElse_truthy.
    intros d'. apply orElse_truthy. intros d'' Hd. discriminate Hd. }
  rewrite (orDefault_truthy c "" Tc).
  destruct (rp_title item) as [t|]; [ | contradiction Htitle; reflexivity].
  unfold orElse in Htitle. unfold orDefault.
  destruct (truthy t); [ | contradiction Htitle; reflexivity].
  reflexivity.
Qed.

(** The same for a JSON Feed item that has a title and content_html. *)
Lemma parseJsonItem_stated_formula (item : JsonFeedItem) (st : State)
    (p : ParsedFeedItem) (st' : State) :
  parseJsonItem item st = (Ret p, st') ->
  orElse (jf_title item) None <> None -> contentHtml p <> None ->
  hash p = specFeedHash p.
Proof.
  unfold parseJsonItem. intros H.
  apply bind_Ret in H as [published [s1 [_ H]]].
  injection H as <- _. cbn [contentHtml]. intros Htitle Hcontent.
  unfold specFeedHash, contentOrSummary. cbn [hash url title contentHtml].
  destruct (jf_content_html item) as [h|]; [ | contradiction Hcontent; reflexivity].
  unfold orElse in Hcontent |- *.
  destruct (truthy h) eqn:Th; [ | contradiction Hcontent; reflexivity].
  rewrite Th, (orDefault_truthy h "" Th).
  destruct (jf_title item) as [t|]; [ | contradiction Htitle; reflexivity].
  unfold orElse in Htitle. unfold orDefault.
  destruct (truthy t); [ | contradiction Htitle; reflexivity].
  reflexivity.
Qed.

(** C4, as amended: every item of a parsed RSS, Atom or JSON feed carries
    the first 16 hexadecimal characters of the SHA-256 of
    url | title | content.  The title is the one the feed gives, the empty
    string when it gives none (not the stored Untitled).  The content is,
    for RSS and Atom, the first present of the parser fields
    contentEncoded, content:encoded and content (the parser delivers an
    RSS description in content), and for JSON Feed content_html, else
    content_text; it is the empty string when none is present, and a JSON
    Feed summary is not hashed.  For an item that has a title and full
    content this is the hash of the stated formula. *)
Theorem parsed_feed_items_hashed (content : string) (st : State) (f : ParsedFeed) (st' : State) :
  (parseRssOrAtom content st = (Ret f, st') ->
     exists raw, rssParserParseString content = inr raw /\
                 Forall2 rssItemHashed (rp_items raw) (items f) /\
                 Forall2 (fun item p =>
                            orElse (rp_title item) None <> None ->
                            contentHtml p <> None -> hash p = specFeedHash p)
                         (rp_items raw) (items f)) /\
  (parseJsonFeed content st = (Ret f, st') ->
     exists raw, jsonParse content = inr raw /\
                 Forall2 jsonItemHashed (jf_items raw) (items f) /\
                 Forall2 (fun item p =>
                            orElse (jf_title item) None <> None ->
                            contentHtml p <> None -> hash p = specFeedHash p)
                         (jf_items raw) (items f)).
Proof.
  split; intros H.
  - unfold parseRssOrAtom in H.
    destruct (rssParserParseString content) as [msg | raw]; [discriminate H | ].
    exists raw. split; [reflexivity | ].
    apply bind_Ret in H as [parsed [s1 [Hm H]]]. injection H as <- _.
    cbn [items]. split; (eapply mapM_Forall2; [ | exact Hm]).
    + intros a s b s'. apply parseRssItem_hashed.
    + intros a s b s'. apply parseRssItem_stated_formula.
  - unfold parseJsonFeed in H.
    destruct (jsonParse content) as [msg | raw]; [discriminate H | ].
    exists raw. split; [reflexivity | ].
    apply bind_Ret in H as [parsed [s1 [Hm H]]]. injection H as <- _.
    cbn [items]. split; (eapply mapM_Forall2; [ | exact Hm]).
    + intros a s b s'. apply parseJsonItem_hashed.
    + intros a s b s'. apply parseJsonItem_stated_formula.
Qed.

(** Determinism where the hash is computed: the hashes of a feed's items
    are a function of the parsed document alone, whatever the store and
    the clock at the time of parsing. *)
Lemma parseRssItem_hash_fixed (item : RssParserItem) (st : State)
    (p : ParsedFeedItem) (st' : State) :
  parseRssItem item st = (Ret p, st') ->
  hash p =
    generateContentHash
      (orDefault (rp_link item) (orDefault (orElse (rp_guid item) (rp_link item)) ""))
      (orDefault (rp_title item) "")
      (orDefault (orElse (rp_contentEncoded item)
                    (orElse (rp_content_encoded item) (orElse (rp_content item) None))) "").
Proof.
  unfold parseRssItem. intros H.
  apply bind_Ret in H as [published [s1 [_ H]]].
  injection H as <- _. reflexivity.
Qed.

Lemma parseJsonItem_hash_fixed (item : JsonFeedItem) (st : State)
    (p : ParsedFeedItem) (st' : State) :
  parseJsonItem item st = (Ret p, st') ->
  hash p =
    generateContentHash (orDefault (jf_url item) (jf_id item))
      (orDefault (jf_title item) "")
      (orDefault (orElse (orElse (jf_content_html item) None) (jf_content_text item)) "").
Proof.
  unfold parseJsonItem. intros H.
  apply bind_Ret in H as [published [s1 [_ H]]].
  injection H as <- _. reflexivity.
Qed.

Lemma Forall2_hash_map {A : Type} (g : A -> string) (xs : list A) (ps : list ParsedFeedItem) :
  Forall2 (fun x p => hash p = g x) xs ps -> map hash ps = map g xs.
Proof.
  induction 1 as [|x p xs ps Hx _ IH]; [reflexivity | ].
  cbn [map]. rewrite Hx, IH. reflexivity.
Qed.

Lemma parseRssOrAtom_hashes_fixed (content : string) (st1 st2 : State)
    (f1 f2 : ParsedFeed) (s1 s2 : State) :
  parseRssOrAtom content st1 = (Ret f1, s1) ->
  parseRssOrAtom content st2 = (Ret f2, s2) ->
  map hash (items f1) = map hash (items f2).
Proof.
  unfold parseRssOrAtom.
  destruct (rssParserParseString content) as [msg | raw]; [intros H; discriminate H | ].
  intros H1 H2.
  apply bind_Ret in H1 as [p1 [a1 [Hm1 H1]]]. injection H1 as <- _.
  apply bind_Ret in H2 as [p2 [a2 [Hm2 H2]]]. injection H2 as <- _.
  cbn [items].
  rewrite (Forall2_hash_map _ _ _
             (mapM_Forall2 _ _ parseRssItem_hash_fixed _ _ _ _ Hm1)).
  rewrite (Forall2_hash_map _ _ _
             (mapM_Forall2 _ _ parseRssItem_hash_fixed _ _ _ _ Hm2)).
  reflexivity.
Qed.

Lemma parseJsonFeed_hashes_fixed (content : string) (st1 st2 : State)
    (f1 f2 : ParsedFeed) (s1 s2 : State) :
  parseJsonFeed content st1 = (Ret f1, s1) ->
  parseJsonFeed content st2 = (Ret f2, s2) ->
  map hash (items f1) = map hash (items f2).
Proof.
  unfold parseJsonFeed.
  destruct (jsonParse content) as [msg | raw]; [intros H; discriminate H | ].
  intros H1 H2.
  apply bind_Ret in H1 as [p1 [a1 [Hm1 H1]]]. injection H1 as <- _.
  apply bind_Ret in H2 as [p2 [a2 [Hm2 H2]]]. injection H2 as <- _.
  cbn [items].
  rewrite (Forall2_hash_map _ _ _
             (mapM_Forall2 _ _ parseJsonItem_hash_fixed _ _ _ _ Hm1)).
  rewrite (Forall2_hash_map _ _ _
             (mapM_Forall2 _ _ parseJsonItem_hash_fixed _ _ _ _ Hm2)).
  reflexivity.
Qed.

End HashProperties.

Lemma parsed_feed_items_hashed_witness :
  (@parseRssOrAtom demoRuntime "FEED" emptyState = (Ret demoParsedFeed, emptyState) /\
   exists raw, @rssParserParseString demoRuntime "FEED" = inr raw /\
               Forall2 rssItemHashed (rp_items raw) (items demoParsedFeed) /\
               Forall2 (fun item p =>
                          orElse (rp_title item) None <> None ->
                          contentHtml p <> None -> hash p = specFeedHash p)
                       (rp_items raw) (items demoParsedFeed)) /\
  (@parseJsonFeed demoRuntime "NOTES" emptyState = (Ret demoParsedNotes, emptyState) /\
   exists raw, @jsonParse demoRuntime "NOTES" = inr raw /\
               Forall2 jsonItemHashed (jf_items raw) (items demoParsedNotes) /\
               Forall2 (fun item p =>
                          orElse (jf_title item) None <> None ->
                          contentHtml p <> None -> hash p = specFeedHash p)
                       (jf_items raw) (items demoParsedNotes)).
Proof.
  assert (H : @parseRssOrAtom demoRuntime "FEED" emptyState = (Ret demoParsedFeed, emptyState))
    by (vm_compute; reflexivity).
  assert (J : @parseJsonFeed demoRuntime "NOTES" emptyState = (Ret demoParsedNotes, emptyState))
    by (vm_compute; reflexivity).
  split; (split; [assumption | ]).
  - exact (proj1 (@parsed_feed_items_hashed demoRuntime "FEED" emptyState
                    demoParsedFeed emptyState) H).
  - exact (proj2 (@parsed_feed_items_hashed demoRuntime "NOTES" emptyState
                    demoParsedNotes emptyState) J).
Defined.

(** An RSS description, delivered as content, is hashed, and the hash is
    the one of the stated formula. *)
Example rss_description_is_hashed :
  exists p,
    fst (@parseRssItem demoRuntime describedItem emptyState) = Ret p /\
    contentHtml p = Some "About the fourth post" /\
    description p = Some "About the fourth post" /\
    hash p = specFeedHash p /\
    hash p = "b0e3589db4d4c748".
Proof.
  eexists. split; [vm_compute; reflexivity | ].
  repeat split; vm_compute; reflexivity.
Qed.

(** The hashes of the demo feed and of a demo post, as Node computes them. *)
Example demo_feed_hashes :
  map hash (items demoParsedFeed) = ["3c8d86f3c3e8f028"; "88b20ed4435fbc78"].
Proof. vm_compute. reflexivity. Qed.

Example demo_mail_hash :
  option_map generateMailContentHash
    (@parseSubstackPost demoRuntime (demoMessage "m1" "https://jane.substack.com/p/hello")) =
  Some "2cb9a7dd1f58169fd77fe327c6605b794297a5166083e8ede40d16dc0d5ef37c".
Proof. vm_compute. reflexivity. Qed.

(** ** The feed hash on full JavaScript strings *)

Section WideStrings.
Local Open Scope Z_scope.

Lemma cons_equal {A : Type} (a b : A) (l m : list A) :
  (a :: l = b :: m -> a = b /\ l = m)%list.
Proof.
  intros H. split; [exact (f_equal (hd a) H) | exact (f_equal (@tl A) H)].
Qed.

Ltac byte_equations H :=
  cbv [app] in H;
  repeat (let E := fresh "E" in apply cons_equal in H as [E H]).

Lemma encode_nonempty (cp : Z) (rest : list Z) : (UTF16.encode cp ++ rest)%list <> [].
Proof.
  unfold UTF16.encode.
  destruct (cp <? 128); [intros H; discriminate H | ].
  destruct (cp <? 2048); [intros H; discriminate H | ].
  destruct (cp <? 65536); intros H; discriminate H.
Qed.

(** No encoding of a code point is the start of the encoding of another. *)
Lemma encode_prefix_free (cp1 cp2 : Z) (x1 x2 : list Z) :
  0 <= cp1 < 1114112 -> 0 <= cp2 < 1114112 ->
  (UTF16.encode cp1 ++ x1)%list = (UTF16.encode cp2 ++ x2)%list ->
  cp1 = cp2 /\ x1 = x2.
Proof.
  intros B1 B2. unfold UTF16.encode.
  destruct (Z.ltb_spec cp1 128); [ | destruct (Z.ltb_spec cp1 2048);
                                     [ | destruct (Z.ltb_spec cp1 65536)]];
  (destruct (Z.ltb_spec cp2 128); [ | destruct (Z.ltb_spec cp2 2048);
                                      [ | destruct (Z.ltb_spec cp2 65536)]]);
  intros Heq; byte_equations Heq;
  try (exfalso; Z.div_mod_to_equations; lia);
  (split; [Z.div_mod_to_equations; lia | exact Heq]).
Qed.

(** The first code point of a well-formed string, and what follows it. *)
Lemma utf8_head (u : Z) (r : list Z) :
  UTF16.isWellFormed (u :: r) = true ->
  exists cp rest,
    UTF16.utf8 (u :: r) = (UTF16.encode cp ++ UTF16.utf8 rest)%list /\
    UTF16.isWellFormed rest = true /\
    (List.length rest < List.length (u :: r))%nat /\
    0 <= cp < 1114112 /\
    ((cp < 65536 /\ cp = u /\ rest = r /\ ~ (55296 <= u <= 56319)) \/
     (65536 <= cp /\ exists l, r = l :: rest /\ cp = UTF16.pairCodePoint u l /\
                               55296 <= u <= 56319 /\ 56320 <= l <= 57343)).
Proof.
  cbn [UTF16.isWellFormed UTF16.utf8]. unfold UTF16.isHigh.
  destruct (Z.leb_spec 55296 u) as [H1|H1];
    [destruct (Z.leb_spec u 56319) as [H2|H2] | ]; cbn [andb].
  - destruct r as [|l r']; [intros H; discriminate H | ].
    intros H. apply andb_prop in H as [Hl Hr]. rewrite Hl.
    unfold UTF16.isLow in Hl. apply andb_prop in Hl as [L1 L2].
    apply Z.leb_le in L1, L2.
    exists (UTF16.pairCodePoint u l), r'.
    split; [reflexivity | ]. split; [exact Hr | ].
    split; [cbn [List.length]; lia | ].
    unfold UTF16.pairCodePoint. split; [lia | ].
    right. split; [lia | ]. exists l. repeat split; lia.
  - intros H. apply andb_prop in H as [H Hr]. apply andb_prop in H as [H B2].
    apply andb_prop in H as [Hl B1]. apply negb_true_iff in Hl. rewrite Hl.
    apply Z.leb_le in B1. apply Z.ltb_lt in B2.
    exists u, r. split; [reflexivity | ]. split; [exact Hr | ].
    split; [cbn [List.length]; lia | ]. split; [lia | ].
    left. repeat split; lia.
  - intros H. apply andb_prop in H as [H Hr]. apply andb_prop in H as [H B2].
    apply andb_prop in H as [Hl B1]. apply negb_true_iff in Hl. rewrite Hl.
    apply Z.leb_le in B1. apply Z.ltb_lt in B2.
    exists u, r. split; [reflexivity | ]. split; [exact Hr | ].
    split; [cbn [List.length]; lia | ]. split; [lia | ].
    left. repeat split; lia.
Qed.

Lemma utf8_wide_inj_bounded (n : nat) :
  forall s1 s2, (List.length s1 <= n)%nat ->
    UTF16.isWellFormed s1 = true -> UTF16.isWellFormed s2 = true ->
    UTF16.utf8 s1 = UTF16.utf8 s2 -> s1 = s2.
Proof.
  induction n as [|n IH]; intros s1 s2 Hlen W1 W2 E.
  - destruct s1 as [|u1 r1]; [ | cbn [List.length] in Hlen; lia].
    destruct s2 as [|u2 r2]; [reflexivity | ].
    destruct (utf8_head u2 r2 W2) as (cp & rest & E2 & _).
    rewrite E2 in E. symmetry in E. apply encode_nonempty in E. contradiction.
  - destruct s1 as [|u1 r1].
    + destruct s2 as [|u2 r2]; [reflexivity | ].
      destruct (utf8_head u2 r2 W2) as (cp & rest & E2 & _).
      rewrite E2 in E. symmetry in E. apply encode_nonempty in E. contradiction.
    + destruct s2 as [|u2 r2].
      * destruct (utf8_head u1 r1 W1) as (cp & rest & E1 & _).
        rewrite E1 in E. apply encode_nonempty in E. contradiction.
      * destruct (utf8_head u1 r1 W1) as (cp1 & rest1 & E1 & V1 & L1 & B1 & C1).
        destruct (utf8_head u2 r2 W2) as (cp2 & rest2 & E2 & V2 & _ & B2 & C2).
        rewrite E1, E2 in E.
        apply encode_prefix_free in E as [Ecp Erest]; [ | exact B1 | exact B2].
        assert (Er : rest1 = rest2).
        { apply IH; [cbn [List.length] in L1, Hlen; lia | exact V1 | exact V2 | exact Erest]. }
        destruct C1 as [(S1 & U1 & R1 & _) | (S1 & l1 & R1 & P1 & HU1 & HL1)];
          destruct C2 as [(S2 & U2 & R2 & _) | (S2 & l2 & R2 & P2 & HU2 & HL2)].
        -- congruence.
        -- lia.
        -- lia.
        -- unfold UTF16.pairCodePoint in P1, P2.
           assert (u1 = u2) by lia. assert (l1 = l2) by lia. congruence.
Qed.

(** On well-formed strings the encoding loses nothing. *)
Lemma utf8_wide_inj (s1 s2 : list Z) :
  UTF16.isWellFormed s1 = true -> UTF16.isWellFormed s2 = true ->
  UTF16.utf8 s1 = UTF16.utf8 s2 -> s1 = s2.
Proof. apply (utf8_wide_inj_bounded (List.length s1)). lia. Qed.

Lemma isWellFormed_bounded_app (n : nat) :
  forall a b, (List.length a <= n)%nat ->
    UTF16.isWellFormed a = true -> UTF16.isWellFormed b = true ->
    UTF16.isWellFormed (a ++ b) = true.
Proof.
  induction n as [|n IH]; intros a b Hlen Wa Wb.
  - destruct a; [exact Wb | cbn [List.length] in Hlen; lia].
  - destruct a as [|u r]; [exact Wb | ].
    cbn [app UTF16.isWellFormed] in Wa |- *.
    destruct (UTF16.isHigh u).
    + destruct r as [|l r']; [discriminate Wa | ].
      apply andb_prop in Wa as [Hl Hr]. cbn [app]. rewrite Hl. cbn [andb].
      apply IH; [cbn [List.length] in Hlen; lia | exact Hr | exact Wb].
    + apply andb_prop in Wa as [H Hr]. rewrite H. cbn [andb].
      apply IH; [cbn [List.length] in Hlen; lia | exact Hr | exact Wb].
Qed.

Lemma isWellFormed_app (a b : list Z) :
  UTF16.isWellFormed a = true -> UTF16.isWellFormed b = true ->
  UTF16.isWellFormed (a ++ b) = true.
Proof. apply (isWellFormed_bounded_app (List.length a)). lia. Qed.

Lemma isWellFormed_hashInput (u t c : list Z) :
  UTF16.isWellFormed u = true -> UTF16.isWellFormed t = true ->
  UTF16.isWellFormed c = true ->
  UTF16.isWellFormed (UTF16.hashInput u t c) = true.
Proof.
  intros Wu Wt Wc. unfold UTF16.hashInput.
  repeat (apply isWellFormed_app; try assumption); reflexivity.
Qed.

(** Fields that differ in exactly one place give different hashed strings. *)
Lemma hashInput_wide_differs (u1 t1 c1 u2 t2 c2 : list Z) :
  UTF16.differInExactlyOne u1 t1 c1 u2 t2 c2 ->
  UTF16.hashInput u1 t1 c1 <> UTF16.hashInput u2 t2 c2.
Proof.
  unfold UTF16.differInExactlyOne, UTF16.hashInput.
  intros [(Hu & -> & ->) | [(-> & Ht & ->) | (-> & -> & Hc)]] E.
  - apply app_inv_tail in E. contradiction.
  - apply app_inv_head in E. apply app_inv_head in E.
    apply app_inv_tail in E. contradiction.
  - repeat apply app_inv_head in E. contradiction.
Qed.

End WideStrings.

Section HexRendering.
Local Open Scope Z_scope.

Lemma hexDigit_inj (a b : Z) :
  0 <= a < 16 -> 0 <= b < 16 -> SHA256.hexDigit a = SHA256.hexDigit b -> a = b.
Proof.
  intros Ha Hb E.
  assert (T : forallb (fun i =>
                forallb (fun j =>
                  implb (Ascii.eqb (SHA256.hexDigit (Z.of_nat i)) (SHA256.hexDigit (Z.of_nat j)))
                        (Nat.eqb i j)) (seq 0 16)) (seq 0 16) = true) by reflexivity.
  assert (Ia : In (Z.to_nat a) (seq 0 16)) by (apply in_seq; lia).
  assert (Ib : In (Z.to_nat b) (seq 0 16)) by (apply in_seq; lia).
  pose proof (proj1 (forallb_forall _ _) (proj1 (forallb_forall _ _) T _ Ia) _ Ib) as K.
  cbv beta in K. rewrite !Z2Nat.id in K by lia.
  rewrite E, Ascii.eqb_refl in K. cbn [implb] in K.
  apply Nat.eqb_eq in K. lia.
Qed.

Lemma string_cons_equal (a b : ascii) (s t : string) :
  String a s = String b t -> a = b /\ s = t.
Proof. intros H. injection H as Hc Hs. split; assumption. Qed.

Lemma nibble (x i : Z) : 0 <= i -> Z.shiftr x (4 * i) mod 16 = (x / 2 ^ (4 * i)) mod 16.
Proof. intros Hi. rewrite Z.shiftr_div_pow2 by lia. reflexivity. Qed.

(** One hexadecimal digit more: equal quotients by 16 m and equal digits
    at m give equal quotients by m. *)
Lemma digit_step (x y m : Z) :
  0 < m -> x / (16 * m) = y / (16 * m) ->
  (x / m) mod 16 = (y / m) mod 16 -> x / m = y / m.
Proof.
  intros Hm Hq Hd.
  rewrite (Z.div_mod (x / m) 16), (Z.div_mod (y / m) 16) by lia.
  rewrite !Z.div_div by lia. rewrite (Z.mul_comm m 16), Hq, Hd. reflexivity.
Qed.

(** The rendering of a 32-bit word determines the word. *)
Lemma hex32_inj (x y : Z) :
  0 <= x < 4294967296 -> 0 <= y < 4294967296 ->
  SHA256.hex32 x = SHA256.hex32 y -> x = y.
Proof.
  intros Hx Hy E. unfold SHA256.hex32 in E. cbn [map string_of_list_ascii] in E.
  repeat (let D := fresh "D" in apply string_cons_equal in E as [D E]).
  repeat match goal with
         | D : SHA256.hexDigit _ = SHA256.hexDigit _ |- _ =>
             apply hexDigit_inj in D; [ | apply Z.mod_pos_bound; lia | apply Z.mod_pos_bound; lia]
         end.
  rewrite !nibble in * by lia.
  assert (E8 : x / (16 * 268435456) = y / (16 * 268435456))
    by (rewrite !Z.div_small by lia; reflexivity).
  pose proof (digit_step x y 268435456 ltac:(lia) E8 D) as E7.
  pose proof (digit_step x y 16777216 ltac:(lia) E7 D0) as E6.
  pose proof (digit_step x y 1048576 ltac:(lia) E6 D1) as E5.
  pose proof (digit_step x y 65536 ltac:(lia) E5 D2) as E4.
  pose proof (digit_step x y 4096 ltac:(lia) E4 D3) as E3.
  pose proof (digit_step x y 256 ltac:(lia) E3 D4) as E2.
  pose proof (digit_step x y 16 ltac:(lia) E2 D5) as E1.
  pose proof (digit_step x y 1 ltac:(lia) E1 D6) as E0.
  rewrite !Z.div_1_r in E0. exact E0.
Qed.

Lemma append_same_length (a a' b b' : string) :
  String.length a = String.length a' -> (a ++ b = a' ++ b')%string -> a = a' /\ b = b'.
Proof.
  revert a'. induction a as [|c a IH]; intros [|c' a'] Hlen E;
    cbn [String.length] in Hlen; try discriminate Hlen.
  - split; [reflexivity | exact E].
  - cbn [append] in E. apply string_cons_equal in E as [-> E].
    destruct (IH a') as [-> ->]; [lia | exact E | ]. split; reflexivity.
Qed.

Lemma generateContentHash_wide_words (u t c : list Z) :
  UTF16.generateContentHash u t c =
  (SHA256.hex32 (SHA256.wa (SHA256.digest (UTF16.utf8 (UTF16.hashInput u t c)))) ++
   SHA256.hex32 (SHA256.wb (SHA256.digest (UTF16.utf8 (UTF16.hashInput u t c)))))%string.
Proof.
  unfold UTF16.generateContentHash, substringTo, SHA256.hexOfWords.
  set (d := SHA256.digest _).
  rewrite <- append_assoc.
  change 16%nat with (String.length (SHA256.hex32 (SHA256.wa d) ++ SHA256.hex32 (SHA256.wb d))).
  apply substring_full_prefix.
Qed.

(** Two feed hashes are equal exactly when the two digests agree on their
    first 64 bits. *)
Lemma generateContentHash_wide_eq (u1 t1 c1 u2 t2 c2 : list Z) :
  UTF16.generateContentHash u1 t1 c1 = UTF16.generateContentHash u2 t2 c2 <->
  UTF16.digestPrefix (UTF16.utf8 (UTF16.hashInput u1 t1 c1)) =
  UTF16.digestPrefix (UTF16.utf8 (UTF16.hashInput u2 t2 c2)).
Proof.
  rewrite !generateContentHash_wide_words. unfold UTF16.digestPrefix.
  destruct (digest_bounded (UTF16.utf8 (UTF16.hashInput u1 t1 c1))) as [Ha1 Hb1].
  destruct (digest_bounded (UTF16.utf8 (UTF16.hashInput u2 t2 c2))) as [Ha2 Hb2].
  generalize dependent (SHA256.digest (UTF16.utf8 (UTF16.hashInput u2 t2 c2))).
  generalize dependent (SHA256.digest (UTF16.utf8 (UTF16.hashInput u1 t1 c1))).
  intros d1 Ha1 Hb1 d2 Ha2 Hb2.
  split; intros E.
  - apply append_same_length in E as [Ea Eb]; [ | reflexivity].
    apply hex32_inj in Ea; [ | exact Ha1 | exact Ha2].
    apply hex32_inj in Eb; [ | exact Hb1 | exact Hb2].
    rewrite Ea, Eb. reflexivity.
  - assert (Ea : SHA256.wa d1 = SHA256.wa d2) by lia.
    assert (Eb : SHA256.wb d1 = SHA256.wb d2) by lia.
    rewrite Ea, Eb. reflexivity.
Qed.

(** A string of code units below 256 is encoded as before. *)
Lemma narrow_unit (c : ascii) :
  UTF16.isHigh (Z.of_nat (nat_of_ascii c)) = false /\
  UTF16.isLow (Z.of_nat (nat_of_ascii c)) = false /\
  (0 <=? Z.of_nat (nat_of_ascii c)) && (Z.of_nat (nat_of_ascii c) <? 65536) = true /\
  UTF16.encode (Z.of_nat (nat_of_ascii c)) = utf8 (String c "").
Proof.
  destruct c as [[] [] [] [] [] [] [] []]; vm_compute; repeat split; reflexivity.
Qed.

Lemma utf8_ofString (s : string) : UTF16.utf8 (UTF16.ofString s) = utf8 s.
Proof.
  induction s as [|c s IH]; [reflexivity | ].
  change (UTF16.ofString (String c s))
    with (Z.of_nat (nat_of_ascii c) :: UTF16.ofString s).
  destruct (narrow_unit c) as (H1 & H2 & _ & H3).
  cbn [UTF16.utf8]. rewrite H1, H2, H3, IH. cbn [utf8].
  destruct (Z.of_nat (nat_of_ascii c) <? 128); reflexivity.
Qed.

Lemma isWellFormed_ofString (s : string) : UTF16.isWellFormed (UTF16.ofString s) = true.
Proof.
  induction s as [|c s IH]; [reflexivity | ].
  change (UTF16.ofString (String c s))
    with (Z.of_nat (nat_of_ascii c) :: UTF16.ofString s).
  destruct (narrow_unit c) as (H1 & H2 & H3 & _).
  cbn [UTF16.isWellFormed]. rewrite H1, H2, IH. cbn [negb andb].
  rewrite H3. reflexivity.
Qed.

Lemma ofString_app (a b : string) :
  UTF16.ofString (a ++ b) = (UTF16.ofString a ++ UTF16.ofString b)%list.
Proof.
  induction a as [|c a IH]; [reflexivity | ].
  change (UTF16.ofString (String c a ++ b))
    with (Z.of_nat (nat_of_ascii c) :: UTF16.ofString (a ++ b)).
  rewrite IH. reflexivity.
Qed.

(** On such strings the hash on code units is the hash of the pipeline. *)
Lemma generateContentHash_ofString (u t c : string) :
  UTF16.generateContentHash (UTF16.ofString u) (UTF16.ofString t) (UTF16.ofString c) =
  generateContentHash u t c.
Proof.
  unfold UTF16.generateContentHash, generateContentHash, sha256_hex.
  assert (E : UTF16.hashInput (UTF16.ofString u) (UTF16.ofString t) (UTF16.ofString c) =
              UTF16.ofString (hashInput u t c)).
  { unfold UTF16.hashInput, hashInput. rewrite !ofString_app. reflexivity. }
  rewrite E, utf8_ofString. reflexivity.
Qed.

(** A unit that is not a low surrogate starts a code point of its own,
    whatever precedes it. *)
Lemma utf8_bounded_app_not_low (n : nat) :
  forall (a : list Z) (b : Z) (r : list Z), (List.length a <= n)%nat ->
    UTF16.isLow b = false ->
    UTF16.utf8 (a ++ b :: r) = (UTF16.utf8 a ++ UTF16.utf8 (b :: r))%list.
Proof.
  induction n as [|n IH]; intros a b r Hlen Hb.
  - destruct a; [reflexivity | cbn [List.length] in Hlen; lia].
  - destruct a as [|u a']; [reflexivity | ].
    cbn [List.length] in Hlen.
    change ((u :: a') ++ b :: r)%list with (u :: (a' ++ b :: r))%list.
    change (UTF16.utf8 (u :: a' ++ b :: r)) with
      (if UTF16.isHigh u then
         match (a' ++ b :: r)%list with
         | l :: r' => if UTF16.isLow l then (UTF16.encode (UTF16.pairCodePoint u l) ++ UTF16.utf8 r')%list
                      else (UTF16.replacement ++ UTF16.utf8 (a' ++ b :: r))%list
         | [] => UTF16.replacement
         end
       else if UTF16.isLow u then (UTF16.replacement ++ UTF16.utf8 (a' ++ b :: r))%list
       else (UTF16.encode u ++ UTF16.utf8 (a' ++ b :: r))%list).
    change (UTF16.utf8 (u :: a')) with
      (if UTF16.isHigh u then
         match a' with
         | l :: r' => if UTF16.isLow l then (UTF16.encode (UTF16.pairCodePoint u l) ++ UTF16.utf8 r')%list
                      else (UTF16.replacement ++ UTF16.utf8 a')%list
         | [] => UTF16.replacement
         end
       else if UTF16.isLow u then (UTF16.replacement ++ UTF16.utf8 a')%list
       else (UTF16.encode u ++ UTF16.utf8 a')%list).
    destruct (UTF16.isHigh u).
    + destruct a' as [|l a''].
      * change ([] ++ b :: r)%list with (b :: r). cbv beta iota. rewrite Hb. reflexivity.
      * change ((l :: a'') ++ b :: r)%list with (l :: (a'' ++ b :: r))%list.
        cbn [List.length] in Hlen. cbv beta iota.
        destruct (UTF16.isLow l).
        -- rewrite (IH a'' b r) by (try lia; exact Hb).
           rewrite app_assoc. reflexivity.
        -- change (l :: a'' ++ b :: r)%list with ((l :: a'') ++ b :: r)%list.
           rewrite (IH (l :: a'') b r) by (try (cbn [List.length]; lia); exact Hb).
           rewrite app_assoc. reflexivity.
    + destruct (UTF16.isLow u); rewrite (IH a' b r) by (try lia; exact Hb);
        rewrite app_assoc; reflexivity.
Qed.

Lemma utf8_surrogate_before_bar (x : Z) (c : list Z) :
  UTF16.isHigh x || UTF16.isLow x = true ->
  UTF16.utf8 (x :: 124 :: c) = (UTF16.replacement ++ UTF16.utf8 (124 :: c))%list.
Proof.
  intros Hx.
  change (UTF16.utf8 (x :: 124 :: c)) with
    (if UTF16.isHigh x then (UTF16.replacement ++ UTF16.utf8 (124 :: c))%list
     else if UTF16.isLow x then (UTF16.replacement ++ UTF16.utf8 (124 :: c))%list
     else (UTF16.encode x ++ UTF16.utf8 (124 :: c))%list).
  destruct (UTF16.isHigh x); [reflexivity | ].
  destruct (UTF16.isLow x); [reflexivity | discriminate Hx].
Qed.

(** A title that is one unpaired surrogate is hashed as U+FFFD. *)
Lemma lone_surrogate_title_bytes (u c : list Z) (x : Z) :
  UTF16.isHigh x || UTF16.isLow x = true ->
  UTF16.utf8 (UTF16.hashInput u [x] c) =
  (UTF16.utf8 u ++ [124] ++ UTF16.replacement ++ UTF16.utf8 (124 :: c))%list.
Proof.
  intros Hx. unfold UTF16.hashInput.
  change (u ++ [124] ++ [x] ++ [124] ++ c)%list with (u ++ 124 :: x :: 124 :: c)%list.
  rewrite (utf8_bounded_app_not_low (List.length u)) by (try lia; reflexivity).
  change (UTF16.utf8 (124 :: x :: 124 :: c)) with ([124] ++ UTF16.utf8 (x :: 124 :: c))%list.
  rewrite utf8_surrogate_before_bar by exact Hx. reflexivity.
Qed.

End HexRendering.

(** C9, counterexample: two inputs that differ in the title alone and have
    the same feed hash.  The titles are the unpaired surrogates U+D800 and
    U+D801, which a JSON feed can deliver; both are encoded as U+FFFD, so
    the hashed bytes are those of https://example.com/p/1|U+FFFD|text.
    And with well-formed strings too the claim fails: there are only 2^64
    hashes, so two of the URLs number 0 to 2^64 share their hash with one
    and the same title and content. *)
Lemma feed_hash_sensitivity_fails :
  (UTF16.differInExactlyOne wideUrl loneSurrogate wideText
                            wideUrl otherLoneSurrogate wideText /\
   UTF16.generateContentHash wideUrl loneSurrogate wideText = "c2f7784a0a70b4d9" /\
   UTF16.generateContentHash wideUrl otherLoneSurrogate wideText = "c2f7784a0a70b4d9") /\
  ~ (forall u1 t1 c1 u2 t2 c2 : string,
        differInExactlyOne u1 t1 c1 u2 t2 c2 ->
        generateContentHash u1 t1 c1 <> generateContentHash u2 t2 c2).
Proof.
  split.
  - split.
    + right. left. split; [reflexivity | ]. split; [ | reflexivity].
      intros H. discriminate H.
    + split; vm_compute; reflexivity.
  - intros H.
    destruct (feed_hash_collision_exists "Post" "body") as [u1 [u2 [Hne E]]].
    apply (H u1 "Post" "body" u2 "Post" "body"); [ | exact E].
    left. repeat split. exact Hne.
Qed.

Section FeedHashProperties.
Context {RT : Runtime}.

(** C9, as amended: the feed content hash is a function of the url, title
    and content fields alone: the hashes of the items of a feed are the
    same whatever the store and the clock when it is parsed.  It is
    sensitive to each field up to the encoding and the truncation: for
    fields that are well-formed strings (no unpaired surrogate), two
    inputs that differ in exactly one of url, title and content hand
    different byte strings to SHA-256, and their hashes differ exactly
    when the two digests differ in their first 64 bits.  Unpaired
    surrogates are all encoded alike: two titles that are each one
    unpaired surrogate get the same hash.  On strings of code units below
    256 the hash on code units is the hash of the pipeline. *)
Theorem feed_hash_deterministic_and_input_sensitive :
  (forall (content : string) (st1 st2 : State) (f1 f2 : ParsedFeed) (s1 s2 : State),
     (parseRssOrAtom content st1 = (Ret f1, s1) ->
      parseRssOrAtom content st2 = (Ret f2, s2) ->
      map hash (items f1) = map hash (items f2)) /\
     (parseJsonFeed content st1 = (Ret f1, s1) ->
      parseJsonFeed content st2 = (Ret f2, s2) ->
      map hash (items f1) = map hash (items f2))) /\
  (forall u t c : string,
     UTF16.generateContentHash (UTF16.ofString u) (UTF16.ofString t) (UTF16.ofString c) =
     generateContentHash u t c) /\
  (forall u1 t1 c1 u2 t2 c2 : list Z,
     UTF16.isWellFormed u1 = true -> UTF16.isWellFormed t1 = true ->
     UTF16.isWellFormed c1 = true ->
     UTF16.isWellFormed u2 = true -> UTF16.isWellFormed t2 = true ->
     UTF16.isWellFormed c2 = true ->
     UTF16.differInExactlyOne u1 t1 c1 u2 t2 c2 ->
     UTF16.utf8 (UTF16.hashInput u1 t1 c1) <> UTF16.utf8 (UTF16.hashInput u2 t2 c2) /\
     (UTF16.generateContentHash u1 t1 c1 <> UTF16.generateContentHash u2 t2 c2 <->
      UTF16.digestPrefix (UTF16.utf8 (UTF16.hashInput u1 t1 c1)) <>
      UTF16.digestPrefix (UTF16.utf8 (UTF16.hashInput u2 t2 c2)))) /\
  (forall (u c : list Z) (x y : Z),
     UTF16.isHigh x || UTF16.isLow x = true ->
     UTF16.isHigh y || UTF16.isLow y = true ->
     UTF16.generateContentHash u [x] c = UTF16.generateContentHash u [y] c).
Proof.
  split; [ | split; [ | split]].
  - intros content st1 st2 f1 f2 s1 s2. split.
    + apply parseRssOrAtom_hashes_fixed.
    + apply parseJsonFeed_hashes_fixed.
  - apply generateContentHash_ofString.
  - intros u1 t1 c1 u2 t2 c2 Wu1 Wt1 Wc1 Wu2 Wt2 Wc2 Hd. split.
    + intros E. apply utf8_wide_inj in E.
      * revert E. apply hashInput_wide_differs. exact Hd.
      * apply isWellFormed_hashInput; assumption.
      * apply isWellFormed_hashInput; assumption.
    + rewrite generateContentHash_wide_eq. reflexivity.
  - intros u c x y Hx Hy. unfold UTF16.generateContentHash.
    rewrite (lone_surrogate_title_bytes u c x Hx), (lone_surrogate_title_bytes u c y Hy).
    reflexivity.
Qed.

End FeedHashProperties.

Lemma feed_hash_deterministic_and_input_sensitive_witness :
  (@parseRssOrAtom demoRuntime "FEED" emptyState = (Ret demoParsedFeed, emptyState) /\
   exists f2 s2,
     @parseRssOrAtom demoRuntime "FEED" storeWithFeedItems = (Ret f2, s2) /\
     map hash (items demoParsedFeed) = map hash (items f2)) /\
  ((UTF16.isWellFormed wideUrl = true /\ UTF16.isWellFormed emojiTitle = true /\
    UTF16.isWellFormed accentTitle = true /\ UTF16.isWellFormed wideText = true /\
    UTF16.differInExactlyOne wideUrl emojiTitle wideText wideUrl accentTitle wideText) /\
   UTF16.utf8 (UTF16.hashInput wideUrl emojiTitle wideText) <>
   UTF16.utf8 (UTF16.hashInput wideUrl accentTitle wideText) /\
   (UTF16.generateContentHash wideUrl emojiTitle wideText <>
    UTF16.generateContentHash wideUrl accentTitle wideText <->
    UTF16.digestPrefix (UTF16.utf8 (UTF16.hashInput wideUrl emojiTitle wideText)) <>
    UTF16.digestPrefix (UTF16.utf8 (UTF16.hashInput wideUrl accentTitle wideText)))) /\
  ((UTF16.isHigh 55296 || UTF16.isLow 55296 = true /\
    UTF16.isHigh 56320 || UTF16.isLow 56320 = true) /\
   UTF16.generateContentHash wideUrl [55296%Z] wideText =
   UTF16.generateContentHash wideUrl [56320%Z] wideText).
Proof.
  pose proof (@feed_hash_deterministic_and_input_sensitive demoRuntime)
    as (Hfixed & _ & Hsensitive & Hsurrogate).
  split; [ | split].
  - assert (H1 : @parseRssOrAtom demoRuntime "FEED" emptyState =
                 (Ret demoParsedFeed, emptyState)) by (vm_compute; reflexivity).
    split; [exact H1 | ].
    destruct (@parseRssOrAtom demoRuntime "FEED" storeWithFeedItems) as [[f2 | e] s2] eqn:H2;
      [ | vm_compute in H2; discriminate H2].
    exists f2, s2. split; [reflexivity | ].
    exact (proj1 (Hfixed "FEED" emptyState storeWithFeedItems demoParsedFeed f2
                    emptyState s2) H1 H2).
  - assert (Hd : UTF16.differInExactlyOne wideUrl emojiTitle wideText
                   wideUrl accentTitle wideText).
    { right. left. split; [reflexivity | ]. split; [ | reflexivity].
      intros H. discriminate H. }
    split; [repeat split; try reflexivity; exact Hd | ].
    apply Hsensitive; try reflexivity. exact Hd.
  - split; [split; reflexivity | ].
    apply Hsurrogate; reflexivity.
Defined.

(** The two sample titles above do get different hashes, the ones Node
    computes for them. *)
Example demo_wide_hashes :
  UTF16.generateContentHash wideUrl emojiTitle wideText = "255b791b7a459c01" /\
  UTF16.generateContentHash wideUrl accentTitle wideText = "5ebd45410f919443".
Proof. split; vm_compute; reflexivity. Qed.

(** ** The mailbox ledger *)

Section MailboxProperties.
Context {RT : Runtime}.

Ltac run_monad :=
  cbv [bind ret gets modify nowISO nanoid throw tryCatch].

Ltac simpl_state :=
  cbn [rssSources creators contentItems gmailProcessedMessages userSubscriptions
       gmailConnections nanoidCalls clockReads fetchCalls
       set_rssSources set_creators set_contentItems set_gmailProcessedMessages
       set_userSubscriptions set_gmailConnections tick_nanoid tick_clock tick_fetch
       fst snd].

(** One iteration of the ingestion loop: it always returns, it counts the
    message once, and it either leaves the store alone or appends exactly
    one ledger row for the message. *)
Lemma ingestMessage_spec (userId conn : string) (t : Tally) (m : GmailMessage) (st : State) :
  exists t' st',
    ingestMessage userId conn t m st = (Ret t', st') /\
    processed t' + skipped t' = S (processed t + skipped t) /\
    ( ( (existsb (fun p => String.eqb (pm_messageId p) (msg_id m))
                 (gmailProcessedMessages st) = true \/
         parseSubstackPost m = None) /\
        st' = st /\ processed t' = processed t )
      \/
      ( existsb (fun p => String.eqb (pm_messageId p) (msg_id m))
                (gmailProcessedMessages st) = false /\
        exists post row,
          parseSubstackPost m = Some post /\
          gmailProcessedMessages st' = (gmailProcessedMessages st ++ [row])%list /\
          pm_messageId row = msg_id m /\
          pm_contentHash row = generateMailContentHash post /\
          ( ( (exists old, find (fun p => String.eqb (pm_contentHash p)
                                            (generateMailContentHash post))
                                (gmailProcessedMessages st) = Some old) /\
              contentItems st' = contentItems st /\
              creators st' = creators st /\
              userSubscriptions st' = userSubscriptions st /\
              processed t' = processed t )
            \/
            ( find (fun p => String.eqb (pm_contentHash p)
                                        (generateMailContentHash post))
                   (gmailProcessedMessages st) = None /\
              processed t' = S (processed t) /\
              exists item,
                contentItems st' = (contentItems st ++ [item])%list /\
                ci_sourceType item = "substack" /\
                ci_contentHash item = Some (generateMailContentHash post) ) ) ) ).
Proof.
  unfold ingestMessage, isMessageProcessed. run_monad.
  destruct (existsb _ (gmailProcessedMessages st)) eqn:Eseen.
  { eexists _, _. split; [reflexivity | ]. cbn [processed skipped].
    split; [lia | ]. left. auto. }
  destruct (parseSubstackPost m) as [post | ] eqn:Eparse.
  2:{ eexists _, _. split; [reflexivity | ]. cbn [processed skipped].
      split; [lia | ]. left. auto. }
  destruct (find _ (gmailProcessedMessages st)) as [old | ] eqn:Ehash.
  - unfold recordProcessed. run_monad. simpl_state.
    eexists _, _. split; [reflexivity | ]. cbn [processed skipped].
    split; [lia | ]. right. split; [reflexivity | ].
    eexists post, _. simpl_state. split; [reflexivity | ].
    split; [reflexivity | ]. split; [reflexivity | ]. split; [reflexivity | ].
    left. split; [exists old; exact Ehash | ]. repeat split.
  - unfold upsertSubstackCreator, createContentItem, recordProcessed, ensureSubscription.
    run_monad. simpl_state.
    destruct (find _ (creators st)) as [c | ] eqn:Ecreator; run_monad; simpl_state;
      destruct (find _ (userSubscriptions st)) as [s | ] eqn:Esub; run_monad; simpl_state;
      (eexists _, _; split; [reflexivity | ]; cbn [processed skipped];
       split; [lia | ]; right; split; [reflexivity | ];
       eexists post, _; simpl_state; split; [reflexivity | ];
       split; [reflexivity | ]; split; [reflexivity | ]; split; [reflexivity | ];
       right; split; [exact Ehash | ]; split; [reflexivity | ];
       eexists; split; [reflexivity | ]; split; reflexivity).
Qed.

Lemma seenIn_In (ledger : list ProcessedMessage) (id : string) :
  seenIn ledger id = true <-> In id (map pm_messageId ledger).
Proof.
  unfold seenIn. rewrite existsb_exists, in_map_iff. split.
  - intros [p [Hp E]]. apply String.eqb_eq in E. now exists p.
  - intros [p [E Hp]]. exists p. split; [exact Hp | now apply String.eqb_eq].
Qed.

Lemma seenIn_false (ledger : list ProcessedMessage) (id : string) :
  seenIn ledger id = false <-> ~ In id (map pm_messageId ledger).
Proof.
  rewrite <- seenIn_In. destruct (seenIn ledger id); split; intros H;
    try reflexivity; try discriminate; try (intros H'; discriminate H').
  exfalso. now apply H.
Qed.

Lemma NoDup_snoc {A : Type} (l : list A) (x : A) :
  NoDup l -> ~ In x l -> NoDup (l ++ [x])%list.
Proof.
  induction l as [|y l IH]; intros Hnd Hx; cbn.
  - constructor; [intros [] | constructor].
  - inversion Hnd as [|? ? Hy Hl]; subst. constructor.
    + intros Hin. apply in_app_or in Hin as [Hin | [<- | []]];
        [now apply Hy | apply Hx; now left].
    + apply IH; [exact Hl | intros Hin; apply Hx; now right].
Qed.

(** The loop always completes, and counts every message once. *)
Lemma ingest_loop_returns (userId conn : string) (ms : list GmailMessage) :
  forall t st, exists t' st',
    foldM (ingestMessage userId conn) ms t st = (Ret t', st') /\
    processed t' + skipped t' = processed t + skipped t + List.length ms.
Proof.
  induction ms as [|m ms IH]; intros t st; cbn [foldM].
  - exists t, st. split; [reflexivity | cbn; lia].
  - destruct (ingestMessage_spec userId conn t m st) as [t1 [st1 [E [Hsum _]]]].
    destruct (IH t1 st1) as [t2 [st2 [E2 Hsum2]]].
    exists t2, st2. unfold bind at 1. rewrite E. split; [exact E2 | ].
    cbn [List.length]. lia.
Qed.

(** What the loop does to the ledger: it appends rows, each for an
    extractable message of the batch and carrying that post's mailbox
    hash; afterwards every extractable message of the batch has a row;
    message identities stay unique. *)
Lemma ingest_loop_ledger (userId conn : string) (ms : list GmailMessage) :
  forall t st t' st',
    foldM (ingestMessage userId conn) ms t st = (Ret t', st') ->
    exists rows,
      gmailProcessedMessages st' = (gmailProcessedMessages st ++ rows)%list /\
      (forall r, In r rows ->
         exists m post, In m ms /\ parseSubstackPost m = Some post /\
                        pm_messageId r = msg_id m /\
                        pm_contentHash r = generateMailContentHash post) /\
      (forall m, In m ms -> parseSubstackPost m <> None ->
         In (msg_id m) (map pm_messageId (gmailProcessedMessages st'))) /\
      (NoDup (map pm_messageId (gmailProcessedMessages st)) ->
       NoDup (map pm_messageId (gmailProcessedMessages st'))).
Proof.
  induction ms as [|m ms IH]; intros t st t' st' H; cbn [foldM] in H.
  - injection H as _ <-. exists []. rewrite app_nil_r.
    split; [reflexivity | ]. split; [intros r [] | ]. split; [intros m [] | auto].
  - destruct (ingestMessage_spec userId conn t m st) as [t1 [st1 [E [_ Hcase]]]].
    unfold bind at 1 in H. rewrite E in H.
    destruct (IH _ _ _ _ H) as [rows [Hl [Hrows [Hcov Hnd]]]].
    destruct Hcase as [[Hskip [-> _]] | [Hnew [post [row [Hp [Hl1 [Hid [Hh _]]]]]]]].
    + exists rows. split; [exact Hl | ].
      split.
      { intros r Hr. destruct (Hrows r Hr) as [m' [post' [Hin Hrest]]].
        exists m', post'. split; [now right | exact Hrest]. }
      split; [ | exact Hnd].
      intros m' [<- | Hin] Hext; [ | now apply Hcov].
      destruct Hskip as [Hseen | Hnone]; [ | contradiction].
      apply seenIn_In in Hseen. rewrite Hl, map_app. apply in_or_app. now left.
    + exists (row :: rows).
      assert (Hl' : gmailProcessedMessages st' =
                    (gmailProcessedMessages st ++ row :: rows)%list).
      { rewrite Hl, Hl1, <- app_assoc. reflexivity. }
      split; [exact Hl' | ].
      split.
      { intros r [<- | Hr].
        - exists m, post. split; [now left | auto].
        - destruct (Hrows r Hr) as [m' [post' [Hin Hrest]]].
          exists m', post'. split; [now right | exact Hrest]. }
      split.
      { intros m' [<- | Hin] Hext.
        - rewrite Hl', map_app. apply in_or_app. right. cbn [map]. left. exact Hid.
        - now apply Hcov. }
      intros Hnd0. apply Hnd. rewrite Hl1, map_app. cbn [map].
      apply NoDup_snoc; [exact Hnd0 | ].
      rewrite Hid. now apply seenIn_false.
Qed.

(** Messages that are in the ledger or not extractable are skipped, and
    nothing is written. *)
Lemma ingest_loop_idle (userId conn : string) (ms : list GmailMessage) (st : State) :
  (forall m, In m ms ->
     seenIn (gmailProcessedMessages st) (msg_id m) = true \/ parseSubstackPost m = None) ->
  forall t,
    foldM (ingestMessage userId conn) ms t st =
    (Ret (mkTally (processed t) (skipped t + List.length ms)), st).
Proof.
  induction ms as [|m ms IH]; intros Hall t; cbn [foldM].
  - unfold ret. cbn [List.length]. rewrite Nat.add_0_r. now destruct t.
  - destruct (ingestMessage_spec userId conn t m st) as [t1 [st1 [E [Hsum Hcase]]]].
    unfold bind at 1. rewrite E.
    destruct Hcase as [[_ [-> Hproc]] | [Hnew [post [row [Hp _]]]]].
    + rewrite IH by (intros m' Hin; apply Hall; now right).
      rewrite Hproc. cbn [List.length].
      replace (skipped t1 + List.length ms) with (skipped t + S (List.length ms)) by lia.
      reflexivity.
    + exfalso. destruct (Hall m (or_introl eq_refl)) as [Hseen | Hnone].
      * unfold seenIn in Hseen. rewrite Hseen in Hnew. discriminate Hnew.
      * rewrite Hnone in Hp. discriminate Hp.
Qed.

Lemma ingestSubstackPosts_unfold (userId conn : string) (ms : list GmailMessage)
    (st : State) (t : Tally) (st1 : State) :
  foldM (ingestMessage userId conn) ms (mkTally 0 0) st = (Ret t, st1) ->
  ingestSubstackPosts userId conn ms st =
  (Ret t, set_gmailConnections
            (updateWhere (fun c => String.eqb (gc_gmailConnectionId c) conn)
                         (withLastSynced (nowAt (clockReads st1))))
            (tick_clock st1)).
Proof.
  intros H. unfold ingestSubstackPosts, updateConnectionSync.
  unfold bind at 1. rewrite H. reflexivity.
Qed.

Lemma ledger_rows_count (ledger : list ProcessedMessage) (id : string) :
  NoDup (map pm_messageId ledger) ->
  List.length (filter (fun p => String.eqb (pm_messageId p) id) ledger) =
  if seenIn ledger id then 1 else 0.
Proof.
  induction ledger as [|p l IH]; intros Hnd; [reflexivity | ].
  cbn [map] in Hnd. inversion Hnd as [|? ? Hp Hl]; subst.
  cbn [filter seenIn existsb]. fold (seenIn l id).
  destruct (String.eqb (pm_messageId p) id) eqn:E; cbn [orb List.length].
  - apply String.eqb_eq in E. subst id.
    rewrite IH by exact Hl.
    apply seenIn_false in Hp. now rewrite Hp.
  - now apply IH.
Qed.

(** The count of new ledger rows is the count of extractable messages,
    for a batch of distinct messages none of which is in the ledger. *)
Lemma ingest_loop_count (userId conn : string) (ms : list GmailMessage) :
  forall t st t' st',
    NoDup (map msg_id ms) ->
    (forall m, In m ms -> ~ In (msg_id m) (map pm_messageId (gmailProcessedMessages st))) ->
    foldM (ingestMessage userId conn) ms t st = (Ret t', st') ->
    List.length (gmailProcessedMessages st') =
    List.length (gmailProcessedMessages st) + List.length (filter extractable ms).
Proof.
  induction ms as [|m ms IH]; intros t st t' st' Hnd Hfresh H; cbn [foldM] in H.
  - injection H as _ <-. cbn. lia.
  - destruct (ingestMessage_spec userId conn t m st) as [t1 [st1 [E [_ Hcase]]]].
    unfold bind at 1 in H. rewrite E in H.
    cbn [map] in Hnd. inversion Hnd as [|? ? Hm Hms]; subst.
    cbn [filter]. unfold extractable at 1.
    destruct Hcase as [[Hskip [-> _]] | [Hnew [post [row [Hp [Hl1 [Hid _]]]]]]].
    + destruct Hskip as [Hseen | Hnone].
      * exfalso. apply (Hfresh m (or_introl eq_refl)). now apply seenIn_In.
      * rewrite Hnone. eapply IH; [exact Hms | | exact H].
        intros m' Hin. apply Hfresh. now right.
    + rewrite Hp. cbn [List.length].
      assert (Hfresh1 : forall m', In m' ms ->
                ~ In (msg_id m') (map pm_messageId (gmailProcessedMessages st1))).
      { intros m' Hin. rewrite Hl1, map_app. cbn [map]. intros Hin'.
        apply in_app_or in Hin' as [Hin' | [Heq | []]].
        - apply (Hfresh m'); [now right | exact Hin'].
        - apply Hm. rewrite <- Hid, Heq. now apply in_map. }
      rewrite (IH t1 st1 t' st' Hms Hfresh1 H).
      rewrite Hl1, length_app. cbn [List.length]. lia.
Qed.

(** C10: each message of a run increments exactly one of the two
    counters, so the returned tally satisfies
    processed + skipped = number of fetched messages. *)
Theorem ingest_tally_counts_every_message
    (userId conn : string) (messages : list GmailMessage) (st : State) :
  exists t st',
    ingestSubstackPosts userId conn messages st = (Ret t, st') /\
    processed t + skipped t = List.length messages.
Proof.
  destruct (ingest_loop_returns userId conn messages (mkTally 0 0) st)
    as [t [st1 [E Hsum]]].
  eexists t, _. split; [apply ingestSubstackPosts_unfold; exact E | exact Hsum].
Qed.

(** C3, as amended: after a run, every message of the batch for which
    extraction yields a post - new or a duplicate by content hash - has
    exactly one ledger row; no message has more than one; and a row
    exists only for identities that had one before or that belong to an
    extractable message of the batch.  (Message identities are unique in
    the ledger before the run: message_id is its primary key.) *)
Theorem ledger_row_for_every_extractable_message
    (userId conn : string) (messages : list GmailMessage) (st : State) :
  NoDup (map pm_messageId (gmailProcessedMessages st)) ->
  let st' := snd (ingestSubstackPosts userId conn messages st) in
  (forall m, In m messages -> parseSubstackPost m <> None ->
     List.length (ledgerRowsFor (msg_id m) st') = 1) /\
  (forall id, List.length (ledgerRowsFor id st') <= 1) /\
  (forall id, ledgerRowsFor id st' <> [] ->
     ledgerRowsFor id st <> [] \/
     exists m, In m messages /\ msg_id m = id /\ parseSubstackPost m <> None).
Proof.
  intros Hnd.
  destruct (ingest_loop_returns userId conn messages (mkTally 0 0) st)
    as [t1 [st1 [E _]]].
  rewrite (ingestSubstackPosts_unfold _ _ _ _ _ _ E). cbv zeta.
  destruct (ingest_loop_ledger _ _ _ _ _ _ _ E) as [rows [Hl [Hrows [Hcov Hnd']]]].
  specialize (Hnd' Hnd).
  unfold ledgerRowsFor. simpl_state.
  split; [ | split].
  - intros m Hin Hext. rewrite ledger_rows_count by exact Hnd'.
    specialize (Hcov m Hin Hext). apply seenIn_In in Hcov. now rewrite Hcov.
  - intros id. rewrite ledger_rows_count by exact Hnd'.
    destruct (seenIn _ id); lia.
  - intros id Hrow.
    assert (Hseen : seenIn (gmailProcessedMessages st1) id = true).
    { destruct (seenIn (gmailProcessedMessages st1) id) eqn:Es; [reflexivity | ].
      exfalso. apply Hrow.
      apply length_zero_iff_nil. rewrite ledger_rows_count by exact Hnd'.
      now rewrite Es. }
    apply seenIn_In in Hseen. rewrite Hl, map_app in Hseen.
    apply in_app_or in Hseen as [Hold | Hnew].
    + left. intros Hnil. apply in_map_iff in Hold as [p [Hp Hin]].
      assert (Hf : In p (filter (fun q => String.eqb (pm_messageId q) id)
                                (gmailProcessedMessages st))).
      { apply filter_In. split; [exact Hin | now apply String.eqb_eq]. }
      rewrite Hnil in Hf. exact Hf.
    + right. apply in_map_iff in Hnew as [r [Hr Hin]].
      destruct (Hrows r Hin) as [m [post [Hm [Hp [Hid _]]]]].
      exists m. split; [exact Hm | split; [congruence | congruence]].
Qed.

End MailboxProperties.

(** C3, counterexample: a message without an HTML body is not extractable,
    and the run leaves no ledger row for it. *)
Lemma unextractable_message_leaves_no_row :
  @parseSubstackPost demoRuntime (plainTextMessage "m2") = None /\
  ledgerRowsFor "m2"
    (snd (@ingestSubstackPosts demoRuntime "user-1" "conn-1"
            [plainTextMessage "m2"] emptyState)) = [].
Proof. split; vm_compute; reflexivity. Qed.

Lemma ledger_row_for_every_extractable_message_witness :
  NoDup (map pm_messageId (gmailProcessedMessages emptyState)) /\
  (In (demoMessage "m3" "https://jane.substack.com/p/hello") demoInbox /\
   @parseSubstackPost demoRuntime (demoMessage "m3" "https://jane.substack.com/p/hello")
     <> None /\
   List.length
     (ledgerRowsFor "m3"
        (snd (@ingestSubstackPosts demoRuntime "user-1" "conn-1" demoInbox emptyState)))
   = 1) /\
  (ledgerRowsFor "m1"
     (snd (@ingestSubstackPosts demoRuntime "user-1" "conn-1" demoInbox emptyState)) <> [] /\
   (ledgerRowsFor "m1" emptyState <> [] \/
    exists m, In m demoInbox /\ msg_id m = "m1" /\
              @parseSubstackPost demoRuntime m <> None)).
Proof.
  assert (Hnd : NoDup (map pm_messageId (gmailProcessedMessages emptyState)))
    by constructor.
  assert (Hin : In (demoMessage "m3" "https://jane.substack.com/p/hello") demoInbox)
    by (right; right; left; reflexivity).
  assert (Hext : @parseSubstackPost demoRuntime
                   (demoMessage "m3" "https://jane.substack.com/p/hello") <> None)
    by (vm_compute; discriminate).
  assert (Hrow : ledgerRowsFor "m1"
                   (snd (@ingestSubstackPosts demoRuntime "user-1" "conn-1"
                           demoInbox emptyState)) <> [])
    by (vm_compute; discriminate).
  split; [exact Hnd | ]. split.
  - split; [exact Hin | ]. split; [exact Hext | ].
    exact (proj1 (@ledger_row_for_every_extractable_message demoRuntime
                    "user-1" "conn-1" demoInbox emptyState Hnd) _ Hin Hext).
  - split; [exact Hrow | ].
    exact (proj2 (proj2 (@ledger_row_for_every_extractable_message demoRuntime
                           "user-1" "conn-1" demoInbox emptyState Hnd)) "m1" Hrow).
Defined.

(** ** Feed posts: upsertPosts *)

Section UpsertProperties.
Context {RT : Runtime}.

Ltac run_monad :=
  cbv [bind ret gets modify nowISO nanoid throw tryCatch].

Ltac simpl_state :=
  cbn [rssSources creators contentItems gmailProcessedMessages userSubscriptions
       gmailConnections nanoidCalls clockReads fetchCalls
       set_rssSources set_creators set_contentItems set_gmailProcessedMessages
       set_userSubscriptions set_gmailConnections tick_nanoid tick_clock tick_fetch
       fst snd].

(** A row found by the lookup has the hash that was looked up: the
    comparison that guards the update can only come out equal. *)
Lemma findRssByHash_hit (h : string) (rows : list ContentItem) (e : ContentItem) :
  findRssByHash h rows = Some e ->
  optEqb (ci_contentHash e) (Some h) = true /\ ci_sourceType e = "rss".
Proof.
  unfold findRssByHash. intros H. apply find_some in H as [_ H].
  apply andb_true_iff in H as [Hs Hh]. split; [ | now apply String.eqb_eq].
  unfold sqlEq in Hh. destruct (ci_contentHash e); [exact Hh | discriminate Hh].
Qed.

Lemma findRssByHash_app (h : string) (rows more : list ContentItem) :
  findRssByHash h rows <> None -> findRssByHash h (rows ++ more)%list <> None.
Proof.
  unfold findRssByHash. induction rows as [|r rows IH]; cbn [find app]; intros H.
  - now contradiction H.
  - destruct (String.eqb (ci_sourceType r) "rss" && sqlEq (ci_contentHash r) h);
      [discriminate | now apply IH].
Qed.

Lemma findRssByHash_new (h : string) (rows : list ContentItem) (row : ContentItem) :
  ci_sourceType row = "rss" -> ci_contentHash row = Some h ->
  findRssByHash h (rows ++ [row])%list <> None.
Proof.
  intros Hs Hh. unfold findRssByHash.
  induction rows as [|r rows IH]; cbn [find app].
  - rewrite Hs, Hh. cbn. rewrite String.eqb_refl. discriminate.
  - destruct (String.eqb (ci_sourceType r) "rss" && sqlEq (ci_contentHash r) h);
      [discriminate | exact IH].
Qed.

(** One iteration: a post whose hash is stored changes nothing; any other
    post is appended as a new row. *)
Lemma upsertPost_spec (creatorId now : string) (n : nat) (post : ParsedFeedItem) (st : State) :
  (findRssByHash (hash post) (contentItems st) <> None /\
   upsertPost creatorId now n post st = (Ret n, st)) \/
  (findRssByHash (hash post) (contentItems st) = None /\
   upsertPost creatorId now n post st =
   (Ret (S n),
    set_contentItems
      (fun rows => (rows ++ [newContentItem (nanoidAt (nanoidCalls st)) creatorId now post])%list)
      (tick_nanoid st))).
Proof.
  unfold upsertPost. run_monad.
  destruct (findRssByHash (hash post) (contentItems st)) as [e | ] eqn:E.
  - left. split; [discriminate | ].
    destruct (findRssByHash_hit _ _ _ E) as [Hh _]. rewrite Hh. reflexivity.
  - right. split; reflexivity.
Qed.

(** The loop: rows are only appended, one per counted post; afterwards the
    hash of every post of the batch is stored. *)
Lemma upsert_loop_spec (creatorId now : string) (posts : list ParsedFeedItem) :
  forall n st, exists added st',
    foldM (upsertPost creatorId now) posts n st = (Ret (n + List.length added), st') /\
    contentItems st' = (contentItems st ++ added)%list /\
    (forall p, In p posts -> findRssByHash (hash p) (contentItems st') <> None) /\
    Forall (fun row => exists p id, In p posts /\ row = newContentItem id creatorId now p) added /\
    rssSources st' = rssSources st /\ creators st' = creators st /\
    gmailProcessedMessages st' = gmailProcessedMessages st /\
    clockReads st' = clockReads st /\ fetchCalls st' = fetchCalls st.
Proof.
  induction posts as [|post posts IH]; intros n st; cbn [foldM].
  - exists [], st. rewrite app_nil_r, Nat.add_0_r.
    split; [reflexivity | ]. split; [reflexivity | ]. split; [intros p [] | ].
    split; [constructor | ]. repeat split; reflexivity.
  - unfold bind at 1.
    destruct (upsertPost_spec creatorId now n post st) as [[Hhit E] | [Hmiss E]]; rewrite E.
    + destruct (IH n st) as [added [st' [El [Hc [Hall [Hadd Hrest]]]]]].
      exists added, st'. split; [exact El | ]. split; [exact Hc | ].
      split; [ | split; [ | exact Hrest]].
      * intros p [<- | Hin]; [ | now apply Hall].
        rewrite Hc. now apply findRssByHash_app.
      * eapply Forall_impl; [ | exact Hadd].
        intros row [p [id [Hin Hrow]]]. exists p, id. split; [now right | exact Hrow].
    + match goal with |- context [foldM _ _ _ ?s] => destruct (IH (S n) s)
        as [added [st' [El [Hc [Hall [Hadd Hrest]]]]]] end.
      exists (newContentItem (nanoidAt (nanoidCalls st)) creatorId now post :: added), st'.
      cbn [List.length]. rewrite Nat.add_succ_r.
      split; [exact El | ].
      revert Hc Hrest. simpl_state. intros Hc Hrest.
      split; [rewrite Hc, <- app_assoc; reflexivity | ].
      split; [ | split; [ | exact Hrest]].
      * intros p [<- | Hin]; [ | now apply Hall].
        rewrite Hc. apply findRssByHash_app.
        apply findRssByHash_new; reflexivity.
      * constructor.
        -- exists post, (nanoidAt (nanoidCalls st)). split; [now left | reflexivity].
        -- eapply Forall_impl; [ | exact Hadd].
           intros row [p [id [Hin Hrow]]]. exists p, id. split; [now right | exact Hrow].
Qed.

Lemma upsert_loop_idle (creatorId now : string) (posts : list ParsedFeedItem) (st : State) :
  (forall p, In p posts -> findRssByHash (hash p) (contentItems st) <> None) ->
  forall n, foldM (upsertPost creatorId now) posts n st = (Ret n, st).
Proof.
  induction posts as [|post posts IH]; intros Hall n; cbn [foldM]; [reflexivity | ].
  unfold bind at 1.
  destruct (upsertPost_spec creatorId now n post st) as [[_ E] | [Hmiss _]].
  - rewrite E. apply IH. intros p Hin. apply Hall. now right.
  - exfalso. now apply (Hall post (or_introl eq_refl)).
Qed.

End UpsertProperties.

Section IdempotenceProperties.
Context {RT : Runtime}.

Lemma upsertPosts_unfold (creatorId : string) (posts : list ParsedFeedItem) (st : State) :
  upsertPosts creatorId posts st =
  foldM (upsertPost creatorId (nowAt (clockReads st))) posts 0 (tick_clock st).
Proof. reflexivity. Qed.

Lemma upsertPosts_twice (creatorId : string) (posts : list ParsedFeedItem) (st : State) :
  let r1 := upsertPosts creatorId posts st in
  let r2 := upsertPosts creatorId posts (snd r1) in
  fst r2 = Ret 0 /\ contentItems (snd r2) = contentItems (snd r1).
Proof.
  cbv zeta. rewrite (upsertPosts_unfold creatorId posts st).
  destruct (upsert_loop_spec creatorId (nowAt (clockReads st)) posts 0 (tick_clock st))
    as [added [st1 [E [_ [Hall _]]]]].
  rewrite E. cbn [snd]. rewrite upsertPosts_unfold.
  rewrite upsert_loop_idle; [split; reflexivity | exact Hall].
Qed.

Lemma ingest_twice (userId conn : string) (messages : list GmailMessage) (st : State) :
  let r1 := ingestSubstackPosts userId conn messages st in
  let r2 := ingestSubstackPosts userId conn messages (snd r1) in
  fst r2 = Ret (mkTally 0 (List.length messages)) /\
  contentItems (snd r2) = contentItems (snd r1) /\
  creators (snd r2) = creators (snd r1) /\
  gmailProcessedMessages (snd r2) = gmailProcessedMessages (snd r1) /\
  userSubscriptions (snd r2) = userSubscriptions (snd r1).
Proof.
  cbv zeta.
  destruct (ingest_loop_returns userId conn messages (mkTally 0 0) st)
    as [t1 [st1 [E _]]].
  rewrite (ingestSubstackPosts_unfold _ _ _ _ _ _ E). cbn [snd].
  destruct (ingest_loop_ledger _ _ _ _ _ _ _ E) as [rows [_ [_ [Hcov _]]]].
  match goal with |- context [ingestSubstackPosts _ _ _ ?s] => set (s1 := s) end.
  assert (Hidle : foldM (ingestMessage userId conn) messages (mkTally 0 0) s1 =
                  (Ret (mkTally 0 (0 + List.length messages)), s1)).
  { apply (ingest_loop_idle userId conn messages s1).
    intros m Hin. destruct (parseSubstackPost m) eqn:Ep; [left | now right].
    apply seenIn_In. subst s1. cbn [gmailProcessedMessages set_gmailConnections tick_clock].
    apply Hcov; [exact Hin | ]. rewrite Ep. discriminate. }
  rewrite (ingestSubstackPosts_unfold _ _ _ _ _ _ Hidle).
  cbn [fst snd contentItems creators gmailProcessedMessages userSubscriptions
       set_gmailConnections tick_clock].
  repeat split; reflexivity.
Qed.

Lemma ingest_twice_count (userId conn : string) (messages : list GmailMessage) (st : State) :
  NoDup (map msg_id messages) ->
  gmailProcessedMessages st = [] ->
  List.length
    (gmailProcessedMessages
       (snd (ingestSubstackPosts userId conn messages
               (snd (ingestSubstackPosts userId conn messages st))))) =
  List.length (filter extractable messages).
Proof.
  intros Hnd Hempty.
  destruct (ingest_twice userId conn messages st) as [_ [_ [_ [Hl _]]]].
  cbv zeta in Hl. rewrite Hl.
  destruct (ingest_loop_returns userId conn messages (mkTally 0 0) st)
    as [t1 [st1 [E _]]].
  rewrite (ingestSubstackPosts_unfold _ _ _ _ _ _ E).
  cbn [snd gmailProcessedMessages set_gmailConnections tick_clock].
  rewrite (ingest_loop_count _ _ _ _ _ _ _ Hnd) with (2 := E).
  - rewrite Hempty. reflexivity.
  - intros m _. rewrite Hempty. intros [].
Qed.

(** C2, as amended: applying the same input twice changes nothing the
    second time.  A second [upsertPosts] with the identical parsed items
    reports 0 new posts and leaves the stored content items as the first
    run left them.  A second [ingestSubstackPosts] over the same messages
    reports 0 processed, skips every message, and leaves content items,
    creators, ledger and subscriptions unchanged.  After the two runs,
    from an empty ledger and over messages with distinct identities, the
    processed-message count is the number of extractable messages of the
    batch (the message count when every message is extractable). *)
Theorem second_run_changes_nothing :
  (forall creatorId posts st,
     let r1 := upsertPosts creatorId posts st in
     let r2 := upsertPosts creatorId posts (snd r1) in
     fst r2 = Ret 0 /\ contentItems (snd r2) = contentItems (snd r1)) /\
  (forall userId conn messages st,
     let r1 := ingestSubstackPosts userId conn messages st in
     let r2 := ingestSubstackPosts userId conn messages (snd r1) in
     fst r2 = Ret (mkTally 0 (List.length messages)) /\
     contentItems (snd r2) = contentItems (snd r1) /\
     creators (snd r2) = creators (snd r1) /\
     gmailProcessedMessages (snd r2) = gmailProcessedMessages (snd r1) /\
     userSubscriptions (snd r2) = userSubscriptions (snd r1)) /\
  (forall userId conn messages st,
     NoDup (map msg_id messages) ->
     gmailProcessedMessages st = [] ->
     List.length
       (gmailProcessedMessages
          (snd (ingestSubstackPosts userId conn messages
                  (snd (ingestSubstackPosts userId conn messages st))))) =
     List.length (filter extractable messages)).
Proof.
  split; [exact upsertPosts_twice | ].
  split; [exact ingest_twice | exact ingest_twice_count].
Qed.

Lemma filter_snoc_length {A : Type} (f : A -> bool) (l : list A) (x : A) :
  List.length (filter f (l ++ [x])%list) =
  List.length (filter f l) + (if f x then 1 else 0).
Proof.
  rewrite filter_app, length_app. cbn [filter]. destruct (f x); reflexivity.
Qed.

(** C1, what the code does: a post whose identity is stored under another
    hash, and whose own hash is not stored, is appended as a new row; the
    stored row stays as it was, and the identity then has one row more. *)
Theorem edited_post_is_inserted_as_new_row
    (creatorId : string) (post : ParsedFeedItem) (st : State) (old : ContentItem) :
  In old (contentItems st) ->
  ci_sourceType old = "rss" ->
  ci_externalId old = orDefault (guid post) (url post) ->
  findRssByHash (hash post) (contentItems st) = None ->
  let r := upsertPosts creatorId [post] st in
  fst r = Ret 1 /\
  (exists row,
     contentItems (snd r) = (contentItems st ++ [row])%list /\
     ci_externalId row = ci_externalId old /\
     ci_contentHash row = Some (hash post)) /\
  In old (contentItems (snd r)) /\
  List.length (rssItemsWithIdentity (ci_externalId old) (snd r)) =
  S (List.length (rssItemsWithIdentity (ci_externalId old) st)).
Proof.
  intros Hin Hs Hid Hmiss. cbv zeta.
  assert (E : upsertPosts creatorId [post] st =
              (Ret 1,
               set_contentItems
                 (fun rows => (rows ++ [newContentItem (nanoidAt (nanoidCalls st)) creatorId
                                          (nowAt (clockReads st)) post])%list)
                 (tick_nanoid (tick_clock st)))).
  { rewrite upsertPosts_unfold. cbn [foldM]. unfold bind at 1.
    destruct (upsertPost_spec creatorId (nowAt (clockReads st)) 0 post (tick_clock st))
      as [[Hhit _] | [_ E]].
    - exfalso. apply Hhit. exact Hmiss.
    - rewrite E. reflexivity. }
  rewrite E. cbn [fst snd].
  unfold rssItemsWithIdentity.
  cbn [contentItems set_contentItems tick_nanoid tick_clock nanoidCalls].
  split; [reflexivity | ]. split; [ | split].
  - eexists. split; [reflexivity | ]. split; [ | reflexivity].
    cbn [newContentItem ci_externalId]. now rewrite Hid.
  - apply in_or_app. now left.
  - rewrite filter_snoc_length.
    cbn [newContentItem ci_sourceType ci_externalId]. rewrite <- Hid.
    rewrite !String.eqb_refl. cbn [andb]. lia.
Qed.

End IdempotenceProperties.

(** The scenario of the specification, run: the second sync, with the
    second item edited, reports one new post and leaves three content
    items, two of them for the identity of the edited item. *)
Example second_sync_with_edited_item :
  let r := @upsertPosts demoRuntime "rss-creator" secondSyncPosts storeAfterFirstSync in
  (fst r,
   List.length (contentItems storeAfterFirstSync),
   List.length (contentItems (snd r)),
   List.length (rssItemsWithIdentity "https://example.com/2" (snd r)))
  = (Ret 1, 2, 3, 2).
Proof. vm_compute. reflexivity. Qed.

(** C2, counterexample: one message that is not extractable; after two
    runs the ledger holds no row, while the batch has one message. *)
Lemma processed_count_differs_from_message_count :
  List.length
    (gmailProcessedMessages
       (snd (@ingestSubstackPosts demoRuntime "user-1" "conn-1" [plainTextMessage "m2"]
               (snd (@ingestSubstackPosts demoRuntime "user-1" "conn-1"
                       [plainTextMessage "m2"] emptyState)))))
  <> List.length [plainTextMessage "m2"].
Proof. vm_compute. intros H. discriminate H. Qed.

Lemma second_run_changes_nothing_witness :
  NoDup (map msg_id demoInbox) /\
  gmailProcessedMessages emptyState = [] /\
  List.length
    (gmailProcessedMessages
       (snd (@ingestSubstackPosts demoRuntime "user-1" "conn-1" demoInbox
               (snd (@ingestSubstackPosts demoRuntime "user-1" "conn-1"
                       demoInbox emptyState))))) =
  List.length (filter (@extractable demoRuntime) demoInbox).
Proof.
  assert (Hnd : NoDup (map msg_id demoInbox)).
  { cbn. repeat constructor; cbn; intuition discriminate. }
  split; [exact Hnd | ]. split; [reflexivity | ].
  exact (proj2 (proj2 (@second_run_changes_nothing demoRuntime))
               "user-1" "conn-1" demoInbox emptyState Hnd eq_refl).
Defined.

Lemma edited_post_is_inserted_as_new_row_witness :
  In storedSecondItem (contentItems storeAfterFirstSync) /\
  ci_sourceType storedSecondItem = "rss" /\
  ci_externalId storedSecondItem = orDefault (guid editedSecondPost) (url editedSecondPost) /\
  findRssByHash (hash editedSecondPost) (contentItems storeAfterFirstSync) = None /\
  List.length
    (rssItemsWithIdentity "https://example.com/2"
       (snd (@upsertPosts demoRuntime "rss-creator" [editedSecondPost] storeAfterFirstSync)))
  = 2.
Proof.
  assert (Hin : In storedSecondItem (contentItems storeAfterFirstSync))
    by (right; left; reflexivity).
  assert (Hs : ci_sourceType storedSecondItem = "rss") by reflexivity.
  assert (Hid : ci_externalId storedSecondItem =
                orDefault (guid editedSecondPost) (url editedSecondPost))
    by reflexivity.
  assert (Hmiss : findRssByHash (hash editedSecondPost)
                    (contentItems storeAfterFirstSync) = None)
    by (vm_compute; reflexivity).
  split; [exact Hin | ]. split; [exact Hs | ]. split; [exact Hid | ].
  split; [exact Hmiss | ].
  exact (proj2 (proj2 (proj2
           (@edited_post_is_inserted_as_new_row demoRuntime "rss-creator"
              editedSecondPost storeAfterFirstSync storedSecondItem
              Hin Hs Hid Hmiss)))).
Defined.

(** ** The mailbox hash and the lookups that use it *)

Section MailHashProperties.
Context {RT : Runtime}.

Ltac run_monad :=
  cbv [bind ret gets modify nowISO nanoid throw tryCatch].

Ltac simpl_state :=
  cbn [rssSources creators contentItems gmailProcessedMessages userSubscriptions
       gmailConnections nanoidCalls clockReads fetchCalls
       set_rssSources set_creators set_contentItems set_gmailProcessedMessages
       set_userSubscriptions set_gmailConnections tick_nanoid tick_clock tick_fetch
       fst snd].






End MailHashProperties.


(** ** Feed discovery *)

Section DiscoveryProperties.
Context {RT : Runtime}.

Lemma classifyResponse_success (u : string) (reply : FetchReply) :
  success (classifyResponse u reply) = true ->
  chk_feedUrl (classifyResponse u reply) = Some u /\
  exists t, chk_feedType (classifyResponse u reply) = Some t.
Proof.
  unfold classifyResponse.
  destruct reply as [response | msg]; [ | discriminate].
  destruct (negb (ok response)); [discriminate | ].
  destruct (detectFeedType _ u) as [t | ].
  - intros _. split; [reflexivity | now exists t].
  - destruct (detectFeedTypeFromContent _) as [t | ]; [ | discriminate].
    intros _. split; [reflexivity | now exists t].
Qed.

Lemma usableCheck_failed (result : FeedCheckResult) :
  success result = false -> usableCheck result = None.
Proof. unfold usableCheck. now intros ->. Qed.

Lemma truthy_nonempty (s : string) : s <> "" -> truthy s = true.
Proof. destruct s; [now intros H | reflexivity]. Qed.

(** The loop over the well-known paths returns at the first path whose
    probe succeeds: [k] is its position. *)
Lemma tryWellKnownPaths_first (base : string) (timeout : nat) (paths : list string) :
  forall st,
    (forall q, In q paths -> exists v, urlResolve q base = Some v /\ v <> "") ->
    (exists i q v,
       nth_error paths i = Some q /\ urlResolve q base = Some v /\
       success (classifyResponse v (fetchAt (fetchCalls st + i) v plainRequest)) = true) ->
    exists r st' k q v,
      tryWellKnownPaths paths base timeout st = (Ret (Some r), st') /\
      discoveryMethod r = WellKnownPath /\
      nth_error paths k = Some q /\ urlResolve q base = Some v /\
      feedUrl r = v /\ siteUrl r = base /\
      success (classifyResponse v (fetchAt (fetchCalls st + k) v plainRequest)) = true /\
      (forall j q' v', j < k -> nth_error paths j = Some q' ->
         urlResolve q' base = Some v' ->
         success (classifyResponse v' (fetchAt (fetchCalls st + j) v' plainRequest))
         = false) /\
      fetchCalls st' = fetchCalls st + S k.
Proof.
  induction paths as [|p paths IH]; intros st Hres [i [q [v [Hi [Hv Hok]]]]].
  - destruct i; discriminate Hi.
  - cbn [tryWellKnownPaths].
    destruct (Hres p (or_introl eq_refl)) as [u [Hu Hne]]. rewrite Hu.
    unfold checkFeedUrl at 1, fetch, bind at 1 2, ret at 1.
    destruct (success (classifyResponse u (fetchAt (fetchCalls st) u plainRequest))) eqn:E.
    + (* the head answers *)
      destruct (classifyResponse_success _ _ E) as [Hcu [t Ht]].
      unfold usableCheck. rewrite E, Hcu, Ht, (truthy_nonempty u Hne).
      eexists _, _, 0, p, u. split; [reflexivity | ].
      cbn [discoveryMethod feedUrl siteUrl nth_error fetchCalls tick_fetch].
      rewrite Nat.add_0_r.
      repeat split; try reflexivity; try assumption; try lia.
    + (* the head fails: the answering path is in the tail *)
      rewrite (usableCheck_failed _ E).
      destruct i as [|i].
      { cbn [nth_error] in Hi. injection Hi as <-. rewrite Hu in Hv. injection Hv as <-.
        rewrite Nat.add_0_r in Hok. rewrite Hok in E. discriminate E. }
      destruct (IH (tick_fetch st)) as [r [st' [k [q0 [v0 Hr]]]]].
      * intros q' Hq'. apply Hres. now right.
      * exists i, q, v. cbn [nth_error] in Hi. split; [exact Hi | ]. split; [exact Hv | ].
        cbn [fetchCalls tick_fetch]. rewrite Nat.add_succ_comm. exact Hok.
      * destruct Hr as [Etry [Hm [Hk [Hv0 [Hf [Hs [Hok0 [Hbefore Hc]]]]]]]].
        cbn [fetchCalls tick_fetch] in Hok0, Hbefore, Hc.
        exists r, st', (S k), q0, v0. split; [exact Etry | ]. split; [exact Hm | ].
        split; [exact Hk | ]. split; [exact Hv0 | ]. split; [exact Hf | ].
        split; [exact Hs | ]. split; [now rewrite <- Nat.add_succ_comm | ].
        split; [ | lia].
        intros [|j] q' v' Hj Hq' Hv'.
        -- cbn [nth_error] in Hq'. injection Hq' as <-. rewrite Hu in Hv'.
           injection Hv' as <-. now rewrite Nat.add_0_r.
        -- rewrite <- Nat.add_succ_comm. apply (Hbefore j q' v'); [lia | exact Hq' | exact Hv'].
Qed.

(** C8: for a site whose URL is a valid base (every well-known path
    resolves against it), when at least one probe of the well-known paths,
    made in the fixed order, answers with a classifiable success response,
    [discoverFeed] returns the method well-known-path for the first such
    path - never html-link-tag, whatever the HTML of the site advertises:
    that probe is the last request made, and the HTML of the site is not
    even fetched. *)
Theorem discovery_prefers_well_known_path (site : string) (timeout : nat) (st : State) :
  (forall q, In q WELL_KNOWN_PATHS ->
     exists v, urlResolve q (normalizeSiteUrl site) = Some v /\ v <> "") ->
  (exists i q v,
     nth_error WELL_KNOWN_PATHS i = Some q /\
     urlResolve q (normalizeSiteUrl site) = Some v /\
     success (classifyResponse v (fetchAt (fetchCalls st + i) v plainRequest)) = true) ->
  exists r st' k q v,
    discoverFeed site timeout st = (Ret r, st') /\
    discoveryMethod r = WellKnownPath /\
    discoveryMethod r <> HtmlLinkTag /\
    nth_error WELL_KNOWN_PATHS k = Some q /\
    urlResolve q (normalizeSiteUrl site) = Some v /\
    feedUrl r = v /\
    siteUrl r = normalizeSiteUrl site /\
    success (classifyResponse v (fetchAt (fetchCalls st + k) v plainRequest)) = true /\
    (forall j q' v', j < k -> nth_error WELL_KNOWN_PATHS j = Some q' ->
       urlResolve q' (normalizeSiteUrl site) = Some v' ->
       success (classifyResponse v' (fetchAt (fetchCalls st + j) v' plainRequest))
       = false) /\
    fetchCalls st' = fetchCalls st + S k.
Proof.
  intros Hres Hsome.
  destruct (tryWellKnownPaths_first (normalizeSiteUrl site) timeout WELL_KNOWN_PATHS st
              Hres Hsome)
    as [r [st' [k [q [v [E [Hm [Hk [Hv [Hf [Hs [Hok [Hbefore Hc]]]]]]]]]]]]].
  exists r, st', k, q, v. unfold discoverFeed. unfold bind at 1. rewrite E.
  split; [reflexivity | ]. split; [exact Hm | ].
  split; [rewrite Hm; discriminate | ].
  repeat (split; [assumption | ]). exact Hc.
Qed.

End DiscoveryProperties.

(** The HTML step is reached, and reports html-link-tag, when no
    well-known path answers. *)
Example discovery_falls_back_to_html :
  fst (@discoverFeed demoRuntime "blog.example.org" 1000 emptyState) =
  Ret (mkFeedDiscoveryResult "https://blog.example.org/alt.xml" Rss HtmlLinkTag
         (Some "") (Some "") "https://blog.example.org").
Proof. vm_compute. reflexivity. Qed.

Lemma discovery_prefers_well_known_path_witness :
  (forall q, In q WELL_KNOWN_PATHS ->
     exists v, @urlResolve demoRuntime q (normalizeSiteUrl "example.com/") = Some v /\
               v <> "") /\
  @cheerioAlternateLinks demoRuntime "HOME" <> [] /\
  exists r st' k q v,
    @discoverFeed demoRuntime "example.com/" 1000 emptyState = (Ret r, st') /\
    discoveryMethod r = WellKnownPath /\
    discoveryMethod r <> HtmlLinkTag /\
    nth_error WELL_KNOWN_PATHS k = Some q /\
    @urlResolve demoRuntime q (normalizeSiteUrl "example.com/") = Some v /\
    feedUrl r = v /\
    siteUrl r = normalizeSiteUrl "example.com/" /\
    success (@classifyResponse demoRuntime v (@fetchAt demoRuntime (fetchCalls emptyState + k) v
                                          plainRequest)) = true /\
    (forall j q' v', j < k -> nth_error WELL_KNOWN_PATHS j = Some q' ->
       @urlResolve demoRuntime q' (normalizeSiteUrl "example.com/") = Some v' ->
       success (@classifyResponse demoRuntime v' (@fetchAt demoRuntime (fetchCalls emptyState + j) v'
                                              plainRequest)) = false) /\
    fetchCalls st' = fetchCalls emptyState + S k.
Proof.
  assert (Hres : forall q, In q WELL_KNOWN_PATHS ->
            exists v, @urlResolve demoRuntime q (normalizeSiteUrl "example.com/") = Some v /\
                      v <> "").
  { intros q Hq. cbn in Hq.
    repeat (destruct Hq as [<- | Hq]; [eexists; split; [vm_compute; reflexivity | discriminate] | ]).
    destruct Hq. }
  split; [exact Hres | ]. split; [discriminate | ].
  apply (@discovery_prefers_well_known_path demoRuntime "example.com/" 1000 emptyState Hres).
  exists 1, "/rss.xml", "https://example.com/rss.xml".
  split; [reflexivity | ]. split; vm_compute; reflexivity.
Defined.

(** In the demo world the feed found is the one at /rss.xml, the second
    path probed. *)
Example discovery_finds_rss_xml :
  fst (@discoverFeed demoRuntime "example.com/" 1000 emptyState) =
  Ret (mkFeedDiscoveryResult "https://example.com/rss.xml" Rss WellKnownPath
         (Some "") (Some "") "https://example.com").
Proof. vm_compute. reflexivity. Qed.

(** ** The sync cycle of a source *)

Section SyncProperties.
Context {RT : Runtime}.

Ltac run_monad :=
  cbv [bind ret gets modify nowISO nanoid throw tryCatch].

Tactic Notation "run_monad" "in" hyp(H) :=
  cbv [bind ret gets modify nowISO nanoid throw tryCatch] in H.

Ltac simpl_state :=
  cbn [rssSources creators contentItems gmailProcessedMessages userSubscriptions
       gmailConnections nanoidCalls clockReads fetchCalls
       set_rssSources set_creators set_contentItems set_gmailProcessedMessages
       set_userSubscriptions set_gmailConnections tick_nanoid tick_clock tick_fetch
       fst snd].

Lemma orElse_None_idem (a : option string) : orElse (orElse a None) None = orElse a None.
Proof. destruct a as [s|]; [ | reflexivity]. cbn. destruct (truthy s) eqn:E; cbn; now rewrite ?E. Qed.

Lemma keeps_ret {A : Type} (a : A) : keepsFeedTables (ret a).
Proof. intros st. repeat split. Qed.

Lemma keeps_throw {A : Type} (msg : string) : keepsFeedTables (@throw A msg).
Proof. intros st. repeat split. Qed.

Lemma keeps_nowISO : keepsFeedTables nowISO.
Proof. intros st. repeat split. Qed.

Lemma keeps_fetch (u : string) (h : RequestHeaders) : keepsFeedTables (fetch u h).
Proof. intros st. repeat split. Qed.

Lemma keeps_bind {A B : Type} (m : M A) (k : A -> M B) :
  keepsFeedTables m -> (forall a, keepsFeedTables (k a)) -> keepsFeedTables (bind m k).
Proof.
  intros Hm Hk st. unfold bind. specialize (Hm st).
  destruct (m st) as [[a | e] st1]; cbn [snd] in *.
  - destruct (Hk a st1) as [H1 [H2 H3]]. destruct Hm as [G1 [G2 G3]].
    repeat split; congruence.
  - exact Hm.
Qed.

Lemma keeps_mapM {A B : Type} (f : A -> M B) (xs : list A) :
  (forall a, keepsFeedTables (f a)) -> keepsFeedTables (mapM f xs).
Proof.
  intros Hf. induction xs as [|x xs IH]; cbn [mapM].
  - apply keeps_ret.
  - apply keeps_bind; [apply Hf | intros y].
    apply keeps_bind; [exact IH | intros ys; apply keeps_ret].
Qed.

Lemma keeps_publishedAtOf (d : option string) : keepsFeedTables (publishedAtOf d).
Proof.
  unfold publishedAtOf. destruct (orElse d None) as [s|]; [ | apply keeps_nowISO].
  destruct (dateToISO s); [apply keeps_ret | apply keeps_throw].
Qed.

Lemma keeps_fetchAndParseFeed (u : string) (ft : FeedType) (e l : option string) :
  keepsFeedTables (fetchAndParseFeed u ft e l).
Proof.
  unfold fetchAndParseFeed. apply keeps_bind; [apply keeps_fetch | ].
  intros [response | msg]; [ | apply keeps_throw].
  destruct (status response =? 304)%nat; [apply keeps_ret | ].
  destruct (negb (ok response)); [apply keeps_throw | ].
  apply keeps_bind; [ | intros f; apply keeps_ret].
  destruct (FeedType_eqb ft JsonFeed).
  - unfold parseJsonFeed. destruct (jsonParse _); [apply keeps_throw | ].
    apply keeps_bind; [ | intros; apply keeps_ret].
    apply keeps_mapM. intros item. unfold parseJsonItem.
    apply keeps_bind; [apply keeps_publishedAtOf | intros; apply keeps_ret].
  - unfold parseRssOrAtom. destruct (rssParserParseString _); [apply keeps_throw | ].
    apply keeps_bind; [ | intros; apply keeps_ret].
    apply keeps_mapM. intros item. unfold parseRssItem.
    apply keeps_bind; [apply keeps_publishedAtOf | intros; apply keeps_ret].
Qed.

Lemma upsertCreator_returns (u ti : string) (d : option string) (st : State) :
  exists cid st', upsertCreator u ti d st = (Ret cid, st') /\
                  rssSources st' = rssSources st.
Proof.
  unfold upsertCreator. run_monad. simpl_state.
  destruct (find _ (creators st)); eexists _, _; split; reflexivity.
Qed.

Lemma upsertPosts_returns (cid : string) (posts : list ParsedFeedItem) (st : State) :
  exists n st', upsertPosts cid posts st = (Ret n, st') /\
                rssSources st' = rssSources st.
Proof.
  rewrite upsertPosts_unfold.
  destruct (upsert_loop_spec cid (nowAt (clockReads st)) posts 0 (tick_clock st))
    as [added [st' [E [_ [_ [_ [Hs _]]]]]]].
  eexists _, st'. split; [exact E | exact Hs].
Qed.

Lemma updateWhere_twice {A : Type} (p : A -> bool) (f g : A -> A) (rows : list A) :
  (forall r, p (f r) = p r) ->
  updateWhere p g (updateWhere p f rows) = updateWhere p (fun r => g (f r)) rows.
Proof.
  intros Hp. unfold updateWhere. rewrite map_map. apply map_ext. intros r.
  destruct (p r) eqn:E; [now rewrite Hp, E | now rewrite E].
Qed.

(** The cycle of a source that is found and active, by the outcome of
    its fetch: the source's row ends with the status of the outcome, and
    only rows of this source are written. *)
Lemma syncSource_cycle (sourceId : string) (st : State) (source : RssSource) :
  sourceRow sourceId st = Some source ->
  src_isActive source = true ->
  exists (g : RssSource -> RssSource) (now : string) (error : option string),
    rssSources (snd (syncSource sourceId st)) =
      updateWhere (isSource sourceId)
                  (fun r => withSync now (statusOfOutcome (fst (syncSource sourceId st)))
                                     error (g r))
                  (rssSources st) /\
    (forall r, src_sourceId (g r) = src_sourceId r /\ src_isActive (g r) = src_isActive r /\
               src_userId (g r) = src_userId r /\ src_addedAt (g r) = src_addedAt r) /\
    (forall msg, fst (syncSource sourceId st) = Throw msg -> error = Some msg).
Proof.
  intros Hrow Hact.
  remember (syncSource sourceId st) as R eqn:ER.
  unfold syncSource, getSource in ER. unfold bind at 1, gets at 1 in ER.
  unfold sourceRow in Hrow. rewrite Hrow, Hact in ER. cbn [negb] in ER.
  unfold tryCatch in ER. unfold bind at 1 in ER.
  pose proof (keeps_fetchAndParseFeed (src_feedUrl source) (src_feedType source)
                (orElse (src_etag source) None) (orElse (src_lastModified source) None) st)
    as [Hk _].
  destruct (fetchAndParseFeed _ _ _ _ st) as [[[res | ] | msg] s1]; cbn [snd] in Hk.
  - (* 2xx: headers, creator, posts, success *)
    unfold updateSourceHeaders at 1 in ER. unfold bind at 1, modify at 1 in ER.
    match type of ER with context [upsertCreator ?a ?b ?c] =>
      destruct (upsertCreator_returns a b c
                  (set_rssSources
                     (updateWhere (isSource sourceId)
                                  (withHeaders (ffr_etag res) (ffr_lastModified res))) s1))
        as [cid [s2 [Ec Hs2]]] end.
    unfold bind at 1 in ER. rewrite Ec in ER.
    destruct (upsertPosts_returns cid (items (feed res)) s2) as [n [s3 [Ep Hs3]]].
    unfold bind at 1 in ER. rewrite Ep in ER.
    unfold updateSourceSync in ER. run_monad in ER. subst R.
    simpl_state. cbn [statusOfOutcome].
    exists (withHeaders (ffr_etag res) (ffr_lastModified res)), (nowAt (clockReads s3)), None.
    split; [ | split; [intros r; repeat split | intros msg H; discriminate H]].
    rewrite Hs3, Hs2. simpl_state. rewrite Hk.
    apply updateWhere_twice. intros r. reflexivity.
  - (* 304 *)
    unfold updateSourceSync in ER. run_monad in ER. subst R.
    simpl_state. cbn [statusOfOutcome].
    exists (fun r => r), (nowAt (clockReads s1)), None.
    split; [now rewrite Hk | split; [intros r; repeat split | intros msg H; discriminate H]].
  - (* failure *)
    unfold updateSourceSync in ER. run_monad in ER. subst R.
    simpl_state. cbn [statusOfOutcome].
    exists (fun r => r), (nowAt (clockReads s1)), (Some msg).
    split; [now rewrite Hk | split; [intros r; repeat split | ]].
    intros msg' H. injection H as <-. reflexivity.
Qed.

Lemma find_updateWhere_same (sourceId : string) (f : RssSource -> RssSource)
    (rows : list RssSource) :
  (forall r, src_sourceId (f r) = src_sourceId r) ->
  find (isSource sourceId) (updateWhere (isSource sourceId) f rows) =
  option_map f (find (isSource sourceId) rows).
Proof.
  intros Hf. induction rows as [|r rows IH]; [reflexivity | ].
  unfold updateWhere in *. cbn [map find].
  destruct (isSource sourceId r) eqn:E.
  - assert (E' : isSource sourceId (f r) = true)
      by (unfold isSource in *; now rewrite Hf).
    now rewrite E'.
  - rewrite E. exact IH.
Qed.

Lemma find_updateWhere_other (sourceId other : string) (f : RssSource -> RssSource)
    (rows : list RssSource) :
  sourceId <> other ->
  (forall r, src_sourceId (f r) = src_sourceId r) ->
  find (isSource sourceId) (updateWhere (isSource other) f rows) =
  find (isSource sourceId) rows.
Proof.
  intros Hne Hf. induction rows as [|r rows IH]; [reflexivity | ].
  unfold updateWhere in *. cbn [map find].
  destruct (isSource other r) eqn:E.
  - assert (En : isSource sourceId r = false).
    { unfold isSource in *. apply String.eqb_eq in E. apply String.eqb_neq. congruence. }
    assert (En' : isSource sourceId (f r) = false)
      by (unfold isSource in *; now rewrite Hf).
    rewrite En, En'. exact IH.
  - destruct (isSource sourceId r); [reflexivity | exact IH].
Qed.

Lemma updateWhere_id {A : Type} (p : A -> bool) (rows : list A) :
  updateWhere p (fun r => r) rows = rows.
Proof.
  unfold updateWhere. induction rows as [|r rows IH]; cbn [map]; [reflexivity | ].
  rewrite IH. now destruct (p r).
Qed.

(** Whatever happens, a cycle writes only rows of its own source, and
    keeps their identity. *)
Lemma syncSource_frame (sourceId : string) (st : State) :
  exists g : RssSource -> RssSource,
    rssSources (snd (syncSource sourceId st)) =
      updateWhere (isSource sourceId) g (rssSources st) /\
    (forall r, src_sourceId (g r) = src_sourceId r).
Proof.
  destruct (sourceRow sourceId st) as [source | ] eqn:Hrow.
  - destruct (src_isActive source) eqn:Hact.
    + destruct (syncSource_cycle sourceId st source Hrow Hact) as [g [now [error [E [Hg _]]]]].
      eexists. split; [exact E | ]. intros r. cbn [withSync src_sourceId]. apply Hg.
    + exists (fun r => r). split; [ | reflexivity]. rewrite updateWhere_id.
      unfold syncSource, getSource. unfold bind, gets. unfold sourceRow in Hrow.
      rewrite Hrow, Hact. reflexivity.
  - exists (fun r => r). split; [ | reflexivity]. rewrite updateWhere_id.
    unfold syncSource, getSource. unfold bind, gets. unfold sourceRow in Hrow.
    rewrite Hrow. reflexivity.
Qed.

Lemma runCycles_other (sourceId : string) (sources : list RssSource) :
  forall st,
    (forall s, In s sources -> src_sourceId s <> sourceId) ->
    sourceRow sourceId (runCycles sources st) = sourceRow sourceId st.
Proof.
  induction sources as [|s sources IH]; intros st Hother; [reflexivity | ].
  unfold runCycles. cbn [fold_left]. fold (runCycles sources (snd (syncSource (src_sourceId s) st))).
  rewrite IH by (intros s' Hin; apply Hother; now right).
  destruct (syncSource_frame (src_sourceId s) st) as [g [E Hg]].
  unfold sourceRow. rewrite E.
  apply (find_updateWhere_other sourceId (src_sourceId s) g (rssSources st)); [ | exact Hg].
  intros Heq. apply (Hother s (or_introl eq_refl)). now symmetry.
Qed.

Lemma syncAllSources_runs_cycles (sources : list RssSource) :
  forall st,
    forEach sources (fun source =>
      tryCatch (syncSource (src_sourceId source)) (fun _ => ret tt)) st =
    (Ret tt, runCycles sources st).
Proof.
  induction sources as [|s sources IH]; intros st; cbn [forEach]; [reflexivity | ].
  unfold bind, tryCatch. unfold runCycles. cbn [fold_left].
  destruct (syncSource (src_sourceId s) st) as [[[] | e] s1]; cbn [snd]; apply IH.
Qed.

Lemma insertByAddedAtDesc_perm (s : RssSource) (sorted : list RssSource) :
  Permutation (insertByAddedAtDesc s sorted) (s :: sorted).
Proof.
  induction sorted as [|x rest IH]; cbn [insertByAddedAtDesc]; [apply Permutation_refl | ].
  destruct (_ && _); [apply Permutation_refl | ].
  eapply Permutation_trans; [apply perm_skip; exact IH | apply perm_swap].
Qed.

Lemma orderByAddedAtDesc_perm (rows : list RssSource) :
  Permutation (orderByAddedAtDesc rows) rows.
Proof.
  induction rows as [|r rows IH]; cbn; [apply Permutation_refl | ].
  eapply Permutation_trans; [apply insertByAddedAtDesc_perm | now apply perm_skip].
Qed.

(** A selection of rows of the table has unique identities when the
    table has. *)
Lemma selected_sources_unique (keep : RssSource -> bool) (rows : list RssSource) :
  NoDup (map src_sourceId rows) -> NoDup (map src_sourceId (filter keep rows)).
Proof.
  intros Hnd. induction rows as [|r rows IH]; cbn [filter map]; [constructor | ].
  cbn [map] in Hnd. apply NoDup_cons_iff in Hnd as [Hr Hrows].
  destruct (keep r); [ | now apply IH].
  cbn [map]. apply NoDup_cons; [ | now apply IH].
  intros Hin. apply Hr. apply in_map_iff in Hin as [r' [Heq Hin]].
  apply filter_In in Hin as [Hin _]. rewrite <- Heq. now apply in_map.
Qed.

Lemma find_unique_source (rows : list RssSource) (s : RssSource) :
  NoDup (map src_sourceId rows) -> In s rows ->
  find (isSource (src_sourceId s)) rows = Some s.
Proof.
  induction rows as [|r rows IH]; intros Hnd Hin; [destruct Hin | ].
  cbn [map] in Hnd. inversion Hnd as [|? ? Hr Hl]; subst.
  cbn [find]. destruct Hin as [-> | Hin].
  - unfold isSource. now rewrite String.eqb_refl.
  - destruct (isSource (src_sourceId s) r) eqn:E; [ | now apply IH].
    exfalso. apply Hr. unfold isSource in E. apply String.eqb_eq in E.
    rewrite E. now apply in_map.
Qed.

Lemma map_updateWhere_field {B : Type} (field : RssSource -> B) (p : RssSource -> bool)
    (f : RssSource -> RssSource) (rows : list RssSource) :
  (forall r, field (f r) = field r) ->
  map field (updateWhere p f rows) = map field rows.
Proof.
  intros Hf. unfold updateWhere. rewrite map_map. apply map_ext.
  intros r. destruct (p r); [apply Hf | reflexivity].
Qed.

(** C6: when the conditional fetch of an active source answers 304,
    [syncSource] returns normally, records the status success (and no
    error) on the source, creates or updates no content item and no
    creator, and leaves the etag and last-modified of every source as
    they were. *)
Theorem not_modified_sync_is_successful_noop
    (sourceId : string) (st : State) (source : RssSource) (response : Response) :
  sourceRow sourceId st = Some source ->
  src_isActive source = true ->
  fetchAt (fetchCalls st) (src_feedUrl source) (conditionalRequest source) = Replied response ->
  status response = 304 ->
  exists st',
    syncSource sourceId st = (Ret tt, st') /\
    contentItems st' = contentItems st /\
    creators st' = creators st /\
    rssSources st' =
      updateWhere (isSource sourceId)
                  (withSync (nowAt (clockReads st)) SyncSuccess None) (rssSources st) /\
    map src_etag (rssSources st') = map src_etag (rssSources st) /\
    map src_lastModified (rssSources st') = map src_lastModified (rssSources st) /\
    exists row,
      sourceRow sourceId st' = Some row /\
      src_lastSyncStatus row = Some SyncSuccess /\
      src_lastSyncError row = None /\
      src_etag row = src_etag source /\
      src_lastModified row = src_lastModified source.
Proof.
  intros Hrow Hact Hfetch Hstatus.
  assert (E : syncSource sourceId st =
              (Ret tt,
               set_rssSources
                 (updateWhere (isSource sourceId)
                              (withSync (nowAt (clockReads st)) SyncSuccess None))
                 (tick_clock (tick_fetch st)))).
  { unfold syncSource, getSource. unfold bind at 1, gets at 1.
    unfold sourceRow in Hrow. rewrite Hrow, Hact. cbn [negb].
    unfold tryCatch, fetchAndParseFeed, fetch. unfold bind at 1 2.
    rewrite !orElse_None_idem. fold (conditionalRequest source).
    rewrite Hfetch, Hstatus. cbn [Nat.eqb]. unfold ret at 1.
    unfold updateSourceSync. reflexivity. }
  eexists. split; [exact E | ]. simpl_state.
  split; [reflexivity | ]. split; [reflexivity | ]. split; [reflexivity | ].
  split; [apply map_updateWhere_field; reflexivity | ].
  split; [apply map_updateWhere_field; reflexivity | ].
  unfold sourceRow. simpl_state.
  rewrite find_updateWhere_same by reflexivity.
  unfold sourceRow in Hrow. rewrite Hrow. cbn [option_map].
  eexists. split; [reflexivity | ]. repeat split.
Qed.

Lemma runCycles_app (xs ys : list RssSource) (st : State) :
  runCycles (xs ++ ys)%list st = runCycles ys (runCycles xs st).
Proof. unfold runCycles. apply fold_left_app. Qed.

(** C7: [syncAllSources] never raises: it returns normally with the
    store that running the cycle of each active source in turn leaves,
    each cycle starting from what the previous cycles left whatever their
    outcome.  In that final store every source of the batch carries the
    status of its own cycle: error, with the message, when its fetch or
    parse failed, success otherwise.  (Source identities are unique:
    source_id is the primary key.) *)
Theorem batch_sync_isolates_failures (userId : string) (st : State) :
  syncAllSources userId st = (Ret tt, runCycles (activeSources userId st) st) /\
  (NoDup (map src_sourceId (rssSources st)) ->
   forall pre source post,
     activeSources userId st = (pre ++ source :: post)%list ->
     exists row,
       sourceRow (src_sourceId source) (runCycles (activeSources userId st) st) = Some row /\
       src_lastSyncStatus row =
         Some (statusOfOutcome
                 (fst (syncSource (src_sourceId source) (runCycles pre st)))) /\
       (forall msg,
          fst (syncSource (src_sourceId source) (runCycles pre st)) = Throw msg ->
          src_lastSyncError row = orElse (Some msg) None)).
Proof.
  split.
  { unfold syncAllSources, getUserSources. unfold bind, gets.
    apply syncAllSources_runs_cycles. }
  intros Hnd pre source post Hsplit.
  set (id := src_sourceId source).
  (* the batch has unique identities, taken from the table *)
  assert (Hperm : Permutation (activeSources userId st)
                    (filter (fun s => String.eqb (src_userId s) userId && src_isActive s)
                            (rssSources st)))
    by apply orderByAddedAtDesc_perm.
  assert (Hnd' : NoDup (map src_sourceId (pre ++ source :: post)%list)).
  { rewrite <- Hsplit. eapply Permutation_NoDup.
    - apply Permutation_sym. apply Permutation_map. exact Hperm.
    - now apply selected_sources_unique. }
  assert (Hin : In source (rssSources st) /\ src_isActive source = true).
  { assert (H : In source (activeSources userId st))
      by (rewrite Hsplit; apply in_elt).
    apply (Permutation_in _ Hperm) in H. apply filter_In in H as [H Hp].
    apply andb_true_iff in Hp as [_ Hp]. now split. }
  destruct Hin as [Hin Hact].
  rewrite map_app in Hnd'. cbn [map] in Hnd'.
  assert (Hpre : forall s, In s pre -> src_sourceId s <> id).
  { intros s Hs Heq. apply NoDup_remove_2 in Hnd'. apply Hnd'.
    apply in_or_app. left. fold id. rewrite <- Heq. now apply in_map. }
  assert (Hpost : forall s, In s post -> src_sourceId s <> id).
  { intros s Hs Heq. apply NoDup_remove_2 in Hnd'. apply Hnd'.
    apply in_or_app. right. fold id. rewrite <- Heq. now apply in_map. }
  (* the source is found, active, when its cycle starts *)
  assert (Hrow : sourceRow id (runCycles pre st) = Some source).
  { rewrite runCycles_other by exact Hpre. now apply find_unique_source. }
  destruct (syncSource_cycle id (runCycles pre st) source Hrow Hact)
    as [g [now [error [E [Hg Herr]]]]].
  (* later cycles leave its row alone *)
  rewrite Hsplit, runCycles_app.
  change (source :: post) with ([source] ++ post)%list. rewrite runCycles_app.
  rewrite runCycles_other by exact Hpost.
  unfold runCycles at 1. cbn [fold_left]. fold id.
  unfold sourceRow. rewrite E.
  rewrite find_updateWhere_same by (intros r; cbn [withSync src_sourceId]; apply Hg).
  unfold sourceRow in Hrow. rewrite Hrow. cbn [option_map].
  eexists. split; [reflexivity | ]. split; [reflexivity | ].
  intros msg Hmsg. cbn [withSync src_lastSyncError]. now rewrite (Herr msg Hmsg).
Qed.

End SyncProperties.

Lemma not_modified_sync_is_successful_noop_witness :
  sourceRow "3" demoBatch = Some unchangedSource /\
  src_isActive unchangedSource = true /\
  @fetchAt demoRuntime (fetchCalls demoBatch) (src_feedUrl unchangedSource)
           (conditionalRequest unchangedSource)
    = Replied (mkResponse 304 "Not Modified" None (Some "v1") None "") /\
  exists st',
    @syncSource demoRuntime "3" demoBatch = (Ret tt, st') /\
    contentItems st' = contentItems demoBatch /\
    creators st' = creators demoBatch /\
    map src_etag (rssSources st') = map src_etag (rssSources demoBatch) /\
    map src_lastModified (rssSources st') = map src_lastModified (rssSources demoBatch).
Proof.
  assert (Hrow : sourceRow "3" demoBatch = Some unchangedSource) by reflexivity.
  assert (Hact : src_isActive unchangedSource = true) by reflexivity.
  assert (Hfetch : @fetchAt demoRuntime (fetchCalls demoBatch) (src_feedUrl unchangedSource)
                     (conditionalRequest unchangedSource)
                   = Replied (mkResponse 304 "Not Modified" None (Some "v1") None ""))
    by reflexivity.
  split; [exact Hrow | ]. split; [exact Hact | ]. split; [exact Hfetch | ].
  destruct (@not_modified_sync_is_successful_noop demoRuntime "3" demoBatch
              unchangedSource _ Hrow Hact Hfetch eq_refl)
    as [st' [E [Hc [Hcr [_ [He [Hl _]]]]]]].
  exists st'. repeat split; assumption.
Defined.

Lemma batch_sync_isolates_failures_witness :
  NoDup (map src_sourceId (rssSources demoBatch)) /\
  @activeSources "user-1" demoBatch = ([unchangedSource] ++ downSource :: [workingSource])%list /\
  fst (@syncAllSources demoRuntime "user-1" demoBatch) = Ret tt /\
  exists row,
    sourceRow "2" (@runCycles demoRuntime (activeSources "user-1" demoBatch) demoBatch)
      = Some row /\
    src_lastSyncStatus row = Some SyncError /\
    src_lastSyncError row = Some "fetch failed".
Proof.
  assert (Hnd : NoDup (map src_sourceId (rssSources demoBatch))).
  { cbn. repeat constructor; cbn; intuition discriminate. }
  assert (Hsplit : activeSources "user-1" demoBatch =
                   ([unchangedSource] ++ downSource :: [workingSource])%list)
    by reflexivity.
  split; [exact Hnd | ]. split; [exact Hsplit | ].
  split; [rewrite (proj1 (@batch_sync_isolates_failures demoRuntime "user-1" demoBatch));
          reflexivity | ].
  destruct (proj2 (@batch_sync_isolates_failures demoRuntime "user-1" demoBatch)
              Hnd [unchangedSource] downSource [workingSource] Hsplit)
    as [row [Hrow [Hs He]]].
  exists row. split; [exact Hrow | ]. split; [exact Hs | ].
  exact (He "fetch failed" eq_refl).
Defined.

(* ====================================================================== *)
(** * Further properties of the code                                       *)
(* ====================================================================== *)

(** ** Text utilities of feed-parser.ts *)

Lemma substringTo_length (n : nat) (s : string) :
  String.length (substringTo n s) = Nat.min n (String.length s).
Proof.
  unfold substringTo. revert s. induction n as [|n IH]; intros s.
  - destruct s; reflexivity.
  - destruct s as [|c s]; [reflexivity | ]. cbn. now rewrite IH.
Qed.

Lemma substringTo_all (n : nat) (s : string) :
  String.length s <= n -> substringTo n s = s.
Proof.
  unfold substringTo. revert s. induction n as [|n IH]; intros s H.
  - destruct s; [reflexivity | cbn in H; lia].
  - destruct s as [|c s]; [reflexivity | ]. cbn in *. rewrite IH; [reflexivity | lia].
Qed.

(** X1: [truncateText] returns a text that fits unchanged; a longer text
    is cut to its first maxLength - 3 characters followed by three dots,
    which makes exactly maxLength characters when maxLength is at least 3;
    so the result is never longer than such a maxLength, and truncating a
    second time changes nothing (for every maxLength). *)
Theorem truncateText_fits (text : string) (maxLength : nat) :
  (String.length text <= maxLength -> truncateText text maxLength = text) /\
  (maxLength < String.length text ->
     truncateText text maxLength = substringTo (maxLength - 3) text ++ "...") /\
  (3 <= maxLength -> maxLength < String.length text ->
     String.length (truncateText text maxLength) = maxLength) /\
  (3 <= maxLength -> String.length (truncateText text maxLength) <= maxLength) /\
  truncateText (truncateText text maxLength) maxLength = truncateText text maxLength.
Proof.
  assert (Hshort : String.length text <= maxLength -> truncateText text maxLength = text).
  { intros H. unfold truncateText. apply Nat.leb_le in H. now rewrite H. }
  assert (Hlong : maxLength < String.length text ->
            truncateText text maxLength = substringTo (maxLength - 3) text ++ "...").
  { intros H. unfold truncateText. apply Nat.leb_gt in H. now rewrite H. }
  assert (Hlen : 3 <= maxLength -> maxLength < String.length text ->
            String.length (truncateText text maxLength) = maxLength).
  { intros H3 H. rewrite (Hlong H), append_length, substringTo_length. cbn. lia. }
  split; [exact Hshort | ]. split; [exact Hlong | ]. split; [exact Hlen | ].
  split.
  - intros H3. destruct (Nat.le_gt_cases (String.length text) maxLength) as [H | H].
    + now rewrite (Hshort H).
    + rewrite (Hlen H3 H). lia.
  - destruct (Nat.le_gt_cases (String.length text) maxLength) as [H | H].
    + now rewrite !(Hshort H).
    + destruct (Nat.le_gt_cases 3 maxLength) as [H3 | H3].
      * unfold truncateText at 1.
        assert (E : (String.length (truncateText text maxLength) <=? maxLength)%nat = true)
          by (apply Nat.leb_le; rewrite (Hlen H3 H); lia).
        now rewrite E.
      * rewrite (Hlong H).
        replace (maxLength - 3) with 0 by lia.
        assert (E0 : forall s, substringTo 0 s = "") by (intros []; reflexivity).
        rewrite E0. cbn [append]. unfold truncateText.
        assert (E : (String.length "..." <=? maxLength)%nat = false)
          by (apply Nat.leb_gt; cbn; lia).
        rewrite E. replace (maxLength - 3) with 0 by lia. now rewrite E0.
Qed.

Lemma truncateText_fits_witness :
  (3 <= 8 /\ 8 < String.length "abcdefghij" /\
   String.length (truncateText "abcdefghij" 8) = 8) /\
  (String.length "short" <= 8 /\ truncateText "short" 8 = "short").
Proof.
  assert (H3 : 3 <= 8) by lia.
  assert (H : 8 < String.length "abcdefghij") by (cbn; lia).
  assert (Hs : String.length "short" <= 8) by (cbn; lia).
  split.
  - split; [exact H3 | ]. split; [exact H | ].
    exact (proj1 (proj2 (proj2 (truncateText_fits "abcdefghij" 8))) H3 H).
  - split; [exact Hs | ].
    exact (proj1 (truncateText_fits "short" 8) Hs).
Defined.

Lemma includes_char_cons (a c : ascii) (r : string) :
  includes (String a r) (String c "") = Ascii.eqb a c || includes r (String c "").
Proof.
  cbn [includes String.prefix].
  destruct (ascii_dec c a) as [-> | Hne].
  - rewrite Ascii.eqb_refl. now destruct r.
  - assert (E : Ascii.eqb a c = false) by (apply Ascii.eqb_neq; congruence).
    now rewrite E.
Qed.







(** ** Hash formats *)

Lemma allChars_app (p : ascii -> bool) (a b : string) :
  allChars p (a ++ b) = allChars p a && allChars p b.
Proof.
  induction a as [|c a IH]; [reflexivity | ]. cbn. rewrite IH. now rewrite andb_assoc.
Qed.

Lemma hexDigit_isHexLower (n : Z) :
  (0 <= n < 16)%Z -> isHexLower (SHA256.hexDigit n) = true.
Proof.
  intros H.
  assert (T : forallb (fun k => isHexLower (SHA256.hexDigit (Z.of_nat k))) (seq 0 16) = true)
    by reflexivity.
  rewrite forallb_forall in T.
  rewrite <- (Z2Nat.id n) by lia. apply T. apply in_seq. lia.
Qed.

Lemma hex32_isHexLower (x : Z) : allChars isHexLower (SHA256.hex32 x) = true.
Proof.
  unfold SHA256.hex32. cbn [map string_of_list_ascii allChars].
  rewrite !hexDigit_isHexLower by (apply Z.mod_pos_bound; lia). reflexivity.
Qed.

(** X3: both content hashes are lower-case hexadecimal strings of fixed
    length, whatever is hashed: 16 characters for a feed item, 64 for a
    mailbox post. *)
Theorem content_hashes_are_hex (u t c : string) (post : SubstackPost) :
  String.length (generateContentHash u t c) = 16 /\
  allChars isHexLower (generateContentHash u t c) = true /\
  String.length (generateMailContentHash post) = 64 /\
  allChars isHexLower (generateMailContentHash post) = true.
Proof.
  split; [apply generateContentHash_length | ].
  split; [rewrite generateContentHash_words, allChars_app, !hex32_isHexLower; reflexivity | ].
  split; [apply sha256_hex_length | ].
  unfold generateMailContentHash, sha256_hex, SHA256.hexOfWords.
  rewrite !allChars_app, !hex32_isHexLower. reflexivity.
Qed.

(** ** Site URLs and creator slugs *)

Lemma prefix_split (p s : string) :
  String.prefix p s = true -> exists t, s = p ++ t.
Proof.
  revert s. induction p as [|a p IH]; intros s H.
  - exists s. reflexivity.
  - destruct s as [|b s]; [discriminate | ]. cbn [String.prefix] in H.
    destruct (ascii_dec a b) as [-> | ]; [ | discriminate].
    destruct (IH s H) as [t ->]. exists t. reflexivity.
Qed.

Lemma prefix_of_append (p t : string) : String.prefix p (p ++ t) = true.
Proof.
  induction p as [|a p IH]; [cbn [append]; destruct t; reflexivity | ].
  cbn [append String.prefix]. destruct (ascii_dec a a); [exact IH | congruence].
Qed.

Lemma startsWith_substringTo (p s : string) (n : nat) :
  startsWith s p = true -> String.length p <= n -> startsWith (substringTo n s) p = true.
Proof.
  unfold startsWith, substringTo. revert s n.
  induction p as [|a p IH]; intros s n H Hn;
    [destruct (String.substring 0 n s); reflexivity | ].
  destruct s as [|b s]; [discriminate | ]. cbn [String.prefix] in H.
  destruct (ascii_dec a b) as [-> | ]; [ | discriminate].
  destruct n as [|n]; [cbn in Hn; lia | ].
  cbn [String.substring String.prefix].
  destruct (ascii_dec b b); [ | congruence].
  apply IH; [exact H | cbn in Hn; lia].
Qed.

Lemma strip_slash_keeps_scheme (p s : string) :
  startsWith s p = true -> String.length p < String.length s ->
  startsWith (if endsWith s "/" then substringTo (String.length s - 1) s else s) p = true.
Proof.
  intros H Hlen. destruct (endsWith s "/"); [ | exact H].
  apply startsWith_substringTo; [exact H | lia].
Qed.

(** X4: [normalizeSiteUrl] returns an address with a scheme, https:// when
    the input had none, for every input that is more than white space or
    a bare scheme; an input of white space only gives the text https:/
    (the slash stripping eats the scheme that was just added). *)
Theorem normalizeSiteUrl_has_scheme (url : string) :
  (trim url <> "" -> trim url <> "http://" -> trim url <> "https://" ->
   startsWith (normalizeSiteUrl url) "http://" ||
   startsWith (normalizeSiteUrl url) "https://" = true) /\
  (trim url <> "" ->
   startsWith (trim url) "http://" || startsWith (trim url) "https://" = false ->
   startsWith (normalizeSiteUrl url) "https://" = true) /\
  (trim url = "" -> normalizeSiteUrl url = "https:/").
Proof.
  assert (Hadd : trim url <> "" ->
                 startsWith (trim url) "http://" || startsWith (trim url) "https://" = false ->
                 startsWith (normalizeSiteUrl url) "https://" = true).
  { intros Hne Hno. apply orb_false_iff in Hno as [H1 H2].
    unfold normalizeSiteUrl. cbv zeta. rewrite H1, H2. cbn [negb andb].
    apply strip_slash_keeps_scheme.
    - unfold startsWith. apply prefix_of_append.
    - rewrite append_length. destruct (trim url); [congruence | cbn; lia]. }
  split; [ | split; [exact Hadd | ] ].
  - intros Hne Hhttp Hhttps.
    destruct (startsWith (trim url) "http://") eqn:H1.
    + apply orb_true_iff. left.
      unfold normalizeSiteUrl. cbv zeta. rewrite H1. cbn [negb andb].
      apply strip_slash_keeps_scheme; [exact H1 | ].
      destruct (prefix_split _ _ H1) as [t Ht]. rewrite Ht, append_length.
      destruct t; [ | cbn; lia].
      exfalso. apply Hhttp. rewrite Ht. reflexivity.
    + destruct (startsWith (trim url) "https://") eqn:H2.
      * apply orb_true_iff. right.
        unfold normalizeSiteUrl. cbv zeta. rewrite H1, H2. cbn [negb andb].
        apply strip_slash_keeps_scheme; [exact H2 | ].
        destruct (prefix_split _ _ H2) as [t Ht]. rewrite Ht, append_length.
        destruct t; [ | cbn; lia].
        exfalso. apply Hhttps. rewrite Ht. reflexivity.
      * apply orb_true_iff. right. apply Hadd; [exact Hne | reflexivity].
  - intros H. unfold normalizeSiteUrl. cbv zeta. rewrite H. reflexivity.
Qed.

Lemma normalizeSiteUrl_has_scheme_witness :
  (trim " example.com/ " <> "" /\
   startsWith (trim " example.com/ ") "http://" ||
   startsWith (trim " example.com/ ") "https://" = false /\
   startsWith (normalizeSiteUrl " example.com/ ") "https://" = true) /\
  (trim "   " = "" /\ normalizeSiteUrl "   " = "https:/").
Proof.
  assert (H1 : trim " example.com/ " <> "") by (vm_compute; discriminate).
  assert (H2 : startsWith (trim " example.com/ ") "http://" ||
               startsWith (trim " example.com/ ") "https://" = false) by reflexivity.
  assert (H3 : trim "   " = "") by reflexivity.
  split.
  - split; [exact H1 | split; [exact H2 | ] ].
    exact (proj1 (proj2 (normalizeSiteUrl_has_scheme " example.com/ ")) H1 H2).
  - split; [exact H3 | ].
    exact (proj2 (proj2 (normalizeSiteUrl_has_scheme "   ")) H3).
Defined.

Lemma dashNonAlnum_fixed (s : string) :
  dashNonAlnum s = s -> allChars isSlugChar s = true.
Proof.
  induction s as [|c s IH]; [reflexivity | ].
  cbn [dashNonAlnum allChars]. intros H. injection H as Hc Hs.
  rewrite (IH Hs), andb_true_r. unfold isSlugChar.
  destruct (isAlnum c); [reflexivity | ]. rewrite <- Hc. reflexivity.
Qed.

(** X5: the slug a creator identifier is built from is as long as the
    sender address, holds only letters, digits and dashes, and is left
    alone by a second pass; so the identifier does not tell addresses
    apart that differ in punctuation only: every address with a character
    other than a letter, a digit or a dash shares its slug with another
    text. *)
Theorem creator_slug_is_lossy (email : string) :
  String.length (dashNonAlnum email) = String.length email /\
  allChars isSlugChar (dashNonAlnum email) = true /\
  dashNonAlnum (dashNonAlnum email) = dashNonAlnum email /\
  (allChars isSlugChar email = false ->
   exists other, other <> email /\ dashNonAlnum other = dashNonAlnum email).
Proof.
  assert (Hidem : dashNonAlnum (dashNonAlnum email) = dashNonAlnum email).
  { induction email as [|c s IH]; [reflexivity | ].
    cbn [dashNonAlnum]. rewrite IH. destruct (isAlnum c) eqn:E; [now rewrite E | reflexivity]. }
  split; [ | split; [ | split; [exact Hidem | ] ] ].
  - clear Hidem. induction email as [|c s IH]; [reflexivity | ]. cbn. now rewrite IH.
  - apply dashNonAlnum_fixed. exact Hidem.
  - intros H. exists (dashNonAlnum email). split; [ | exact Hidem].
    intros E. apply dashNonAlnum_fixed in E. congruence.
Qed.

Lemma creator_slug_is_lossy_witness :
  allChars isSlugChar "jane.doe@substack.com" = false /\
  exists other, other <> "jane.doe@substack.com" /\
                dashNonAlnum other = dashNonAlnum "jane.doe@substack.com".
Proof.
  assert (H : allChars isSlugChar "jane.doe@substack.com" = false) by reflexivity.
  split; [exact H | ].
  exact (proj2 (proj2 (proj2 (creator_slug_is_lossy "jane.doe@substack.com"))) H).
Defined.

(** ** Extraction of a post from an inbox message *)

Section ExtractionProperties.
Context {RT : Runtime}.

Lemma truthy_true (s : string) : truthy s = true -> s <> "".
Proof. unfold truthy. intros H ->. discriminate. Qed.

Lemma orDefault_nonempty (a : option string) (d : string) : d <> "" -> orDefault a d <> "".
Proof.
  intros Hd. unfold orDefault. destruct a as [s|]; [ | exact Hd].
  destruct (truthy s) eqn:E; [now apply truthy_true | exact Hd].
Qed.

Lemma orElse_None_Some (a : option string) (u : string) :
  orElse a None = Some u -> a = Some u /\ u <> "".
Proof.
  unfold orElse. destruct a as [s|]; [ | discriminate].
  destruct (truthy s) eqn:E; [ | discriminate].
  intros H. injection H as <-. split; [reflexivity | now apply truthy_true].
Qed.

Lemma beforeFirst_has_no_separator (c : ascii) (s : string) :
  includes (beforeFirst c s) (String c "") = false.
Proof.
  induction s as [|a s IH]; [reflexivity | ].
  cbn [beforeFirst]. destruct (Ascii.eqb a c) eqn:E; [reflexivity | ].
  rewrite includes_char_cons, E, IH. reflexivity.
Qed.

Lemma selectPostUrl_sound (allUrls : list string) (chosen : string) :
  selectPostUrl allUrls = Some chosen ->
  exists u,
    In u allUrls /\
    includes u "substackcdn.com" || includes u "/image/" ||
    includes u "substack.com/@" || includes u "open.substack.com/live-stream" = false /\
    ((isDirectPostUrl u = true /\ chosen = beforeFirst "?" u) \/
     (isDirectPostUrl u = false /\ includes u "post_id=" = true /\ chosen = u)).
Proof.
  induction allUrls as [|u rest IH]; [discriminate | ].
  cbn [selectPostUrl].
  destruct (includes u "substackcdn.com" || includes u "/image/" ||
            includes u "substack.com/@" || includes u "open.substack.com/live-stream")
    eqn:Eskip.
  - intros H. destruct (IH H) as (v & Hin & Hv). exists v. split; [now right | exact Hv].
  - destruct (isDirectPostUrl u) eqn:Edirect.
    + intros H. injection H as <-. exists u.
      split; [now left | split; [exact Eskip | left; split; [exact Edirect | reflexivity] ] ].
    + destruct (includes u "substack.com/app-link/post?" && includes u "post_id=") eqn:Eapp.
      * intros H. injection H as <-. exists u.
        apply andb_true_iff in Eapp as [_ Eid].
        split; [now left | split; [exact Eskip | right; repeat split; assumption] ].
      * intros H. destruct (IH H) as (v & Hin & Hv). exists v. split; [now right | exact Hv].
Qed.

(** X6: a post [parseSubstackPost] extracts carries the identity of its
    message, a non-empty title (Untitled when the subject is missing or
    empty), a non-empty HTML body and a non-empty post address; the
    address is either taken from a URL of the body that is not a CDN,
    image, profile or live-stream link (a direct post link with its query
    string cut off, or an app link with a post_id kept whole) or it is the
    redirect link of the body. *)
Theorem extracted_post_is_well_formed (message : GmailMessage) (post : SubstackPost) :
  parseSubstackPost message = Some post ->
  sp_messageId post = msg_id message /\
  sp_title post <> "" /\
  sp_htmlContent post <> "" /\
  sp_postUrl post <> "" /\
  ((exists u,
      In u (matchAllUrls (sp_htmlContent post)) /\
      includes u "substackcdn.com" || includes u "/image/" ||
      includes u "substack.com/@" || includes u "open.substack.com/live-stream" = false /\
      ((isDirectPostUrl u = true /\ sp_postUrl post = beforeFirst "?" u /\
        includes (sp_postUrl post) "?" = false) \/
       (isDirectPostUrl u = false /\ includes u "post_id=" = true /\ sp_postUrl post = u)))
   \/ matchRedirectUrl (sp_htmlContent post) = Some (sp_postUrl post)).
Proof.
  unfold parseSubstackPost. cbv zeta.
  set (h0 := htmlOfParts _).
  set (html := if truthy h0 then h0 else _).
  destruct (truthy html) eqn:Ehtml; cbn [negb]; [ | discriminate].
  match goal with
  | |- context [match orElse ?candidate None with Some _ => _ | None => None end] =>
      destruct (orElse candidate None) as [postUrl|] eqn:Eurl; [ | discriminate]
  end.
  destruct (match orElse (internalDate message) None with
            | Some ms => epochMsToISO ms
            | None => dateToISO _
            end) as [published|]; [ | discriminate].
  intros H. injection H as <-. cbn [sp_messageId sp_title sp_htmlContent sp_postUrl].
  apply orElse_None_Some in Eurl as [Eurl Hne].
  split; [reflexivity | ].
  split; [apply orDefault_nonempty; discriminate | ].
  split; [now apply truthy_true | ].
  split; [exact Hne | ].
  destruct (orElse (selectPostUrl (matchAllUrls html)) None) as [u0|] eqn:Esel.
  - injection Eurl as ->. apply orElse_None_Some in Esel as [Esel _].
    destruct (selectPostUrl_sound _ _ Esel) as (u & Hin & Hskip & Hkind).
    left. exists u. split; [exact Hin | split; [exact Hskip | ] ].
    destruct Hkind as [[Hd ->] | [Hd [Hid ->]]].
    + left. split; [exact Hd | split; [reflexivity | apply beforeFirst_has_no_separator] ].
    + right. repeat split; assumption.
  - right. exact Eurl.
Qed.

End ExtractionProperties.

Lemma extracted_post_is_well_formed_witness :
  exists post,
    @parseSubstackPost demoRuntime (demoMessage "m1" "https://jane.substack.com/p/hello")
      = Some post /\
    sp_messageId post = "m1" /\ sp_title post <> "" /\ sp_postUrl post <> "".
Proof.
  destruct (@parseSubstackPost demoRuntime
              (demoMessage "m1" "https://jane.substack.com/p/hello")) as [post|] eqn:E;
    [ | vm_compute in E; discriminate E].
  exists post. split; [reflexivity | ].
  destruct (@extracted_post_is_well_formed demoRuntime _ _ E) as (H1 & H2 & _ & H4 & _).
  split; [exact H1 | split; [exact H2 | exact H4] ].
Defined.

(** ** The mailbox ingestion and the keys of the schema *)

Section MailboxInvariants.
Context {RT : Runtime}.

Ltac run_monad :=
  cbv [bind ret gets modify nowISO nanoid throw tryCatch].

Ltac simpl_state :=
  cbn [rssSources creators contentItems gmailProcessedMessages userSubscriptions
       gmailConnections nanoidCalls clockReads fetchCalls
       set_rssSources set_creators set_contentItems set_gmailProcessedMessages
       set_userSubscriptions set_gmailConnections tick_nanoid tick_clock tick_fetch
       fst snd].

Tactic Notation "simpl_state" "in" hyp(H) :=
  cbn [rssSources creators contentItems gmailProcessedMessages userSubscriptions
       gmailConnections nanoidCalls clockReads fetchCalls
       set_rssSources set_creators set_contentItems set_gmailProcessedMessages
       set_userSubscriptions set_gmailConnections tick_nanoid tick_clock tick_fetch
       fst snd] in H.

Lemma creator_ids_after_update (p : Creator -> bool) (f : Creator -> Creator)
    (rows : list Creator) :
  (forall c, cr_creatorId (f c) = cr_creatorId c) ->
  map cr_creatorId (updateWhere p f rows) = map cr_creatorId rows.
Proof.
  intros Hf. unfold updateWhere. rewrite map_map. apply map_ext.
  intros c. destruct (p c); [apply Hf | reflexivity].
Qed.

Lemma creator_found_by_id (creatorId : string) (rows : list Creator) :
  (exists c, find (fun c => String.eqb (cr_creatorId c) creatorId) rows = Some c) <->
  In creatorId (map cr_creatorId rows).
Proof.
  split.
  - intros [c H]. apply find_some in H as [Hin E]. apply String.eqb_eq in E.
    rewrite <- E. now apply in_map.
  - intros H. apply in_map_iff in H as (c & E & Hin).
    destruct (find (fun c => String.eqb (cr_creatorId c) creatorId) rows) as [c'|] eqn:F.
    + now exists c'.
    + apply (find_none _ _ F) in Hin. cbv beta in Hin. rewrite E, String.eqb_refl in Hin.
      discriminate.
Qed.

(** The creators table after the upsert of the Gmail service. *)
Lemma creator_rows_after_upsert (rows : list Creator) (creatorId : string)
    (f : Creator -> Creator) (new : Creator) :
  cr_creatorId new = creatorId ->
  (forall c, cr_creatorId (f c) = cr_creatorId c) ->
  let rows' :=
    match find (fun c => String.eqb (cr_creatorId c) creatorId) rows with
    | Some _ => updateWhere (fun c => String.eqb (cr_creatorId c) creatorId) f rows
    | None => (rows ++ [new])%list
    end in
  In creatorId (map cr_creatorId rows') /\
  incl (map cr_creatorId rows) (map cr_creatorId rows') /\
  (NoDup (map cr_creatorId rows) -> NoDup (map cr_creatorId rows')).
Proof.
  intros Hnew Hf rows'. subst rows'.
  destruct (find (fun c => String.eqb (cr_creatorId c) creatorId) rows) as [c|] eqn:F.
  - rewrite creator_ids_after_update by exact Hf.
    split; [apply creator_found_by_id; now exists c | ].
    split; [apply incl_refl | auto].
  - rewrite map_app. cbn [map]. rewrite Hnew.
    split; [apply in_or_app; right; now left | ].
    split; [apply incl_appl, incl_refl | ].
    intros Hnd. apply NoDup_snoc; [exact Hnd | ].
    intros Hin. apply creator_found_by_id in Hin as [c Hc]. congruence.
Qed.

(** The subscriptions table after [ensureSubscription]. *)
Lemma subscription_rows_after_ensure (rows : list UserSubscription)
    (userId creatorId : string) (new : UserSubscription) :
  subscriptionKey new = (userId, creatorId) ->
  let rows' :=
    match find (fun s => String.eqb (us_userId s) userId &&
                         String.eqb (us_creatorId s) creatorId) rows with
    | Some _ => rows
    | None => (rows ++ [new])%list
    end in
  In (userId, creatorId) (map subscriptionKey rows') /\
  (NoDup (map subscriptionKey rows) -> NoDup (map subscriptionKey rows')) /\
  (forall s, In s rows' -> In s rows \/ us_creatorId s = creatorId).
Proof.
  intros Hnew rows'. subst rows'.
  destruct (find _ rows) as [s|] eqn:F.
  - apply find_some in F as [Hin E]. apply andb_true_iff in E as [E1 E2].
    apply String.eqb_eq in E1, E2.
    split; [ | split; [auto | auto] ].
    apply in_map_iff. exists s. split; [ | exact Hin].
    unfold subscriptionKey. now rewrite E1, E2.
  - rewrite map_app. cbn [map]. rewrite Hnew.
    split; [apply in_or_app; right; now left | ].
    split.
    + intros Hnd. apply NoDup_snoc; [exact Hnd | ].
      intros Hin. apply in_map_iff in Hin as (s & E & Hin).
      apply (find_none _ _ F) in Hin. cbv beta in Hin.
      unfold subscriptionKey in E. injection E as E1 E2.
      rewrite E1, E2, !String.eqb_refl in Hin. discriminate.
    + intros s Hin. apply in_app_or in Hin as [Hin | [<- | []]]; [now left | right].
      unfold subscriptionKey in Hnew. now injection Hnew.
Qed.

Lemma upsertSubstackCreator_effect (creatorId : string) (post : SubstackPost) (st : State) :
  exists new,
    cr_creatorId new = creatorId /\ cr_name new = sp_author post /\
    cr_externalId new = sp_authorEmail post /\ cr_sourceType new = "substack" /\
    upsertSubstackCreator creatorId post st =
    (Ret tt,
     set_creators
       (fun rows =>
          match find (fun c => String.eqb (cr_creatorId c) creatorId) rows with
          | Some _ => updateWhere (fun c => String.eqb (cr_creatorId c) creatorId)
                                  (withName (sp_author post) (nowAt (clockReads st))) rows
          | None => (rows ++ [new])%list
          end)
       (tick_clock st)).
Proof.
  unfold upsertSubstackCreator. run_monad. simpl_state.
  eexists (mkCreator creatorId "substack" (sp_authorEmail post) (sp_author post) _ None _ _ _).
  cbn [cr_creatorId cr_name cr_externalId cr_sourceType].
  do 4 (split; [reflexivity | ]).
  unfold set_creators. simpl_state.
  destruct (find _ (creators st)); reflexivity.
Qed.

Lemma ensureSubscription_effect (userId creatorId : string) (st : State) :
  exists new,
    subscriptionKey new = (userId, creatorId) /\
    ensureSubscription userId creatorId st =
    (Ret tt,
     match find (fun s => String.eqb (us_userId s) userId &&
                          String.eqb (us_creatorId s) creatorId) (userSubscriptions st) with
     | Some _ => st
     | None => set_userSubscriptions (fun rows => (rows ++ [new])%list) (tick_clock st)
     end).
Proof.
  unfold ensureSubscription. run_monad.
  eexists (mkUserSubscription userId creatorId None _ true true).
  split; [reflexivity | ].
  destruct (find _ (userSubscriptions st)); reflexivity.
Qed.

Lemma bind_run {A B : Type} (m : M A) (k : A -> M B) (st st1 : State) (a : A) :
  m st = (Ret a, st1) -> bind m k st = k a st1.
Proof. unfold bind. now intros ->. Qed.

(** One iteration of the ingestion loop, with every table it writes. *)
Lemma ingestMessage_cases (userId conn : string) (t : Tally) (m : GmailMessage) (st : State) :
  let r := ingestMessage userId conn t m st in
  ((seenIn (gmailProcessedMessages st) (msg_id m) = true \/ parseSubstackPost m = None) /\
   r = (Ret (mkTally (processed t) (S (skipped t))), st))
  \/
  (exists post old row,
     parseSubstackPost m = Some post /\
     find (fun p => String.eqb (pm_contentHash p) (generateMailContentHash post))
          (gmailProcessedMessages st) = Some old /\
     fst r = Ret (mkTally (processed t) (S (skipped t))) /\
     gmailProcessedMessages (snd r) = (gmailProcessedMessages st ++ [row])%list /\
     pm_contentId row = pm_contentId old /\
     pm_contentHash row = generateMailContentHash post /\
     creators (snd r) = creators st /\ contentItems (snd r) = contentItems st /\
     userSubscriptions (snd r) = userSubscriptions st /\
     rssSources (snd r) = rssSources st)
  \/
  (exists post item row,
     parseSubstackPost m = Some post /\
     find (fun p => String.eqb (pm_contentHash p) (generateMailContentHash post))
          (gmailProcessedMessages st) = None /\
     fst r = Ret (mkTally (S (processed t)) (skipped t)) /\
     contentItems (snd r) = (contentItems st ++ [item])%list /\
     ci_sourceType item = "substack" /\ ci_mediaType item = "article" /\
     ci_contentHash item = Some (generateMailContentHash post) /\
     ci_externalId item = sp_postUrl post /\
     ci_creatorId item = "substack-" ++ dashNonAlnum (sp_authorEmail post) /\
     gmailProcessedMessages (snd r) = (gmailProcessedMessages st ++ [row])%list /\
     pm_contentId row = Some (ci_contentId item) /\
     pm_contentHash row = generateMailContentHash post /\
     In (ci_creatorId item) (map cr_creatorId (creators (snd r))) /\
     incl (map cr_creatorId (creators st)) (map cr_creatorId (creators (snd r))) /\
     (NoDup (map cr_creatorId (creators st)) ->
      NoDup (map cr_creatorId (creators (snd r)))) /\
     In (userId, ci_creatorId item) (map subscriptionKey (userSubscriptions (snd r))) /\
     (NoDup (map subscriptionKey (userSubscriptions st)) ->
      NoDup (map subscriptionKey (userSubscriptions (snd r)))) /\
     (forall s, In s (userSubscriptions (snd r)) ->
        In s (userSubscriptions st) \/ us_creatorId s = ci_creatorId item) /\
     rssSources (snd r) = rssSources st).
Proof.
  intros r. subst r. unfold ingestMessage, isMessageProcessed, seenIn. run_monad.
  destruct (existsb _ (gmailProcessedMessages st)) eqn:Eseen; [left; auto | ].
  destruct (parseSubstackPost m) as [post | ] eqn:Eparse; [ | left; auto].
  right.
  destruct (find _ (gmailProcessedMessages st)) as [old | ] eqn:Ehash.
  - left. unfold recordProcessed. run_monad. simpl_state.
    eexists post, old, _. split; [reflexivity | ]. split; [exact Ehash | ].
    repeat (split; [reflexivity | ]). reflexivity.
  - right.
    set (creatorId := "substack-" ++ dashNonAlnum (sp_authorEmail post)).
    destruct (upsertSubstackCreator_effect creatorId post st)
      as (newCreator & HnewId & _ & _ & _ & ->).
    pose proof (creator_rows_after_upsert (creators st) creatorId
                  (withName (sp_author post) (nowAt (clockReads st))) newCreator HnewId
                  (fun c => eq_refl)) as Hcreators.
    cbv zeta in Hcreators.
    unfold createContentItem, recordProcessed. run_monad. simpl_state.
    match goal with
    | |- context [ensureSubscription userId creatorId ?s] =>
        destruct (ensureSubscription_effect userId creatorId s) as (newSub & HsubKey & ->);
        pose proof (subscription_rows_after_ensure (userSubscriptions s) userId creatorId
                      newSub HsubKey) as Hsubs
    end.
    cbv zeta in Hsubs. simpl_state. simpl_state in Hsubs.
    eexists post, _, _.
    split; [reflexivity | ]. split; [exact Ehash | ].
    destruct (find _ (userSubscriptions st)) as [s | ] eqn:Esub; simpl_state;
      destruct Hcreators as (Hc1 & Hc2 & Hc3); destruct Hsubs as (Hs1 & Hs2 & Hs3);
      (repeat (split; [reflexivity | ]);
       cbn [ci_creatorId ci_contentId];
       split; [exact Hc1 | ]; split; [exact Hc2 | ]; split; [exact Hc3 | ];
       split; [exact Hs1 | ]; split; [exact Hs2 | ]; split; [exact Hs3 | reflexivity]).
Qed.

Lemma find_updated_creator (creatorId : string) (f : Creator -> Creator)
    (rows : list Creator) :
  (forall c, cr_creatorId (f c) = cr_creatorId c) ->
  find (fun c => String.eqb (cr_creatorId c) creatorId)
       (updateWhere (fun c => String.eqb (cr_creatorId c) creatorId) f rows) =
  option_map f (find (fun c => String.eqb (cr_creatorId c) creatorId) rows).
Proof.
  intros Hf. induction rows as [|c rows IH]; [reflexivity | ].
  cbn [updateWhere map find]. destruct (String.eqb (cr_creatorId c) creatorId) eqn:E.
  - rewrite Hf, E. reflexivity.
  - rewrite E. exact IH.
Qed.

Lemma find_in_appended {A : Type} (p : A -> bool) (rows more : list A) :
  find p rows = None -> find p (rows ++ more)%list = find p more.
Proof.
  induction rows as [|r rows IH]; [reflexivity | ].
  cbn [app find]. destruct (p r); [discriminate | exact IH].
Qed.

(** X7: the creator upsert of the Gmail service always leaves a creator
    row under the identifier, named after the author of the post.  When a
    row was there it is updated in place: no row is added, and the sender
    address, handle, profile address and first-seen time of the row stay
    those of the earlier post, whatever the new post says; when none was
    there one row is appended that takes the sender address of the post.
    Content, ledger and subscriptions are not touched. *)
Theorem mailbox_creator_is_updated_in_place
    (creatorId : string) (post : SubstackPost) (st : State) :
  let r := upsertSubstackCreator creatorId post st in
  fst r = Ret tt /\
  contentItems (snd r) = contentItems st /\
  gmailProcessedMessages (snd r) = gmailProcessedMessages st /\
  userSubscriptions (snd r) = userSubscriptions st /\
  exists row,
    find (fun c => String.eqb (cr_creatorId c) creatorId) (creators (snd r)) = Some row /\
    cr_name row = sp_author post /\
    (forall old,
       find (fun c => String.eqb (cr_creatorId c) creatorId) (creators st) = Some old ->
       List.length (creators (snd r)) = List.length (creators st) /\
       cr_externalId row = cr_externalId old /\ cr_handle row = cr_handle old /\
       cr_profileUrl row = cr_profileUrl old /\ cr_firstSeenAt row = cr_firstSeenAt old) /\
    (find (fun c => String.eqb (cr_creatorId c) creatorId) (creators st) = None ->
     creators (snd r) = (creators st ++ [row])%list /\
     cr_creatorId row = creatorId /\ cr_externalId row = sp_authorEmail post).
Proof.
  intros r. subst r.
  destruct (upsertSubstackCreator_effect creatorId post st)
    as (new & Hid & Hname & Hext & _ & ->).
  simpl_state. do 4 (split; [reflexivity | ]).
  destruct (find _ (creators st)) as [old|] eqn:F.
  - exists (withName (sp_author post) (nowAt (clockReads st)) old).
    split; [rewrite find_updated_creator, F by reflexivity; reflexivity | ].
    split; [reflexivity | ]. split; [ | discriminate].
    intros old' E. injection E as <-.
    split; [unfold updateWhere; apply length_map | ]. repeat split.
  - exists new. split.
    + rewrite (find_in_appended _ _ _ F). cbn [find]. now rewrite Hid, String.eqb_refl.
    + split; [exact Hname | ]. split; [discriminate | ]. intros _. auto.
Qed.

Lemma ledger_hash_absent (h : string) (ledger : list ProcessedMessage) :
  find (fun p => String.eqb (pm_contentHash p) h) ledger = None ->
  ~ In h (map pm_contentHash ledger).
Proof.
  intros F Hin. apply in_map_iff in Hin as (p & E & Hin).
  apply (find_none _ _ F) in Hin. cbv beta in Hin.
  rewrite E, String.eqb_refl in Hin. discriminate.
Qed.

Lemma ingestMessage_keeps_keys (userId conn : string) (t : Tally) (m : GmailMessage)
    (st : State) :
  keysAndReferences st -> keysAndReferences (snd (ingestMessage userId conn t m st)).
Proof.
  intros (I1 & I2 & I3 & I4 & I5).
  destruct (ingestMessage_cases userId conn t m st) as [[_ ->] | [Hdup | Hnew]].
  - repeat split; assumption.
  - destruct Hdup as (post & old & row & _ & Hfind & _ & Hledger & Hcid & _ & Hc & Hi & Hs & _).
    unfold keysAndReferences. rewrite Hledger, Hc, Hi, Hs.
    split; [exact I1 | ]. split; [exact I2 | ]. split; [ | split; assumption].
    intros p id Hin Hp. apply in_app_or in Hin as [Hin | [<- | []]].
    + now apply (I3 p).
    + apply find_some in Hfind as [Hold _]. apply (I3 old); congruence.
  - destruct Hnew as (post & item & row & _ & _ & _ & Hitems & _ & _ & _ & _ & _ & Hledger &
                      Hcid & _ & Hc1 & Hc2 & Hc3 & _ & Hs2 & Hs3 & _).
    unfold keysAndReferences. rewrite Hledger, Hitems.
    split; [auto | ]. split; [auto | ]. split; [ | split].
    + intros p id Hin Hp. rewrite map_app. apply in_or_app.
      apply in_app_or in Hin as [Hin | [<- | []]].
      * left. now apply (I3 p).
      * right. left. congruence.
    + intros c Hin. apply in_app_or in Hin as [Hin | [<- | []]].
      * apply Hc2. now apply I4.
      * exact Hc1.
    + intros s Hin. destruct (Hs3 s Hin) as [Hold | ->].
      * apply Hc2. now apply I5.
      * exact Hc1.
Qed.

Lemma ingest_loop_invariant (P : State -> Prop) (userId conn : string) :
  (forall t m s, P s -> P (snd (ingestMessage userId conn t m s))) ->
  forall ms t st, P st -> P (snd (foldM (ingestMessage userId conn) ms t st)).
Proof.
  intros Hstep. induction ms as [|m ms IH]; intros t st HP; [exact HP | ].
  cbn [foldM]. unfold bind.
  pose proof (Hstep t m st HP) as H1.
  destruct (ingestMessage userId conn t m st) as [[t' | e] s1]; cbn [snd] in H1.
  - now apply IH.
  - exact H1.
Qed.

Lemma ingestSubstackPosts_tables (userId conn : string) (ms : list GmailMessage) (st : State) :
  let loop := snd (foldM (ingestMessage userId conn) ms (mkTally 0 0) st) in
  let st' := snd (ingestSubstackPosts userId conn ms st) in
  creators st' = creators loop /\ contentItems st' = contentItems loop /\
  gmailProcessedMessages st' = gmailProcessedMessages loop /\
  userSubscriptions st' = userSubscriptions loop /\ rssSources st' = rssSources loop.
Proof.
  cbv zeta.
  destruct (ingest_loop_returns userId conn ms (mkTally 0 0) st) as (t & st1 & E & _).
  rewrite (ingestSubstackPosts_unfold _ _ _ _ _ _ E), E. simpl_state. repeat split.
Qed.

(** X8: the mailbox ingestion keeps the keys and references of the
    schema: from a store in which creator identifiers and subscription
    keys are unique and every ledger row, content item and subscription
    points at an existing row, a run over any inbox ends in such a store. *)
Theorem ingest_keeps_keys_and_references
    (userId conn : string) (messages : list GmailMessage) (st : State) :
  keysAndReferences st ->
  keysAndReferences (snd (ingestSubstackPosts userId conn messages st)).
Proof.
  intros H.
  pose proof (ingest_loop_invariant keysAndReferences userId conn
                (ingestMessage_keeps_keys userId conn) messages (mkTally 0 0) st H) as Hloop.
  destruct (ingestSubstackPosts_tables userId conn messages st) as (Ec & Ei & El & Es & _).
  unfold keysAndReferences in *. rewrite Ec, Ei, El, Es. exact Hloop.
Qed.

Lemma substackHashes_snoc (rows : list ContentItem) (item : ContentItem) (h : string) :
  ci_sourceType item = "substack" -> ci_contentHash item = Some h ->
  substackHashes (rows ++ [item])%list = (substackHashes rows ++ [h])%list.
Proof.
  intros Ht Hh. unfold substackHashes. rewrite flat_map_app. cbn [flat_map].
  rewrite Ht, Hh. reflexivity.
Qed.

Lemma ingestMessage_keeps_unique (userId conn : string) (t : Tally) (m : GmailMessage)
    (st : State) :
  mailboxContentUnique st -> mailboxContentUnique (snd (ingestMessage userId conn t m st)).
Proof.
  intros (U1 & U2).
  destruct (ingestMessage_cases userId conn t m st) as [[_ ->] | [Hdup | Hnew]].
  - split; assumption.
  - destruct Hdup as (post & old & row & _ & _ & _ & Hledger & _ & _ & _ & Hi & _).
    unfold mailboxContentUnique. rewrite Hledger, Hi, map_app.
    split; [exact U1 | ]. apply incl_appl. exact U2.
  - destruct Hnew as (post & item & row & _ & Hfind & _ & Hitems & Htype & _ & Hhash & _ & _ &
                      Hledger & _ & Hrow & _).
    unfold mailboxContentUnique.
    rewrite Hledger, Hitems, (substackHashes_snoc _ _ _ Htype Hhash), map_app.
    cbn [map]. rewrite Hrow. split.
    + apply NoDup_snoc; [exact U1 | ].
      intros Hin. apply (ledger_hash_absent _ _ Hfind). now apply U2.
    + apply incl_app; [apply incl_appl; exact U2 | ].
      apply incl_appr, incl_refl.
Qed.

(** X9: the mailbox ingestion never stores one post twice: when no two
    mailbox content items share a content hash and the ledger knows the
    hash of each of them, the same holds after a run over any inbox,
    whatever the inbox repeats. *)
Theorem ingest_keeps_mailbox_content_unique
    (userId conn : string) (messages : list GmailMessage) (st : State) :
  mailboxContentUnique st ->
  mailboxContentUnique (snd (ingestSubstackPosts userId conn messages st)).
Proof.
  intros H.
  pose proof (ingest_loop_invariant mailboxContentUnique userId conn
                (ingestMessage_keeps_unique userId conn) messages (mkTally 0 0) st H) as Hloop.
  destruct (ingestSubstackPosts_tables userId conn messages st) as (_ & Ei & El & _).
  unfold mailboxContentUnique in *. rewrite Ei, El. exact Hloop.
Qed.

End MailboxInvariants.

Lemma mailbox_creator_is_updated_in_place_witness :
  let st := snd (@ingestSubstackPosts demoRuntime "user-1" "conn-1" demoInbox emptyState) in
  let post := mkSubstackPost "m9" "J. Doe" "jane.doe" "Later"
                "https://jane.substack.com/p/later" "" "2024-06-02T00:00:00Z" "<p>" in
  exists old,
    find (fun c => String.eqb (cr_creatorId c) "substack-Jane-Doe") (creators st) = Some old /\
    exists row,
      find (fun c => String.eqb (cr_creatorId c) "substack-Jane-Doe")
           (creators (snd (@upsertSubstackCreator demoRuntime "substack-Jane-Doe" post st)))
        = Some row /\
      cr_name row = "J. Doe" /\ cr_externalId row = cr_externalId old /\
      List.length (creators (snd (@upsertSubstackCreator demoRuntime "substack-Jane-Doe"
                                     post st))) = List.length (creators st).
Proof.
  cbv zeta.
  set (st := snd (@ingestSubstackPosts demoRuntime "user-1" "conn-1" demoInbox emptyState)).
  set (post := mkSubstackPost _ _ _ _ _ _ _ _).
  destruct (find (fun c => String.eqb (cr_creatorId c) "substack-Jane-Doe") (creators st))
    as [old|] eqn:F; [ | vm_compute in F; discriminate F].
  exists old. split; [reflexivity | ].
  destruct (@mailbox_creator_is_updated_in_place demoRuntime "substack-Jane-Doe" post st)
    as (_ & _ & _ & _ & row & Hfind & Hname & Hold & _).
  exists row. split; [exact Hfind | ]. split; [exact Hname | ].
  destruct (Hold old F) as (Hlen & Hext & _). split; [exact Hext | exact Hlen].
Defined.

Lemma ingest_keeps_keys_and_references_witness :
  keysAndReferences emptyState /\
  keysAndReferences
    (snd (@ingestSubstackPosts demoRuntime "user-1" "conn-1" demoInbox emptyState)).
Proof.
  assert (H : keysAndReferences emptyState).
  { unfold keysAndReferences, emptyState. cbn.
    split; [constructor | ]. split; [constructor | ].
    split; [intros p id [] | ]. split; [intros c [] | intros s []]. }
  split; [exact H | ].
  exact (@ingest_keeps_keys_and_references demoRuntime "user-1" "conn-1" demoInbox
           emptyState H).
Defined.

Lemma ingest_keeps_mailbox_content_unique_witness :
  mailboxContentUnique emptyState /\
  mailboxContentUnique
    (snd (@ingestSubstackPosts demoRuntime "user-1" "conn-1" demoInbox emptyState)).
Proof.
  assert (H : mailboxContentUnique emptyState).
  { unfold mailboxContentUnique, emptyState. cbn. split; [constructor | intros h []]. }
  split; [exact H | ].
  exact (@ingest_keeps_mailbox_content_unique demoRuntime "user-1" "conn-1" demoInbox
           emptyState H).
Defined.

Section MailboxContent.
Context {RT : Runtime}.

Lemma ingest_loop_content (userId conn : string) (ms : list GmailMessage) :
  forall t st, exists t' st' added,
    foldM (ingestMessage userId conn) ms t st = (Ret t', st') /\
    contentItems st' = (contentItems st ++ added)%list /\
    processed t' = processed t + List.length added /\
    Forall (fun c =>
              ci_sourceType c = "substack" /\ ci_mediaType c = "article" /\
              exists m post,
                In m ms /\ parseSubstackPost m = Some post /\
                ci_contentHash c = Some (generateMailContentHash post) /\
                ci_externalId c = sp_postUrl post /\
                ci_creatorId c = "substack-" ++ dashNonAlnum (sp_authorEmail post)) added /\
    rssSources st' = rssSources st.
Proof.
  induction ms as [|m ms IH]; intros t st.
  - exists t, st, []. cbn [foldM]. unfold ret. rewrite app_nil_r. cbn [List.length].
    repeat split; [lia | constructor].
  - pose proof (ingestMessage_cases userId conn t m st) as Hcases. cbv zeta in Hcases.
    destruct (ingestMessage userId conn t m st) as [o s1] eqn:E. cbn [fst snd] in Hcases.
    assert (Hstep : exists t1 (new : list ContentItem),
              o = Ret t1 /\ contentItems s1 = (contentItems st ++ new)%list /\
              processed t1 = processed t + List.length new /\
              rssSources s1 = rssSources st /\
              Forall (fun c =>
                ci_sourceType c = "substack" /\ ci_mediaType c = "article" /\
                exists post,
                  parseSubstackPost m = Some post /\
                  ci_contentHash c = Some (generateMailContentHash post) /\
                  ci_externalId c = sp_postUrl post /\
                  ci_creatorId c = "substack-" ++ dashNonAlnum (sp_authorEmail post)) new).
    { destruct Hcases as [[_ Hskip] | [Hdup | Hnew]].
      - injection Hskip as -> ->. eexists _, []. rewrite app_nil_r.
        split; [reflexivity | ]. split; [reflexivity | ].
        split; [cbn [processed List.length]; lia | ]. split; [reflexivity | constructor].
      - destruct Hdup as (post & old & row & _ & _ & -> & _ & _ & _ & _ & Hi & _ & Hr).
        eexists _, []. rewrite app_nil_r.
        split; [reflexivity | ]. split; [exact Hi | ].
        split; [cbn [processed List.length]; lia | ]. split; [exact Hr | constructor].
      - destruct Hnew as (post & item & row & Hparse & _ & -> & Hitems & Htype & Hmedia &
                          Hhash & Hext & Hcid & Hrest).
        eexists _, [item].
        split; [reflexivity | ]. split; [exact Hitems | ].
        split; [cbn [processed List.length]; lia | ].
        split; [apply Hrest | ].
        constructor; [ | constructor].
        split; [exact Htype | ]. split; [exact Hmedia | ]. exists post. auto. }
    destruct Hstep as (t1 & new & -> & Hitems & Hcount & Hsrc & Hnew).
    destruct (IH t1 s1) as (t' & st' & added & Hrun & Hitems' & Hcount' & Hadded & Hsrc').
    exists t', st', (new ++ added)%list.
    cbn [foldM]. rewrite (bind_run _ _ _ _ _ E).
    split; [exact Hrun | ].
    split; [rewrite Hitems', Hitems, app_assoc; reflexivity | ].
    split; [rewrite Hcount', Hcount, length_app; lia | ].
    split; [ | congruence].
    apply Forall_app. split.
    + eapply Forall_impl; [ | exact Hnew]. cbv beta.
      intros c (H1 & H2 & post & H3). split; [exact H1 | ]. split; [exact H2 | ].
      exists m, post. split; [now left | exact H3].
    + eapply Forall_impl; [ | exact Hadded]. cbv beta.
      intros c (H1 & H2 & m' & post & Hin & H3). split; [exact H1 | ]. split; [exact H2 | ].
      exists m', post. split; [now right | exact H3].
Qed.

(** X10: the count of processed posts that [ingestSubstackPosts] returns
    is the number of content items it created; the items are appended to
    the table, earlier rows staying as they were; each is a substack
    article that carries the mailbox hash, the post address and the
    slugged creator identifier of a post extracted from a message of the
    inbox; and the feed sources are not touched. *)
Theorem processed_counts_created_items
    (userId conn : string) (messages : list GmailMessage) (st : State) :
  exists t st' added,
    ingestSubstackPosts userId conn messages st = (Ret t, st') /\
    contentItems st' = (contentItems st ++ added)%list /\
    List.length added = processed t /\
    Forall (fun c =>
              ci_sourceType c = "substack" /\ ci_mediaType c = "article" /\
              exists m post,
                In m messages /\ parseSubstackPost m = Some post /\
                ci_contentHash c = Some (generateMailContentHash post) /\
                ci_externalId c = sp_postUrl post /\
                ci_creatorId c = "substack-" ++ dashNonAlnum (sp_authorEmail post)) added /\
    rssSources st' = rssSources st.
Proof.
  destruct (ingest_loop_content userId conn messages (mkTally 0 0) st)
    as (t & st1 & added & Hrun & Hitems & Hcount & Hadded & Hsrc).
  exists t. eexists. exists added.
  split; [exact (ingestSubstackPosts_unfold _ _ _ _ _ _ Hrun) | ].
  cbn [contentItems rssSources set_gmailConnections tick_clock].
  split; [exact Hitems | ]. split; [cbn [processed] in Hcount; lia | ].
  split; [exact Hadded | exact Hsrc].
Qed.

End MailboxContent.

(** ** The feed side of the store *)

Section FeedStoreProperties.
Context {RT : Runtime}.

Ltac run_monad :=
  cbv [bind ret gets modify nowISO nanoid throw tryCatch].

Ltac simpl_state :=
  cbn [rssSources creators contentItems gmailProcessedMessages userSubscriptions
       gmailConnections nanoidCalls clockReads fetchCalls
       set_rssSources set_creators set_contentItems set_gmailProcessedMessages
       set_userSubscriptions set_gmailConnections tick_nanoid tick_clock tick_fetch
       fst snd].

Lemma truncateText_bound (text : string) (maxLength : nat) :
  3 <= maxLength -> String.length (truncateText text maxLength) <= maxLength.
Proof.
  intros H. unfold truncateText.
  destruct (String.length text <=? maxLength)%nat eqn:E.
  - now apply Nat.leb_le.
  - rewrite append_length, substringTo_length. cbn [String.length]. lia.
Qed.

Lemma rssHashes_absent (h : string) (rows : list ContentItem) :
  findRssByHash h rows = None -> ~ In h (rssHashes rows).
Proof.
  unfold findRssByHash, rssHashes. induction rows as [|c rows IH]; [intros _ [] | ].
  cbn [find flat_map]. destruct (String.eqb (ci_sourceType c) "rss"); cbn [andb].
  - destruct (ci_contentHash c) as [x|]; cbn [sqlEq].
    + destruct (String.eqb x h) eqn:E; [discriminate | ].
      intros F [Hx | Hin]; [ | now apply IH].
      subst x. rewrite String.eqb_refl in E. discriminate.
    + exact IH.
  - exact IH.
Qed.

Lemma rssHashes_snoc (rows : list ContentItem) (row : ContentItem) (h : string) :
  ci_sourceType row = "rss" -> ci_contentHash row = Some h ->
  rssHashes (rows ++ [row])%list = (rssHashes rows ++ [h])%list.
Proof.
  intros Ht Hh. unfold rssHashes. rewrite flat_map_app. cbn [flat_map].
  rewrite Ht, Hh. reflexivity.
Qed.

Lemma upsert_loop_unique (creatorId now : string) (posts : list ParsedFeedItem) :
  forall n st,
    NoDup (rssHashes (contentItems st)) ->
    NoDup (rssHashes (contentItems (snd (foldM (upsertPost creatorId now) posts n st)))).
Proof.
  induction posts as [|post posts IH]; intros n st Hnd; [exact Hnd | ].
  cbn [foldM].
  destruct (upsertPost_spec creatorId now n post st) as [[_ E] | [Hmiss E]];
    rewrite (bind_run _ _ _ _ _ E); apply IH; [exact Hnd | ].
  simpl_state. rewrite (rssHashes_snoc _ _ (hash post)) by reflexivity.
  apply NoDup_snoc; [exact Hnd | now apply rssHashes_absent].
Qed.

(** X11: [upsertPosts] only appends: the count it returns is the number
    of rows it added after the rows that were there; every added row is
    an rss article of the given creator, stamped with the time read at
    the start of the call, with a description of at most 500 characters,
    and takes its title, address, publication time, hash and external
    identity (the guid, else the address) from a post of the batch; and
    when the stored feed hashes were pairwise distinct they still are.
    Creators, sources and the mailbox ledger are not touched. *)
Theorem upserted_rows_are_feed_articles
    (creatorId : string) (posts : list ParsedFeedItem) (st : State) :
  exists n added st',
    upsertPosts creatorId posts st = (Ret n, st') /\
    n = List.length added /\
    contentItems st' = (contentItems st ++ added)%list /\
    Forall (fun row =>
              ci_sourceType row = "rss" /\ ci_mediaType row = "article" /\
              ci_creatorId row = creatorId /\ ci_addedAt row = nowAt (clockReads st) /\
              ci_updatedAt row = None /\ ci_isArchived row = false /\
              (exists d, ci_description row = Some d /\ String.length d <= 500) /\
              exists p,
                In p posts /\ ci_title row = title p /\ ci_contentUrl row = url p /\
                ci_publishedAt row = publishedAt p /\ ci_contentHash row = Some (hash p) /\
                ci_externalId row = orDefault (guid p) (url p)) added /\
    (NoDup (rssHashes (contentItems st)) -> NoDup (rssHashes (contentItems st'))) /\
    creators st' = creators st /\ rssSources st' = rssSources st /\
    gmailProcessedMessages st' = gmailProcessedMessages st.
Proof.
  destruct (upsert_loop_spec creatorId (nowAt (clockReads st)) posts 0 (tick_clock st))
    as (added & st' & Hrun & Hitems & _ & Hadded & Hsrc & Hcr & Hled & _).
  exists (List.length added), added, st'.
  rewrite upsertPosts_unfold.
  split; [exact Hrun | ]. split; [reflexivity | ]. split; [exact Hitems | ].
  split; [ | split; [ | auto] ].
  - eapply Forall_impl; [ | exact Hadded]. cbv beta.
    intros row (p & id & Hin & ->).
    cbn [newContentItem ci_sourceType ci_mediaType ci_creatorId ci_addedAt ci_updatedAt
         ci_isArchived ci_description ci_title ci_contentUrl ci_publishedAt ci_contentHash
         ci_externalId].
    do 6 (split; [reflexivity | ]).
    split; [eexists; split; [reflexivity | apply truncateText_bound; lia] | ].
    exists p. repeat split. exact Hin.
  - intros Hnd.
    pose proof (upsert_loop_unique creatorId (nowAt (clockReads st)) posts 0
                  (tick_clock st) Hnd) as H.
    rewrite Hrun in H. exact H.
Qed.

Lemma find_updateWhere_stable {A : Type} (p q : A -> bool) (f : A -> A) (rows : list A) :
  (forall r, p (f r) = p r) ->
  find p (updateWhere q f rows) =
  option_map (fun r => if q r then f r else r) (find p rows).
Proof.
  intros Hf. induction rows as [|r rows IH]; [reflexivity | ].
  cbn [updateWhere map find]. fold (updateWhere q f rows).
  destruct (q r) eqn:Q; [rewrite Hf | ];
    (destruct (p r); [cbn [option_map]; rewrite Q; reflexivity | exact IH]).
Qed.

Lemma upsertCreator_known (feedUrl_ title_ : string) (description_ : option string)
    (st : State) (row : Creator) :
  find (fun c => String.eqb (cr_sourceType c) "rss" &&
                 String.eqb (cr_externalId c) feedUrl_) (creators st) = Some row ->
  upsertCreator feedUrl_ title_ description_ st =
  (Ret (cr_creatorId row),
   set_creators
     (updateWhere (fun c => String.eqb (cr_creatorId c) (cr_creatorId row))
                  (withNameBio title_ (orElse description_ None) (nowAt (clockReads st))))
     (tick_clock st)).
Proof.
  intros F. unfold upsertCreator. run_monad. simpl_state. rewrite F. reflexivity.
Qed.

Lemma upsertCreator_effect (feedUrl_ title_ : string) (description_ : option string)
    (st : State) :
  exists row st',
    upsertCreator feedUrl_ title_ description_ st = (Ret (cr_creatorId row), st') /\
    find (fun c => String.eqb (cr_sourceType c) "rss" &&
                   String.eqb (cr_externalId c) feedUrl_) (creators st') = Some row /\
    cr_name row = title_ /\
    contentItems st' = contentItems st /\ rssSources st' = rssSources st /\
    gmailProcessedMessages st' = gmailProcessedMessages st.
Proof.
  destruct (find (fun c => String.eqb (cr_sourceType c) "rss" &&
                           String.eqb (cr_externalId c) feedUrl_) (creators st))
    as [old|] eqn:F.
  - exists (withNameBio title_ (orElse description_ None) (nowAt (clockReads st)) old).
    eexists. split; [exact (upsertCreator_known _ _ _ _ _ F) | ]. simpl_state.
    split; [ | repeat split].
    rewrite find_updateWhere_stable by reflexivity. rewrite F. cbn [option_map].
    now rewrite String.eqb_refl.
  - exists (mkCreator ("rss-" ++ nanoidAt (nanoidCalls st)) "rss" feedUrl_ title_ None
              (orElse description_ None) (Some feedUrl_) (nowAt (clockReads st))
              (Some (nowAt (clockReads st)))).
    eexists. split.
    + unfold upsertCreator. run_monad. simpl_state. rewrite F. reflexivity.
    + simpl_state. split; [ | repeat split].
      rewrite (find_in_appended _ _ _ F). cbn [find cr_sourceType cr_externalId].
      now rewrite !String.eqb_refl.
Qed.

(** X12: the creator upsert of the feed repository keys creators by feed
    address: after a call the first rss creator with the feed address is
    the one whose identifier was returned, and it bears the given title;
    a later call for the same address, with any title and description,
    returns the same identifier and adds no row.  Content items and
    sources are not touched. *)
Theorem feed_creator_upsert_round_trip
    (feedUrl_ title_ : string) (description_ : option string) (st : State) :
  let r := upsertCreator feedUrl_ title_ description_ st in
  exists creatorId row,
    fst r = Ret creatorId /\
    find (fun c => String.eqb (cr_sourceType c) "rss" &&
                   String.eqb (cr_externalId c) feedUrl_) (creators (snd r)) = Some row /\
    cr_creatorId row = creatorId /\ cr_name row = title_ /\
    contentItems (snd r) = contentItems st /\ rssSources (snd r) = rssSources st /\
    forall title2 description2,
      let r2 := upsertCreator feedUrl_ title2 description2 (snd r) in
      fst r2 = Ret creatorId /\
      List.length (creators (snd r2)) = List.length (creators (snd r)).
Proof.
  intros r. subst r.
  destruct (upsertCreator_effect feedUrl_ title_ description_ st)
    as (row & st' & -> & Hfind & Hname & Hitems & Hsrc & _).
  cbn [fst snd]. exists (cr_creatorId row), row.
  split; [reflexivity | ]. split; [exact Hfind | ]. split; [reflexivity | ].
  split; [exact Hname | ]. split; [exact Hitems | ]. split; [exact Hsrc | ].
  intros title2 description2.
  rewrite (upsertCreator_known _ _ _ _ _ Hfind). simpl_state.
  split; [reflexivity | ]. unfold updateWhere. apply length_map.
Qed.

End FeedStoreProperties.

Lemma upserted_rows_are_feed_articles_witness :
  NoDup (rssHashes (contentItems emptyState)) /\
  NoDup (rssHashes
           (contentItems (snd (@upsertPosts demoRuntime "rss-creator" firstSyncPosts
                                 emptyState)))).
Proof.
  assert (H : NoDup (rssHashes (contentItems emptyState))) by constructor.
  split; [exact H | ].
  destruct (@upserted_rows_are_feed_articles demoRuntime "rss-creator" firstSyncPosts
              emptyState) as (n & added & st' & E & _ & _ & _ & Hnd & _).
  rewrite E. exact (Hnd H).
Defined.

(** ** Parsing a fetched feed *)

Section ParserProperties.
Context {RT : Runtime}.

Lemma publishedAtOf_outcome (date : option string) (st : State) :
  (dateUsable date = true -> exists iso st', publishedAtOf date st = (Ret iso, st')) /\
  (dateUsable date = false -> publishedAtOf date st = (Throw "Invalid time value", st)).
Proof.
  unfold dateUsable, publishedAtOf.
  destruct (orElse date None) as [d|]; [destruct (dateToISO d) as [iso|] | ];
    split; intros H; try discriminate H.
  - exists iso, st. reflexivity.
  - reflexivity.
  - eexists _, _. reflexivity.
Qed.

(** A loop that maps a fallible step over a list returns one result per
    element when every step succeeds, and fails with the message of the
    steps as soon as one of them fails. *)
Lemma mapM_all_or_nothing {A B : Type} (f : A -> M B) (good : A -> bool)
    (Q : B -> Prop) (msg : string) :
  (forall a st, good a = true -> exists b st', f a st = (Ret b, st') /\ Q b) ->
  (forall a st, good a = false -> exists st', f a st = (Throw msg, st')) ->
  forall xs st,
    (forallb good xs = true ->
       exists ys st', mapM f xs st = (Ret ys, st') /\
                      List.length ys = List.length xs /\ Forall Q ys) /\
    (forallb good xs = false -> exists st', mapM f xs st = (Throw msg, st')).
Proof.
  intros Hgood Hbad. induction xs as [|x xs IH]; intros st.
  - split; [intros _ | discriminate]. exists [], st. repeat split. constructor.
  - cbn [forallb mapM]. destruct (good x) eqn:G; cbn [andb].
    + destruct (Hgood x st G) as (b & s1 & E & HQ).
      rewrite (bind_run _ _ _ _ _ E). destruct (IH s1) as [IHg IHb]. split; intros H.
      * destruct (IHg H) as (ys & s2 & E2 & Hlen & HF).
        rewrite (bind_run _ _ _ _ _ E2). exists (b :: ys), s2. unfold ret.
        cbn [List.length]. split; [reflexivity | ]. split; [congruence | now constructor].
      * destruct (IHb H) as (s2 & E2). exists s2. unfold bind. rewrite E2. reflexivity.
    + split; [discriminate | intros _].
      destruct (Hbad x st G) as (s1 & E). exists s1. unfold bind. rewrite E. reflexivity.
Qed.

(** X13: parsing a feed is all or nothing.  When the XML or JSON parser
    accepts the document and every item has a usable date (none, an empty
    one, or a valid one), the result has one item per feed item, each with
    a non-empty title (Untitled when it has none), a description, and a
    hash of 16 characters; when one item has a date the Date constructor
    rejects, the whole parse fails with Invalid time value and no item is
    returned; the message of a parser that rejects the document is passed
    on unchanged. *)
Theorem feed_parse_is_all_or_nothing (content : string) (st : State) :
  (forall raw, rssParserParseString content = inr raw ->
     (forallb (fun item => dateUsable (rp_pubDate item)) (rp_items raw) = true ->
        exists f st',
          parseRssOrAtom content st = (Ret f, st') /\
          List.length (items f) = List.length (rp_items raw) /\
          Forall (fun p => title p <> "" /\ description p <> None /\
                           String.length (hash p) = 16) (items f)) /\
     (forallb (fun item => dateUsable (rp_pubDate item)) (rp_items raw) = false ->
        exists st', parseRssOrAtom content st = (Throw "Invalid time value", st'))) /\
  (forall raw, jsonParse content = inr raw ->
     (forallb (fun item => dateUsable (jf_date_published item)) (jf_items raw) = true ->
        exists f st',
          parseJsonFeed content st = (Ret f, st') /\
          List.length (items f) = List.length (jf_items raw) /\
          Forall (fun p => title p <> "" /\ description p <> None /\
                           String.length (hash p) = 16) (items f)) /\
     (forallb (fun item => dateUsable (jf_date_published item)) (jf_items raw) = false ->
        exists st', parseJsonFeed content st = (Throw "Invalid time value", st'))) /\
  (forall msg, rssParserParseString content = inl msg ->
     parseRssOrAtom content st = (Throw msg, st)) /\
  (forall msg, jsonParse content = inl msg ->
     parseJsonFeed content st = (Throw msg, st)).
Proof.
  split; [ | split; [ | split] ].
  - intros raw Hraw. unfold parseRssOrAtom. rewrite Hraw.
    destruct (mapM_all_or_nothing parseRssItem
                (fun item => dateUsable (rp_pubDate item))
                (fun p => title p <> "" /\ description p <> None /\
                          String.length (hash p) = 16)
                "Invalid time value") with (xs := rp_items raw) (st := st) as [Hg Hb].
    + intros item s G. unfold parseRssItem.
      destruct (proj1 (publishedAtOf_outcome (rp_pubDate item) s) G) as (iso & s1 & E).
      rewrite (bind_run _ _ _ _ _ E). eexists _, _. split; [reflexivity | ].
      cbn [title description hash].
      split; [apply orDefault_nonempty; discriminate | ].
      split; [discriminate | apply generateContentHash_length].
    + intros item s G. unfold parseRssItem. exists s.
      unfold bind. rewrite (proj2 (publishedAtOf_outcome (rp_pubDate item) s) G). reflexivity.
    + split; intros H.
      * destruct (Hg H) as (ys & s1 & E & Hlen & HF).
        rewrite (bind_run _ _ _ _ _ E). eexists _, _. split; [reflexivity | ].
        cbn [items]. split; assumption.
      * destruct (Hb H) as (s1 & E). exists s1. unfold bind. rewrite E. reflexivity.
  - intros raw Hraw. unfold parseJsonFeed. rewrite Hraw.
    destruct (mapM_all_or_nothing parseJsonItem
                (fun item => dateUsable (jf_date_published item))
                (fun p => title p <> "" /\ description p <> None /\
                          String.length (hash p) = 16)
                "Invalid time value") with (xs := jf_items raw) (st := st) as [Hg Hb].
    + intros item s G. unfold parseJsonItem.
      destruct (proj1 (publishedAtOf_outcome (jf_date_published item) s) G)
        as (iso & s1 & E).
      rewrite (bind_run _ _ _ _ _ E). eexists _, _. split; [reflexivity | ].
      cbn [title description hash].
      split; [apply orDefault_nonempty; discriminate | ].
      split; [discriminate | apply generateContentHash_length].
    + intros item s G. unfold parseJsonItem. exists s.
      unfold bind.
      rewrite (proj2 (publishedAtOf_outcome (jf_date_published item) s) G). reflexivity.
    + split; intros H.
      * destruct (Hg H) as (ys & s1 & E & Hlen & HF).
        rewrite (bind_run _ _ _ _ _ E). eexists _, _. split; [reflexivity | ].
        cbn [items]. split; assumption.
      * destruct (Hb H) as (s1 & E). exists s1. unfold bind. rewrite E. reflexivity.
  - intros msg H. unfold parseRssOrAtom. rewrite H. reflexivity.
  - intros msg H. unfold parseJsonFeed. rewrite H. reflexivity.
Qed.

End ParserProperties.

Lemma feed_parse_is_all_or_nothing_witness :
  @rssParserParseString demoRuntime "FEED" =
    inr (mkRssParserOutput (Some "Example") (Some "A feed") None demoFeedItems) /\
  forallb (fun item => @dateUsable demoRuntime (rp_pubDate item)) demoFeedItems = true /\
  exists f st',
    @parseRssOrAtom demoRuntime "FEED" emptyState = (Ret f, st') /\
    List.length (items f) = 2.
Proof.
  assert (H1 : @rssParserParseString demoRuntime "FEED" =
               inr (mkRssParserOutput (Some "Example") (Some "A feed") None demoFeedItems))
    by reflexivity.
  assert (H2 : forallb (fun item => @dateUsable demoRuntime (rp_pubDate item))
                       demoFeedItems = true) by reflexivity.
  split; [exact H1 | ]. split; [exact H2 | ].
  destruct (proj1 (proj1 (@feed_parse_is_all_or_nothing demoRuntime "FEED" emptyState)
                     _ H1) H2) as (f & st' & E & Hlen & _).
  exists f, st'. split; [exact E | exact Hlen].
Defined.

(** ** Outcomes of feed discovery *)

Section DiscoveryOutcomes.
Context {RT : Runtime}.

Ltac simpl_state :=
  cbn [rssSources creators contentItems gmailProcessedMessages userSubscriptions
       gmailConnections nanoidCalls clockReads fetchCalls
       set_rssSources set_creators set_contentItems set_gmailProcessedMessages
       set_userSubscriptions set_gmailConnections tick_nanoid tick_clock tick_fetch
       fst snd].

Lemma bind_throw {A B : Type} (m : M A) (k : A -> M B) (st st1 : State) (e : string) :
  m st = (Throw e, st1) -> bind m k st = (Throw e, st1).
Proof. unfold bind. now intros ->. Qed.

Lemma checkFeedUrl_run (u : string) (timeout : nat) (st : State) :
  checkFeedUrl u timeout st =
  (Ret (classifyResponse u (fetchAt (fetchCalls st) u plainRequest)), tick_fetch st).
Proof. reflexivity. Qed.

Lemma tryWellKnownPaths_shape (base : string) (timeout : nat) (paths : list string) :
  forall st,
    let r := tryWellKnownPaths paths base timeout st in
    rssSources (snd r) = rssSources st /\ creators (snd r) = creators st /\
    contentItems (snd r) = contentItems st /\
    match fst r with
    | Ret (Some d) =>
        discoveryMethod d = WellKnownPath /\ siteUrl d = base /\
        fetchCalls st < fetchCalls (snd r) /\
        fetchCalls (snd r) <= fetchCalls st + List.length paths
    | Ret None => fetchCalls (snd r) = fetchCalls st + List.length paths
    | Throw msg => msg = "Invalid URL"
    end.
Proof.
  induction paths as [|path paths IH]; intros st; cbn [tryWellKnownPaths]; cbv zeta.
  - unfold ret. simpl_state. cbn [List.length]. repeat split. lia.
  - destruct (urlResolve path base) as [u|]; [ | unfold throw; simpl_state; auto].
    rewrite (bind_run _ _ _ _ _ (checkFeedUrl_run u timeout st)).
    destruct (usableCheck _) as [[u' t]|].
    + unfold ret. simpl_state. cbn [discoveryMethod siteUrl List.length].
      repeat split; lia.
    + specialize (IH (tick_fetch st)). cbv zeta in IH.
      destruct IH as (H1 & H2 & H3 & H4). revert H1 H2 H3 H4. simpl_state.
      intros H1 H2 H3 H4. split; [exact H1 | ]. split; [exact H2 | ]. split; [exact H3 | ].
      destruct (fst (tryWellKnownPaths paths base timeout (tick_fetch st))) as [[d|]|msg];
        cbn [List.length]; [ | lia | exact H4].
      destruct H4 as (Hm & Hs & Hlo & Hhi). repeat split; [exact Hm | exact Hs | lia | lia].
Qed.

Lemma firstVerifiedLink_shape (timeout : nat) (links : list (string * string)) :
  forall st,
    let r := firstVerifiedLink links timeout st in
    rssSources (snd r) = rssSources st /\ creators (snd r) = creators st /\
    contentItems (snd r) = contentItems st /\
    match fst r with
    | Ret (Some d) => discoveryMethod d = HtmlLinkTag /\ fetchCalls st < fetchCalls (snd r)
    | Ret None => fetchCalls st <= fetchCalls (snd r)
    | Throw _ => False
    end.
Proof.
  induction links as [|[u type] links IH]; intros st; cbn [firstVerifiedLink]; cbv zeta.
  - unfold ret. simpl_state. repeat split. lia.
  - destruct (linkFeedType type) as [t|]; [ | apply IH].
    rewrite (bind_run _ _ _ _ _ (checkFeedUrl_run u timeout st)).
    destruct (success _).
    + unfold ret. simpl_state. cbn [discoveryMethod]. repeat split. lia.
    + specialize (IH (tick_fetch st)). cbv zeta in IH.
      destruct IH as (H1 & H2 & H3 & H4). revert H1 H2 H3 H4. simpl_state.
      intros H1 H2 H3 H4. split; [exact H1 | ]. split; [exact H2 | ]. split; [exact H3 | ].
      destruct (fst (firstVerifiedLink links timeout (tick_fetch st))) as [[d|]|msg];
        [ | lia | exact H4].
      destruct H4 as (Hm & Hlo). split; [exact Hm | lia].
Qed.

Lemma discoverFeedFromHtml_shape (base : string) (timeout : nat) (st : State) :
  let r := discoverFeedFromHtml base timeout st in
  rssSources (snd r) = rssSources st /\ creators (snd r) = creators st /\
  contentItems (snd r) = contentItems st /\
  match fst r with
  | Ret (Some d) => discoveryMethod d = HtmlLinkTag /\ fetchCalls st + 2 <= fetchCalls (snd r)
  | Ret None => fetchCalls st + 1 <= fetchCalls (snd r)
  | Throw _ => False
  end.
Proof.
  cbv zeta. unfold discoverFeedFromHtml.
  assert (E : fetch base plainRequest st =
              (Ret (fetchAt (fetchCalls st) base plainRequest), tick_fetch st))
    by reflexivity.
  rewrite (bind_run _ _ _ _ _ E).
  destruct (fetchAt (fetchCalls st) base plainRequest) as [response | msg].
  - destruct (resolveLinks _ base) as [feedLinks|].
    + pose proof (firstVerifiedLink_shape timeout feedLinks (tick_fetch st)) as H.
      cbv zeta in H. destruct H as (H1 & H2 & H3 & H4). revert H1 H2 H3 H4. simpl_state.
      intros H1 H2 H3 H4. split; [exact H1 | ]. split; [exact H2 | ]. split; [exact H3 | ].
      destruct (fst (firstVerifiedLink feedLinks timeout (tick_fetch st))) as [[d|]|msg];
        [ | lia | exact H4].
      destruct H4 as (Hm & Hlo). split; [exact Hm | lia].
    + unfold ret. simpl_state. repeat split. lia.
  - unfold ret. simpl_state. repeat split. lia.
Qed.

(** X14: what [discoverFeed] can end in.  It leaves sources, creators and
    content alone.  A result always names the normalized site address
    and is never marked manual; a well-known-path result costs between
    one and eight requests, an HTML-link result at least ten (the eight
    probes, the page, a candidate).  A failure is either the TypeError of
    the URL constructor, thrown from the probing loop, or the
    no-feed-found message, which takes at least nine requests. *)
Theorem discovery_outcomes (site : string) (timeout : nat) (st : State) :
  let r := discoverFeed site timeout st in
  rssSources (snd r) = rssSources st /\ creators (snd r) = creators st /\
  contentItems (snd r) = contentItems st /\
  match fst r with
  | Ret d =>
      siteUrl d = normalizeSiteUrl site /\
      ((discoveryMethod d = WellKnownPath /\
        fetchCalls st < fetchCalls (snd r) /\ fetchCalls (snd r) <= fetchCalls st + 8) \/
       (discoveryMethod d = HtmlLinkTag /\ fetchCalls st + 10 <= fetchCalls (snd r)))
  | Throw msg =>
      msg = "Invalid URL" \/
      (msg = "No feed found for " ++ site ++ ". Please provide the feed URL manually." /\
       fetchCalls st + 9 <= fetchCalls (snd r))
  end.
Proof.
  cbv zeta. unfold discoverFeed. cbv zeta.
  pose proof (tryWellKnownPaths_shape (normalizeSiteUrl site) timeout WELL_KNOWN_PATHS st)
    as H.
  cbv zeta in H. change (List.length WELL_KNOWN_PATHS) with 8 in H.
  destruct (tryWellKnownPaths WELL_KNOWN_PATHS (normalizeSiteUrl site) timeout st)
    as [[[d|]|msg] s1] eqn:E; cbn [fst snd] in H; destruct H as (H1 & H2 & H3 & H4).
  - rewrite (bind_run _ _ _ _ _ E). unfold ret. cbn [fst snd].
    split; [exact H1 | ]. split; [exact H2 | ]. split; [exact H3 | ].
    destruct H4 as (Hm & Hs & Hlo & Hhi). split; [exact Hs | left; auto].
  - rewrite (bind_run _ _ _ _ _ E).
    pose proof (discoverFeedFromHtml_shape (normalizeSiteUrl site) timeout s1) as G.
    cbv zeta in G. unfold bind, tryCatch.
    destruct (discoverFeedFromHtml (normalizeSiteUrl site) timeout s1)
      as [[[d|]|msg] s2]; cbn [fst snd] in G; destruct G as (G1 & G2 & G3 & G4).
    + unfold ret. cbn [fst snd withSiteUrl siteUrl discoveryMethod].
      split; [congruence | ]. split; [congruence | ]. split; [congruence | ].
      split; [reflexivity | right]. destruct G4 as (Gm & Glo). split; [exact Gm | lia].
    + unfold ret, throw. cbn [fst snd].
      split; [congruence | ]. split; [congruence | ]. split; [congruence | ].
      right. split; [reflexivity | lia].
    + contradiction.
  - rewrite (bind_throw _ _ _ _ _ E). cbn [fst snd].
    split; [exact H1 | ]. split; [exact H2 | ]. split; [exact H3 | ]. left. exact H4.
Qed.

Lemma detectFeedType_feed_url (contentType u : string) :
  includes u "feed" = true -> detectFeedType contentType u <> None.
Proof.
  intros H. unfold detectFeedType. cbv zeta.
  destruct (includes (toLowerCase contentType) "application/rss+xml" ||
            includes (toLowerCase contentType) "application/xml"); [discriminate | ].
  destruct (includes (toLowerCase contentType) "application/atom+xml"); [discriminate | ].
  destruct (includes (toLowerCase contentType) "application/json" ||
            includes (toLowerCase contentType) "application/feed+json"); [discriminate | ].
  destruct (includes u "atom"); [discriminate | ].
  destruct (includes u "json"); [discriminate | ].
  rewrite H, orb_true_r. discriminate.
Qed.

(** X15: the first probe of discovery trusts the address.  When the
    address of /feed.xml under the site is answered with any 2xx
    response, whatever its body and content type, [discoverFeed] returns
    that address as a feed found by well-known path after this single
    request, with the type the content-type header or else the address
    suggests: a site that answers every address with a page is taken to
    have a feed. *)
Theorem any_page_at_feed_path_passes_for_a_feed
    (site : string) (timeout : nat) (st : State) (v : string) (response : Response) :
  urlResolve "/feed.xml" (normalizeSiteUrl site) = Some v ->
  v <> "" ->
  includes v "feed" = true ->
  fetchAt (fetchCalls st) v plainRequest = Replied response ->
  ok response = true ->
  exists d,
    discoverFeed site timeout st = (Ret d, tick_fetch st) /\
    feedUrl d = v /\ discoveryMethod d = WellKnownPath /\
    siteUrl d = normalizeSiteUrl site /\
    detectFeedType (orDefault (header_content_type response) "") v = Some (feedType d).
Proof.
  intros Hv Hne Hfeed Hfetch Hok.
  destruct (detectFeedType (orDefault (header_content_type response) "") v) as [t|] eqn:D;
    [ | exfalso; now apply (detectFeedType_feed_url _ _ Hfeed D)].
  unfold discoverFeed. cbv zeta.
  assert (E : tryWellKnownPaths WELL_KNOWN_PATHS (normalizeSiteUrl site) timeout st =
              (Ret (Some (mkFeedDiscoveryResult v t WellKnownPath
                            (fst (extractFeedMetadata (body response) t))
                            (snd (extractFeedMetadata (body response) t))
                            (normalizeSiteUrl site))),
               tick_fetch st)).
  { unfold WELL_KNOWN_PATHS.
    change (tryWellKnownPaths ("/feed.xml" :: ?rest) ?b ?t0)
      with (match urlResolve "/feed.xml" b with
            | None => throw "Invalid URL"
            | Some u =>
                bind (checkFeedUrl u t0) (fun result =>
                  match usableCheck result with
                  | Some (u', t') =>
                      ret (Some (mkFeedDiscoveryResult u' t' WellKnownPath
                                   (chk_feedTitle result) (chk_feedDescription result) b))
                  | None => tryWellKnownPaths rest b t0
                  end)
            end).
    rewrite Hv. rewrite (bind_run _ _ _ _ _ (checkFeedUrl_run v timeout st)).
    rewrite Hfetch. unfold classifyResponse. rewrite Hok. cbn [negb]. rewrite D.
    unfold usableCheck. cbn [success chk_feedUrl chk_feedType chk_feedTitle
                             chk_feedDescription].
    rewrite (truthy_nonempty _ Hne). reflexivity. }
  rewrite (bind_run _ _ _ _ _ E). unfold ret.
  eexists. split; [reflexivity | ]. cbn [feedUrl discoveryMethod siteUrl feedType].
  repeat split.
Qed.

End DiscoveryOutcomes.

Lemma any_page_at_feed_path_passes_for_a_feed_witness :
  @urlResolve samePageRuntime "/feed.xml" (normalizeSiteUrl "example.com") =
    Some "https://example.com/feed.xml" /\
  includes "https://example.com/feed.xml" "feed" = true /\
  exists d,
    @discoverFeed samePageRuntime "example.com" 1000 emptyState = (Ret d, tick_fetch emptyState) /\
    feedUrl d = "https://example.com/feed.xml" /\ discoveryMethod d = WellKnownPath.
Proof.
  assert (H1 : @urlResolve samePageRuntime "/feed.xml" (normalizeSiteUrl "example.com") =
               Some "https://example.com/feed.xml") by reflexivity.
  assert (H2 : "https://example.com/feed.xml" <> "") by discriminate.
  assert (H3 : includes "https://example.com/feed.xml" "feed" = true) by reflexivity.
  split; [exact H1 | ]. split; [exact H3 | ].
  destruct (@any_page_at_feed_path_passes_for_a_feed samePageRuntime "example.com" 1000
              emptyState "https://example.com/feed.xml"
              (mkResponse 200 "OK" (Some "text/html; charset=utf-8") None None
                 "<html><body>Page not found</body></html>")
              H1 H2 H3 eq_refl eq_refl) as (d & E & Hu & Hm & _).
  exists d. split; [exact E | ]. split; [exact Hu | exact Hm].
Defined.

(** ** Outcomes of a sync cycle *)

Section SyncOutcomes.
Context {RT : Runtime}.

Ltac simpl_state :=
  cbn [rssSources creators contentItems gmailProcessedMessages userSubscriptions
       gmailConnections nanoidCalls clockReads fetchCalls
       set_rssSources set_creators set_contentItems set_gmailProcessedMessages
       set_userSubscriptions set_gmailConnections tick_nanoid tick_clock tick_fetch
       fst snd].

(** The cycle of a source that is found and active is the guarded body. *)
Lemma syncSource_active (sourceId : string) (st : State) (source : RssSource) :
  sourceRow sourceId st = Some source ->
  src_isActive source = true ->
  syncSource sourceId st =
  tryCatch
    (bind (fetchAndParseFeed (src_feedUrl source) (src_feedType source)
             (orElse (src_etag source) None) (orElse (src_lastModified source) None))
       (fun result =>
          match result with
          | None => updateSourceSync sourceId SyncSuccess None
          | Some r =>
              bind (updateSourceHeaders sourceId (ffr_etag r) (ffr_lastModified r))
                (fun _ =>
                   bind (upsertCreator (src_feedUrl source)
                           (orDefault (orElse (pf_title (feed r)) (src_feedTitle source))
                                      "Untitled Blog")
                           (orElse (pf_description (feed r)) (src_feedDescription source)))
                     (fun creatorId =>
                        bind (upsertPosts creatorId (items (feed r)))
                          (fun _ => updateSourceSync sourceId SyncSuccess None)))
          end))
    (fun errorMessage =>
       bind (updateSourceSync sourceId SyncError (Some errorMessage))
            (fun _ => throw errorMessage))
    st.
Proof.
  intros Hrow Hact. unfold syncSource.
  assert (E : getSource sourceId st = (Ret (Some source), st)).
  { unfold getSource, gets. unfold sourceRow in Hrow. now rewrite Hrow. }
  rewrite (bind_run _ _ _ _ _ E). rewrite Hact. reflexivity.
Qed.

Lemma sourceRow_after_update (sourceId : string) (f : RssSource -> RssSource)
    (rows : list RssSource) (source : RssSource) :
  (forall r, src_sourceId (f r) = src_sourceId r) ->
  find (isSource sourceId) rows = Some source ->
  find (isSource sourceId) (updateWhere (isSource sourceId) f rows) = Some (f source).
Proof.
  intros Hf Hrow. rewrite find_updateWhere_same by exact Hf. now rewrite Hrow.
Qed.

(** X16: when the fetch and parse step of a sync cycle throws, the cycle
    stores nothing and fails with it: the exception is passed on;
    content items and creators are as before; the row of the source gets
    the error status, the message (none when the message is empty) and a
    new last-checked time, and keeps its last-synced time, its ETag and
    Last-Modified tokens and its active flag. *)
Theorem failed_sync_keeps_content
    (sourceId : string) (st : State) (source : RssSource) (msg : string) (st1 : State) :
  sourceRow sourceId st = Some source ->
  src_isActive source = true ->
  fetchAndParseFeed (src_feedUrl source) (src_feedType source)
    (orElse (src_etag source) None) (orElse (src_lastModified source) None) st
    = (Throw msg, st1) ->
  exists st',
    syncSource sourceId st = (Throw msg, st') /\
    contentItems st' = contentItems st /\ creators st' = creators st /\
    rssSources st' =
      updateWhere (isSource sourceId)
                  (withSync (nowAt (clockReads st1)) SyncError (Some msg)) (rssSources st) /\
    exists row,
      sourceRow sourceId st' = Some row /\
      src_lastSyncStatus row = Some SyncError /\
      src_lastSyncError row = orElse (Some msg) None /\
      src_lastCheckedAt row = Some (nowAt (clockReads st1)) /\
      src_lastSyncedAt row = src_lastSyncedAt source /\
      src_etag row = src_etag source /\ src_lastModified row = src_lastModified source /\
      src_isActive row = true.
Proof.
  intros Hrow Hact Hfetch.
  destruct (keeps_fetchAndParseFeed (src_feedUrl source) (src_feedType source)
              (orElse (src_etag source) None) (orElse (src_lastModified source) None) st)
    as (Ks & Kc & Ki).
  rewrite Hfetch in Ks, Kc, Ki. cbn [snd] in Ks, Kc, Ki.
  rewrite (syncSource_active _ _ _ Hrow Hact). unfold tryCatch.
  rewrite (bind_throw _ _ _ _ _ Hfetch).
  eexists. split; [reflexivity | ]. simpl_state.
  split; [exact Ki | ]. split; [exact Kc | ]. rewrite Ks. split; [reflexivity | ].
  exists (withSync (nowAt (clockReads st1)) SyncError (Some msg) source).
  split; [ | cbn; repeat split; exact Hact].
  unfold sourceRow. simpl_state. rewrite Ks.
  apply sourceRow_after_update; [reflexivity | exact Hrow].
Qed.

(** X17: a sync cycle whose fetch brings a parsed feed succeeds and
    stores it.  The row of the source takes the ETag and Last-Modified
    tokens of the response (a token the response lacks is cleared), the
    success status, no error, and one time as both last-checked and
    last-synced; an rss creator for the feed address exists, named after
    the feed title, else the stored title, else Untitled Blog; content
    items are only appended, each an rss row of that creator with the
    hash of an item of the feed; and afterwards the hash of every item of
    the feed is stored. *)
Theorem successful_sync_stores_feed
    (sourceId : string) (st : State) (source : RssSource) (r : FeedFetchResult)
    (st1 : State) :
  sourceRow sourceId st = Some source ->
  src_isActive source = true ->
  fetchAndParseFeed (src_feedUrl source) (src_feedType source)
    (orElse (src_etag source) None) (orElse (src_lastModified source) None) st
    = (Ret (Some r), st1) ->
  exists st' creator added,
    syncSource sourceId st = (Ret tt, st') /\
    (exists row,
       sourceRow sourceId st' = Some row /\
       src_etag row = orElse (ffr_etag r) None /\
       src_lastModified row = orElse (ffr_lastModified r) None /\
       src_lastSyncStatus row = Some SyncSuccess /\ src_lastSyncError row = None /\
       src_lastSyncedAt row = src_lastCheckedAt row /\ src_lastSyncedAt row <> None /\
       src_isActive row = true) /\
    find (fun c => String.eqb (cr_sourceType c) "rss" &&
                   String.eqb (cr_externalId c) (src_feedUrl source)) (creators st')
      = Some creator /\
    cr_name creator =
      orDefault (orElse (pf_title (feed r)) (src_feedTitle source)) "Untitled Blog" /\
    contentItems st' = (contentItems st ++ added)%list /\
    Forall (fun item =>
              ci_sourceType item = "rss" /\ ci_creatorId item = cr_creatorId creator /\
              exists p, In p (items (feed r)) /\ ci_contentHash item = Some (hash p)) added /\
    (forall p, In p (items (feed r)) -> findRssByHash (hash p) (contentItems st') <> None).
Proof.
  intros Hrow Hact Hfetch.
  destruct (keeps_fetchAndParseFeed (src_feedUrl source) (src_feedType source)
              (orElse (src_etag source) None) (orElse (src_lastModified source) None) st)
    as (Ks & Kc & Ki).
  rewrite Hfetch in Ks, Kc, Ki. cbn [snd] in Ks, Kc, Ki.
  rewrite (syncSource_active _ _ _ Hrow Hact). unfold tryCatch.
  rewrite (bind_run _ _ _ _ _ Hfetch).
  assert (Eh : updateSourceHeaders sourceId (ffr_etag r) (ffr_lastModified r) st1 =
               (Ret tt, set_rssSources
                          (updateWhere (isSource sourceId)
                             (withHeaders (ffr_etag r) (ffr_lastModified r))) st1))
    by reflexivity.
  rewrite (bind_run _ _ _ _ _ Eh).
  match goal with
  | |- context [upsertCreator ?u ?t ?d] =>
      destruct (upsertCreator_effect u t d
                  (set_rssSources
                     (updateWhere (isSource sourceId)
                        (withHeaders (ffr_etag r) (ffr_lastModified r))) st1))
        as (creator & s2 & Ec & Hfind & Hname & Hi2 & Hs2 & _)
  end.
  rewrite (bind_run _ _ _ _ _ Ec).
  destruct (upsert_loop_spec (cr_creatorId creator) (nowAt (clockReads s2))
              (items (feed r)) 0 (tick_clock s2))
    as (added & s3 & Eloop & Hi3 & Hall & Hadded & Hs3 & Hc3 & _).
  assert (Ep : upsertPosts (cr_creatorId creator) (items (feed r)) s2 =
               (Ret (0 + List.length added), s3))
    by (rewrite upsertPosts_unfold; exact Eloop).
  rewrite (bind_run _ _ _ _ _ Ep).
  assert (Eu : updateSourceSync sourceId SyncSuccess None s3 =
               (Ret tt, set_rssSources
                          (updateWhere (isSource sourceId)
                             (withSync (nowAt (clockReads s3)) SyncSuccess None))
                          (tick_clock s3)))
    by reflexivity.
  rewrite Eu.
  revert Hi2 Hs2 Hi3 Hs3 Hc3. simpl_state. intros Hi2 Hs2 Hi3 Hs3 Hc3.
  eexists _, creator, added. split; [reflexivity | ]. simpl_state.
  split; [ | split; [congruence | ] ].
  - exists (withSync (nowAt (clockReads s3)) SyncSuccess None
              (withHeaders (ffr_etag r) (ffr_lastModified r) source)).
    split; [ | cbn; repeat split; [discriminate | exact Hact] ].
    unfold sourceRow. simpl_state. rewrite Hs3, Hs2, Ks.
    apply sourceRow_after_update; [reflexivity | ].
    apply sourceRow_after_update; [reflexivity | exact Hrow].
  - split; [exact Hname | ].
    split; [rewrite Hi3, Hi2, Ki; reflexivity | ].
    split; [ | exact Hall].
    eapply Forall_impl; [ | exact Hadded]. cbv beta.
    intros item (p & id & Hin & ->). cbn [newContentItem ci_sourceType ci_creatorId
                                          ci_contentHash].
    split; [reflexivity | ]. split; [reflexivity | ]. exists p. auto.
Qed.

End SyncOutcomes.

Lemma failed_sync_keeps_content_witness :
  sourceRow "2" demoBatch = Some downSource /\
  src_isActive downSource = true /\
  exists st',
    @syncSource demoRuntime "2" demoBatch = (Throw "fetch failed", st') /\
    contentItems st' = contentItems demoBatch /\
    exists row,
      sourceRow "2" st' = Some row /\ src_lastSyncStatus row = Some SyncError /\
      src_lastSyncError row = Some "fetch failed".
Proof.
  assert (H1 : sourceRow "2" demoBatch = Some downSource) by reflexivity.
  assert (H2 : src_isActive downSource = true) by reflexivity.
  split; [exact H1 | ]. split; [exact H2 | ].
  destruct (@failed_sync_keeps_content demoRuntime "2" demoBatch downSource "fetch failed"
              (tick_fetch demoBatch) H1 H2 eq_refl)
    as (st' & E & Hi & _ & _ & row & Hr & Hs & He & _).
  exists st'. split; [exact E | ]. split; [exact Hi | ].
  exists row. split; [exact Hr | ]. split; [exact Hs | exact He].
Defined.

Lemma successful_sync_stores_feed_witness :
  sourceRow "1" demoBatch = Some workingSource /\
  src_isActive workingSource = true /\
  exists st' creator added,
    @syncSource demoRuntime "1" demoBatch = (Ret tt, st') /\
    cr_name creator = "Example" /\
    contentItems st' = (contentItems demoBatch ++ added)%list.
Proof.
  assert (H1 : sourceRow "1" demoBatch = Some workingSource) by reflexivity.
  assert (H2 : src_isActive workingSource = true) by reflexivity.
  split; [exact H1 | ]. split; [exact H2 | ].
  destruct (@fetchAndParseFeed demoRuntime (src_feedUrl workingSource)
              (src_feedType workingSource) (orElse (src_etag workingSource) None)
              (orElse (src_lastModified workingSource) None) demoBatch)
    as [[[r|]|msg] s1] eqn:E;
    [ | vm_compute in E; discriminate E | vm_compute in E; discriminate E].
  destruct (@successful_sync_stores_feed demoRuntime "1" demoBatch workingSource r s1
              H1 H2 E)
    as (st' & creator & added & Hrun & _ & _ & Hname & Hitems & _).
  exists st', creator, added. split; [exact Hrun | ]. split; [ | exact Hitems].
  rewrite Hname. vm_compute in E. injection E as <- _. reflexivity.
Defined.

(** ** Subscribing and unsubscribing *)

Section SubscriptionProperties.
Context {RT : Runtime}.

Ltac simpl_state :=
  cbn [rssSources creators contentItems gmailProcessedMessages userSubscriptions
       gmailConnections nanoidCalls clockReads fetchCalls
       set_rssSources set_creators set_contentItems set_gmailProcessedMessages
       set_userSubscriptions set_gmailConnections tick_nanoid tick_clock tick_fetch
       fst snd].

Tactic Notation "simpl_state" "in" hyp(H) :=
  cbn [rssSources creators contentItems gmailProcessedMessages userSubscriptions
       gmailConnections nanoidCalls clockReads fetchCalls
       set_rssSources set_creators set_contentItems set_gmailProcessedMessages
       set_userSubscriptions set_gmailConnections tick_nanoid tick_clock tick_fetch
       fst snd] in H.

(** A source that is missing or switched off is refused before anything
    is fetched or written. *)
Lemma syncSource_refused (sourceId : string) (st : State) :
  (forall s, sourceRow sourceId st = Some s -> src_isActive s = false) ->
  syncSource sourceId st = (Throw ("Source not found or inactive: " ++ sourceId), st).
Proof.
  intros H. unfold syncSource.
  assert (E : getSource sourceId st = (Ret (sourceRow sourceId st), st)) by reflexivity.
  rewrite (bind_run _ _ _ _ _ E).
  destruct (sourceRow sourceId st) as [s|]; [ | reflexivity].
  rewrite (H s eq_refl). reflexivity.
Qed.

(** X18: [removeSource] is a soft delete that takes the source out of
    syncing.  It keeps every row (content, creators, and the source row
    itself), leaves the rows of other sources as they were, and after it
    no list of active sources holds the identifier; a later [syncSource]
    of the identifier is refused with the not-found-or-inactive error
    before anything is fetched or written; and removing again changes
    nothing. *)
Theorem removed_source_is_not_synced (sourceId : string) (st : State) :
  let st1 := snd (removeSource sourceId st) in
  fst (removeSource sourceId st) = Ret tt /\
  contentItems st1 = contentItems st /\ creators st1 = creators st /\
  List.length (rssSources st1) = List.length (rssSources st) /\
  (forall other, other <> sourceId -> sourceRow other st1 = sourceRow other st) /\
  (forall userId s, In s (activeSources userId st1) -> src_sourceId s <> sourceId) /\
  syncSource sourceId st1 = (Throw ("Source not found or inactive: " ++ sourceId), st1) /\
  removeSource sourceId st1 = (Ret tt, st1).
Proof.
  cbv zeta. unfold removeSource, modify. simpl_state.
  split; [reflexivity | ]. split; [reflexivity | ]. split; [reflexivity | ].
  split; [unfold updateWhere; apply length_map | ].
  split; [ | split; [ | split] ].
  - intros other Hne. unfold sourceRow. simpl_state.
    apply find_updateWhere_other; [exact Hne | reflexivity].
  - intros userId s Hin Hid. unfold activeSources in Hin. simpl_state in Hin.
    apply (Permutation_in _ (orderByAddedAtDesc_perm _)) in Hin.
    apply filter_In in Hin as [Hin Hkeep]. apply andb_true_iff in Hkeep as [_ Hact].
    unfold updateWhere in Hin. apply in_map_iff in Hin as (r & Hr & _).
    destruct (isSource sourceId r) eqn:E.
    + subst s. discriminate Hact.
    + subst s. unfold isSource in E. rewrite Hid, String.eqb_refl in E. discriminate E.
  - apply syncSource_refused. intros s. unfold sourceRow. simpl_state.
    rewrite find_updateWhere_same by reflexivity.
    destruct (find (isSource sourceId) (rssSources st)) as [s0|]; [ | discriminate].
    intros H. injection H as <-. reflexivity.
  - unfold set_rssSources. simpl_state. f_equal. f_equal.
    rewrite updateWhere_twice by reflexivity. reflexivity.
Qed.

Lemma keeps_tryCatch {A : Type} (m : M A) (h : string -> M A) :
  keepsFeedTables m -> (forall e, keepsFeedTables (h e)) -> keepsFeedTables (tryCatch m h).
Proof.
  intros Hm Hh st. unfold tryCatch. specialize (Hm st).
  destruct (m st) as [[a | e] s1]; cbn [snd] in *; [exact Hm | ].
  destruct (Hh e s1) as (H1 & H2 & H3). destruct Hm as (G1 & G2 & G3).
  repeat split; congruence.
Qed.

Lemma keeps_checkFeedUrl (u : string) (timeout : nat) : keepsFeedTables (checkFeedUrl u timeout).
Proof.
  unfold checkFeedUrl. apply keeps_bind; [apply keeps_fetch | intros; apply keeps_ret].
Qed.

Lemma keeps_discoverFeed (site : string) (timeout : nat) :
  keepsFeedTables (discoverFeed site timeout).
Proof.
  unfold discoverFeed. cbv zeta. apply keeps_bind.
  - induction WELL_KNOWN_PATHS as [|path paths IH]; cbn [tryWellKnownPaths];
      [apply keeps_ret | ].
    destruct (urlResolve path _); [ | apply keeps_throw].
    apply keeps_bind; [apply keeps_checkFeedUrl | ].
    intros result. destruct (usableCheck result) as [[u t]|]; [apply keeps_ret | exact IH].
  - intros [d|]; [apply keeps_ret | ].
    apply keeps_bind.
    + apply keeps_tryCatch; [ | intros; apply keeps_ret].
      unfold discoverFeedFromHtml. apply keeps_bind; [apply keeps_fetch | ].
      intros [response | msg]; [ | apply keeps_ret].
      destruct (resolveLinks _ _) as [links|]; [ | apply keeps_ret].
      induction links as [|[u type] links IH]; cbn [firstVerifiedLink]; [apply keeps_ret | ].
      destruct (linkFeedType type); [ | exact IH].
      apply keeps_bind; [apply keeps_checkFeedUrl | ].
      intros result. destruct (success result); [apply keeps_ret | exact IH].
    + intros [d|]; [apply keeps_ret | apply keeps_throw].
Qed.

Lemma keeps_resolveDiscovery (site : string) (manualFeedUrl : option string) :
  keepsFeedTables (resolveDiscovery site manualFeedUrl).
Proof.
  unfold resolveDiscovery. destruct (orElse manualFeedUrl None) as [manual|].
  - apply keeps_bind; [apply keeps_fetchAndParseFeed | ].
    intros [r|]; [apply keeps_ret | apply keeps_throw].
  - apply keeps_discoverFeed.
Qed.

Lemma fetchAndParseFeed_type (u : string) (ft : FeedType) (e l : option string)
    (st st' : State) (r : FeedFetchResult) :
  fetchAndParseFeed u ft e l st = (Ret (Some r), st') -> ffr_feedType r = ft.
Proof.
  unfold fetchAndParseFeed. intros H.
  apply bind_Ret in H as (reply & s1 & _ & H).
  destruct reply as [response | msg]; [ | discriminate H].
  destruct (status response =? 304)%nat; [discriminate H | ].
  destruct (negb (ok response)); [discriminate H | ].
  apply bind_Ret in H as (parsed & s2 & _ & H).
  injection H as <- _. reflexivity.
Qed.

Lemma addSource_row (userId site : string) (manualFeedUrl : option string) (st : State) :
  match fst (addSource userId site manualFeedUrl st) with
  | Ret (sourceId, d) =>
      rssSources (snd (addSource userId site manualFeedUrl st)) =
      (rssSources st ++ [newSourceRow sourceId userId (nowAt (clockReads st)) d])%list
  | Throw _ => rssSources (snd (addSource userId site manualFeedUrl st)) = rssSources st
  end.
Proof.
  unfold addSource.
  assert (En : nowISO st = (Ret (nowAt (clockReads st)), tick_clock st)) by reflexivity.
  rewrite (bind_run _ _ _ _ _ En).
  destruct (keeps_resolveDiscovery site manualFeedUrl (tick_clock st)) as (Ks & _).
  destruct (resolveDiscovery site manualFeedUrl (tick_clock st)) as [[d | msg] s1] eqn:E;
    cbn [snd] in Ks; revert Ks; simpl_state; intros Ks.
  - rewrite (bind_run _ _ _ _ _ E). cbv [bind nanoid modify ret]. simpl_state.
    now rewrite Ks.
  - rewrite (bind_throw _ _ _ _ _ E). exact Ks.
Qed.

(** X19: [addSource] adds exactly one row when the feed is resolved and
    none when it is not; creators and content are not touched.  The new
    row is appended for the user under the returned identifier, active,
    never synced, without validators, stamped with the time read at the
    start.  With a manual feed address the row is marked manual, keeps
    the site address as it was typed (not normalized) and is always
    typed rss, whatever the feed is; without one the row is built from
    the result of [discoverFeed] with its default timeout. *)
Theorem addSource_appends_one_row
    (userId site : string) (manualFeedUrl : option string) (st : State) :
  let r := addSource userId site manualFeedUrl st in
  creators (snd r) = creators st /\ contentItems (snd r) = contentItems st /\
  match fst r with
  | Ret (sourceId, d) =>
      exists row,
        rssSources (snd r) = (rssSources st ++ [row])%list /\
        row = newSourceRow sourceId userId (nowAt (clockReads st)) d /\
        src_sourceId row = sourceId /\ src_userId row = userId /\
        src_isActive row = true /\ src_lastSyncStatus row = None /\
        src_lastSyncedAt row = None /\ src_etag row = None /\ src_lastModified row = None /\
        src_feedUrl row = feedUrl d /\
        (forall manual, manualFeedUrl = Some manual -> manual <> "" ->
           src_feedUrl row = manual /\ src_feedType row = Rss /\
           src_discoveryMethod row = Manual /\ src_siteUrl row = site) /\
        (orElse manualFeedUrl None = None ->
           exists s1, discoverFeed site defaultTimeout (tick_clock st) = (Ret d, s1))
  | Throw _ => rssSources (snd r) = rssSources st
  end.
Proof.
  cbv zeta. unfold addSource.
  assert (En : nowISO st = (Ret (nowAt (clockReads st)), tick_clock st)) by reflexivity.
  rewrite (bind_run _ _ _ _ _ En).
  destruct (keeps_resolveDiscovery site manualFeedUrl (tick_clock st)) as (Ks & Kc & Ki).
  destruct (resolveDiscovery site manualFeedUrl (tick_clock st)) as [[d | msg] s1] eqn:E;
    cbn [snd] in Ks, Kc, Ki; revert Ks Kc Ki; simpl_state; intros Ks Kc Ki.
  - rewrite (bind_run _ _ _ _ _ E). cbv [bind nanoid modify ret]. simpl_state.
    split; [exact Kc | ]. split; [exact Ki | ].
    eexists. rewrite Ks. split; [reflexivity | ]. split; [reflexivity | ].
    cbn [newSourceRow src_sourceId src_userId src_isActive src_lastSyncStatus
         src_lastSyncedAt src_etag src_lastModified src_feedUrl src_feedType
         src_discoveryMethod src_siteUrl].
    do 8 (split; [reflexivity | ]). split.
    + intros manual -> Hne. unfold resolveDiscovery in E.
      cbn [orElse] in E. rewrite (truthy_nonempty _ Hne) in E.
      apply bind_Ret in E as (result & s0 & Hfetch & E).
      destruct result as [r|]; [ | discriminate E].
      injection E as <- _. cbn [feedUrl feedType discoveryMethod siteUrl].
      rewrite (fetchAndParseFeed_type _ _ _ _ _ _ _ Hfetch). repeat split.
    + intros Hnone. unfold resolveDiscovery in E. rewrite Hnone in E. now exists s1.
  - rewrite (bind_throw _ _ _ _ _ E). cbn [fst snd].
    split; [exact Kc | ]. split; [exact Ki | exact Ks].
Qed.

(** X20: [addBlogSource] keeps the subscription even when its first sync
    fails.  Once [addSource] has stored the source under an identifier
    no earlier row bears, the call returns that identifier when the
    first sync succeeds and passes the exception on when it fails; in
    both cases the store it leaves holds the row of the source, of the
    user, still active, with the status of that first sync. *)
Theorem addBlogSource_keeps_source_when_sync_fails
    (userId site : string) (manualFeedUrl : option string) (st : State)
    (sourceId : string) (d : FeedDiscoveryResult) (s1 : State) :
  addSource userId site manualFeedUrl st = (Ret (sourceId, d), s1) ->
  ~ In sourceId (map src_sourceId (rssSources st)) ->
  let r := addBlogSource userId site manualFeedUrl st in
  (fst r = Ret sourceId \/ exists msg, fst r = Throw msg) /\
  exists row,
    sourceRow sourceId (snd r) = Some row /\
    src_userId row = userId /\ src_isActive row = true /\
    src_lastSyncStatus row = Some (statusOfOutcome (fst r)).
Proof.
  intros Hadd Hfresh. cbv zeta.
  pose proof (addSource_row userId site manualFeedUrl st) as Hrow.
  rewrite Hadd in Hrow. cbn [fst snd] in Hrow.
  unfold addBlogSource. rewrite (bind_run _ _ _ _ _ Hadd). cbn [fst snd].
  match goal with
  | |- context [upsertCreator ?u ?t ?de] =>
      destruct (upsertCreator_effect u t de s1) as (c & s2 & Ec & _ & _ & _ & Hs2 & _)
  end.
  rewrite (bind_run _ _ _ _ _ Ec).
  assert (Hsrc : sourceRow sourceId s2 =
                 Some (newSourceRow sourceId userId (nowAt (clockReads st)) d)).
  { unfold sourceRow. rewrite Hs2, Hrow.
    rewrite find_in_appended.
    - unfold find, isSource, newSourceRow. cbn [src_sourceId].
      now rewrite String.eqb_refl.
    - destruct (find (isSource sourceId) (rssSources st)) as [x|] eqn:F; [ | reflexivity].
      exfalso. apply Hfresh. apply find_some in F as [Hin Hx].
      unfold isSource in Hx. apply String.eqb_eq in Hx. rewrite <- Hx. now apply in_map. }
  destruct (syncSource_cycle sourceId s2 _ Hsrc eq_refl) as (g & now & err & Hrows & Hg & _).
  unfold bind.
  destruct (syncSource sourceId s2) as [[[] | msg] s3] eqn:Esync;
    cbn [fst snd statusOfOutcome ret] in *.
  - split; [now left | ].
    exists (withSync now SyncSuccess err
              (g (newSourceRow sourceId userId (nowAt (clockReads st)) d))).
    split.
    + unfold sourceRow. rewrite Hrows. rewrite find_updateWhere_same.
      * unfold sourceRow in Hsrc. now rewrite Hsrc.
      * intros x. cbn [withSync src_sourceId]. apply Hg.
    + cbn [withSync src_userId src_isActive src_lastSyncStatus].
      destruct (Hg (newSourceRow sourceId userId (nowAt (clockReads st)) d))
        as (_ & Ha & Hu & _).
      rewrite Hu, Ha. repeat split.
  - split; [right; now exists msg | ].
    exists (withSync now SyncError err
              (g (newSourceRow sourceId userId (nowAt (clockReads st)) d))).
    split.
    + unfold sourceRow. rewrite Hrows. rewrite find_updateWhere_same.
      * unfold sourceRow in Hsrc. now rewrite Hsrc.
      * intros x. cbn [withSync src_sourceId]. apply Hg.
    + cbn [withSync src_userId src_isActive src_lastSyncStatus].
      destruct (Hg (newSourceRow sourceId userId (nowAt (clockReads st)) d))
        as (_ & Ha & Hu & _).
      rewrite Hu, Ha. repeat split.
Qed.

End SubscriptionProperties.

Lemma addSource_appends_one_row_witness :
  exists sourceId d row,
    fst (@addSource demoRuntime "user-1" "Example Blog " (Some "https://example.com/rss.xml")
           emptyState) = Ret (sourceId, d) /\
    rssSources (snd (@addSource demoRuntime "user-1" "Example Blog "
                       (Some "https://example.com/rss.xml") emptyState)) = [row] /\
    src_feedType row = Rss /\ src_discoveryMethod row = Manual /\
    src_siteUrl row = "Example Blog ".
Proof.
  pose proof (@addSource_appends_one_row demoRuntime "user-1" "Example Blog "
                (Some "https://example.com/rss.xml") emptyState) as H.
  cbv zeta in H.
  destruct (fst (@addSource demoRuntime "user-1" "Example Blog "
                   (Some "https://example.com/rss.xml") emptyState))
    as [[sourceId d] | msg] eqn:E; [ | vm_compute in E; discriminate E].
  destruct H as (_ & _ & row & Hrows & _ & _ & _ & _ & _ & _ & _ & _ & _ & Hmanual & _).
  destruct (Hmanual "https://example.com/rss.xml" eq_refl ltac:(discriminate))
    as (_ & Htype & Hmethod & Hsite).
  exists sourceId, d, row. split; [reflexivity | ]. split; [exact Hrows | ].
  split; [exact Htype | ]. split; [exact Hmethod | exact Hsite].
Defined.

Lemma addBlogSource_keeps_source_when_sync_fails_witness :
  exists sourceId row,
    fst (@addBlogSource demoRuntime "user-1" "example.com" None emptyState) = Ret sourceId /\
    sourceRow sourceId (snd (@addBlogSource demoRuntime "user-1" "example.com" None
                               emptyState)) = Some row /\
    src_isActive row = true /\ src_lastSyncStatus row = Some SyncSuccess.
Proof.
  destruct (@addSource demoRuntime "user-1" "example.com" None emptyState)
    as [[[sourceId d] | msg] s1] eqn:E; [ | vm_compute in E; discriminate E].
  assert (Hfresh : ~ In sourceId (map src_sourceId (rssSources emptyState)))
    by (intros []).
  destruct (@addBlogSource_keeps_source_when_sync_fails demoRuntime "user-1" "example.com"
              None emptyState sourceId d s1 E Hfresh)
    as (Hout & row & Hrow & _ & Hact & Hstatus).
  destruct Hout as [Hret | [msg Hthrow]]; [ | vm_compute in Hthrow; discriminate Hthrow].
  exists sourceId, row. split; [exact Hret | ]. split; [exact Hrow | ].
  split; [exact Hact | ]. rewrite Hstatus, Hret. reflexivity.
Defined.

(** ** Reading the feed, and the batch sync *)

Section ReadingProperties.
Context {RT : Runtime}.

Lemma in_firstn_in {A : Type} (n : nat) (l : list A) (x : A) :
  In x (firstn n l) -> In x l.
Proof.
  intros H. rewrite <- (firstn_skipn n l). apply in_or_app. now left.
Qed.

Lemma in_insertByPublishedDesc (x y : ContentItem * Creator)
    (sorted : list (ContentItem * Creator)) :
  In y (insertByPublishedDesc x sorted) -> y = x \/ In y sorted.
Proof.
  induction sorted as [|z sorted IH]; cbn [insertByPublishedDesc].
  - intros [<- | []]. now left.
  - destruct (_ && _).
    + intros [<- | H]; [now left | now right].
    + intros [<- | H]; [right; now left | ].
      destruct (IH H) as [-> | Hin]; [now left | right; now right].
Qed.

Lemma in_orderByPublishedDesc (y : ContentItem * Creator)
    (rows : list (ContentItem * Creator)) :
  In y (orderByPublishedDesc rows) -> In y rows.
Proof.
  unfold orderByPublishedDesc. induction rows as [|x rows IH]; cbn [fold_right]; [auto | ].
  intros H. apply in_insertByPublishedDesc in H as [-> | H]; [now left | right; now apply IH].
Qed.

Lemma in_joinCreators (c : ContentItem) (cr : Creator) (items_ : list ContentItem)
    (cs : list Creator) :
  In (c, cr) (joinCreators items_ cs) ->
  In c items_ /\ In cr cs /\ cr_creatorId cr = ci_creatorId c.
Proof.
  unfold joinCreators. intros H. apply in_flat_map in H as (c0 & Hc0 & H).
  apply in_map_iff in H as (cr0 & E & H). injection E as -> ->.
  apply filter_In in H as [Hin Hid]. apply String.eqb_eq in Hid. auto.
Qed.

Lemma feedUrlToSourceId_sound (userSources : list RssSource) (key sid : string) :
  feedUrlToSourceId userSources key = Some sid ->
  exists s, In s userSources /\ src_feedUrl s = key /\ src_sourceId s = sid.
Proof.
  unfold feedUrlToSourceId. destruct (find _ (rev userSources)) as [s|] eqn:F; [ | discriminate].
  cbn [option_map]. intros H. injection H as <-.
  apply find_some in F as [Hin E]. apply String.eqb_eq in E.
  exists s. split; [now apply in_rev | auto].
Qed.

Lemma flat_map_at_most_one {A B : Type} (f : A -> list B) (l : list A) :
  (forall a, List.length (f a) <= 1) -> List.length (flat_map f l) <= List.length l.
Proof.
  intros Hf. induction l as [|a l IH]; [auto | ].
  cbn [flat_map List.length]. rewrite length_app. specialize (Hf a). lia.
Qed.

(** X21: [getLatestPosts] only reads, returns at most [limit] posts, and
    returns only what belongs to the reader: every post is a stored rss
    content item, joined to a stored creator whose name and feed address
    it shows, and filed under an active source of the user with that
    feed address; a user without an active source gets the empty list. *)
Theorem latest_posts_are_bounded_and_owned (userId : string) (limit : nat) (st : State) :
  exists posts,
    getLatestPosts userId limit st = (Ret posts, st) /\
    List.length posts <= limit /\
    Forall (fun lp =>
              ci_sourceType (lp_item lp) = "rss" /\ In (lp_item lp) (contentItems st) /\
              (exists c, In c (creators st) /\ cr_creatorId c = ci_creatorId (lp_item lp) /\
                         cr_name c = lp_creatorName lp /\
                         cr_externalId c = lp_creatorExternalId lp) /\
              (exists s, In s (rssSources st) /\ src_userId s = userId /\
                         src_isActive s = true /\
                         src_feedUrl s = lp_creatorExternalId lp /\
                         src_sourceId s = lp_sourceId lp)) posts /\
    ((forall s, In s (rssSources st) -> src_userId s = userId -> src_isActive s = false) ->
     posts = []).
Proof.
  unfold getLatestPosts. cbv [bind gets ret].
  remember (filter _ (rssSources st)) as userSources eqn:Eus.
  assert (Hus : forall s, In s userSources ->
                  In s (rssSources st) /\ src_userId s = userId /\ src_isActive s = true).
  { intros s Hin. rewrite Eus in Hin. apply filter_In in Hin as [Hin Hp].
    apply andb_true_iff in Hp as [Hu Ha]. apply String.eqb_eq in Hu. auto. }
  clear Eus. destruct userSources as [|s0 rest].
  - exists []. split; [reflexivity | ]. split; [cbn; lia | ]. split; [constructor | auto].
  - eexists. split; [reflexivity | ]. split; [ | split].
    + eapply Nat.le_trans; [apply flat_map_at_most_one | apply firstn_le_length].
      intros row. destruct (feedUrlToSourceId (s0 :: rest) _); cbn; lia.
    + apply Forall_forall. intros lp Hlp.
      apply in_flat_map in Hlp as ([c cr] & Hrow & Hlp). cbn [fst snd] in Hlp.
      destruct (feedUrlToSourceId (s0 :: rest) (cr_externalId cr)) as [sid|] eqn:Esid;
        [ | contradiction].
      destruct Hlp as [<- | []]. cbn [lp_item lp_creatorName lp_creatorExternalId lp_sourceId].
      apply in_firstn_in in Hrow. apply filter_In in Hrow as [Hrow _].
      apply in_firstn_in in Hrow. apply in_orderByPublishedDesc in Hrow.
      apply filter_In in Hrow as [Hrow Hrss]. cbn [fst] in Hrss.
      apply String.eqb_eq in Hrss.
      apply in_joinCreators in Hrow as (Hc & Hcr & Hid).
      split; [exact Hrss | ]. split; [exact Hc | ].
      split; [exists cr; auto | ].
      destruct (feedUrlToSourceId_sound _ _ _ Esid) as (s & Hs & Hfeed & Hsid).
      destruct (Hus s Hs) as (Hin & Hu & Ha). exists s. auto.
    + intros Hnone. exfalso.
      destruct (Hus s0 (or_introl eq_refl)) as (Hin & Hu & Ha).
      rewrite (Hnone s0 Hin Hu) in Ha. discriminate.
Qed.

End ReadingProperties.

Section BatchFrame.
Context {RT : Runtime}.

Lemma activeSources_selected (userId : string) (st : State) (s : RssSource) :
  In s (activeSources userId st) ->
  In s (rssSources st) /\ src_userId s = userId /\ src_isActive s = true.
Proof.
  unfold activeSources. intros H.
  apply (Permutation_in _ (orderByAddedAtDesc_perm _)) in H.
  apply filter_In in H as [Hin Hp]. apply andb_true_iff in Hp as [Hu Ha].
  apply String.eqb_eq in Hu. auto.
Qed.

(** X22: the batch sync of one user writes only that user's active
    sources: with source identifiers unique, every source row of another
    user, and every inactive row, is after [syncAllSources] exactly the
    row it was. *)
Theorem batch_sync_leaves_other_rows (userId : string) (st : State) (row : RssSource) :
  NoDup (map src_sourceId (rssSources st)) ->
  In row (rssSources st) ->
  src_userId row <> userId \/ src_isActive row = false ->
  sourceRow (src_sourceId row) (snd (syncAllSources userId st)) = Some row.
Proof.
  intros Hnd Hin Hother.
  assert (Hrun : syncAllSources userId st =
                 (Ret tt, runCycles (activeSources userId st) st)).
  { unfold syncAllSources.
    assert (E : getUserSources userId st = (Ret (activeSources userId st), st))
      by reflexivity.
    rewrite (bind_run _ _ _ _ _ E). apply syncAllSources_runs_cycles. }
  rewrite Hrun. cbn [snd]. rewrite runCycles_other.
  - unfold sourceRow. now apply find_unique_source.
  - intros s Hs Hid. apply activeSources_selected in Hs as (Hs & Hu & Ha).
    pose proof (find_unique_source _ _ Hnd Hs) as F1.
    pose proof (find_unique_source _ _ Hnd Hin) as F2.
    rewrite Hid, F2 in F1. injection F1 as <-.
    destruct Hother as [Hne | Hoff]; [now apply Hne | congruence].
Qed.

End BatchFrame.

Lemma batch_sync_leaves_other_rows_witness :
  let st := stateWithSources [workingSource; withInactive downSource] in
  NoDup (map src_sourceId (rssSources st)) /\
  In (withInactive downSource) (rssSources st) /\
  src_isActive (withInactive downSource) = false /\
  sourceRow "2" (snd (@syncAllSources demoRuntime "user-1" st)) =
    Some (withInactive downSource).
Proof.
  cbv zeta.
  assert (H1 : NoDup (map src_sourceId
                        (rssSources (stateWithSources
                                       [workingSource; withInactive downSource])))).
  { cbn. repeat constructor; cbn; intuition discriminate. }
  assert (H2 : In (withInactive downSource)
                  (rssSources (stateWithSources [workingSource; withInactive downSource])))
    by (right; left; reflexivity).
  split; [exact H1 | ]. split; [exact H2 | ]. split; [reflexivity | ].
  exact (@batch_sync_leaves_other_rows demoRuntime "user-1"
           (stateWithSources [workingSource; withInactive downSource])
           (withInactive downSource) H1 H2 (or_intror eq_refl)).
Defined.

(** ** The daily mailbox sync *)

Section DailySyncProperties.
Context {RT : Runtime}.
Variable fetchMessages : string -> M (list GmailMessage).

Lemma syncUser_returns (totals : SyncTotals) (userId : string) (st : State) :
  exists totals' st',
    syncUser fetchMessages totals userId st = (Ret totals', st') /\
    successCount totals' + errorCount totals' <= S (successCount totals + errorCount totals) /\
    successCount totals + errorCount totals <= successCount totals' + errorCount totals'.
Proof.
  unfold syncUser, tryCatch, bind.
  destruct (ingestForUser fetchMessages userId st) as [[result | message] s1].
  - eexists _, _. split; [reflexivity | ]. cbn [successCount errorCount]. lia.
  - destruct (includes message "not connected Gmail"); eexists _, _;
      (split; [reflexivity | ]); cbn [successCount errorCount]; lia.
Qed.

Lemma syncUser_unconnected (totals : SyncTotals) (userId : string) (st : State) :
  connected userId st = false ->
  syncUser fetchMessages totals userId st = (Ret totals, st).
Proof.
  unfold connected. intros H.
  unfold syncUser, tryCatch, bind, ingestForUser, fromConnection, getConnection, gets.
  unfold bind. destruct (find _ (gmailConnections st)); [discriminate H | reflexivity].
Qed.

(** X23: the daily sync isolates users.  [syncAllUsers] never throws and
    counts every user at most once, as a success or as an error.  A user
    without an active Gmail connection is passed over in silence: the
    store and the four counters stay as they were (the message of
    [fromConnection] is the one the loop looks for), so a run over users
    none of whom is connected returns all zeros and changes nothing.  A
    connected user whose mailbox is fetched counts one success and adds
    the two tallies of the ingestion, which sum to the number of
    messages; one whose fetch throws any other message counts one error,
    and the loop goes on. *)
Theorem daily_sync_isolates_users (users : list string) (st : State) :
  (exists totals st',
     syncAllUsers fetchMessages users st = (Ret totals, st') /\
     successCount totals + errorCount totals <= List.length users) /\
  (forallb (fun u => negb (connected u st)) users = true ->
   syncAllUsers fetchMessages users st = (Ret (mkSyncTotals 0 0 0 0), st)) /\
  (forall totals userId ms s1,
     connected userId st = true ->
     fetchMessages userId st = (Ret ms, s1) ->
     exists t st',
       syncUser fetchMessages totals userId st =
       (Ret (mkSyncTotals (totalProcessed totals + processed t)
                          (totalSkipped totals + skipped t)
                          (S (successCount totals)) (errorCount totals)), st') /\
       processed t + skipped t = List.length ms) /\
  (forall totals userId msg s1,
     connected userId st = true ->
     fetchMessages userId st = (Throw msg, s1) ->
     includes msg "not connected Gmail" = false ->
     syncUser fetchMessages totals userId st =
     (Ret (mkSyncTotals (totalProcessed totals) (totalSkipped totals)
                        (successCount totals) (S (errorCount totals))), s1)).
Proof.
  split; [ | split; [ | split] ].
  - unfold syncAllUsers.
    assert (Hloop : forall us totals s, exists totals' s',
              foldM (syncUser fetchMessages) us totals s = (Ret totals', s') /\
              successCount totals' + errorCount totals' <=
              successCount totals + errorCount totals + List.length us).
    { induction us as [|u us IH]; intros totals s; cbn [foldM].
      - exists totals, s. split; [reflexivity | cbn [List.length]; lia].
      - destruct (syncUser_returns totals u s) as (t1 & s1 & E & Hup & _).
        rewrite (bind_run _ _ _ _ _ E).
        destruct (IH t1 s1) as (t2 & s2 & E2 & H2).
        exists t2, s2. split; [exact E2 | cbn [List.length]; lia]. }
    destruct (Hloop users (mkSyncTotals 0 0 0 0) st) as (totals & st' & E & H).
    exists totals, st'. split; [exact E | cbn [successCount errorCount] in H; lia].
  - unfold syncAllUsers. generalize (mkSyncTotals 0 0 0 0).
    induction users as [|u us IH]; intros totals H; [reflexivity | ].
    cbn [forallb] in H. apply andb_true_iff in H as [Hu H].
    apply negb_true_iff in Hu. cbn [foldM].
    rewrite (bind_run _ _ _ _ _ (syncUser_unconnected totals u st Hu)). now apply IH.
  - intros totals userId ms s1 Hc Hfetch.
    unfold connected in Hc.
    destruct (find (fun c => String.eqb (gc_userId c) userId && gc_isActive c)
                   (gmailConnections st)) as [c|] eqn:F; [ | discriminate Hc].
    destruct (ingest_loop_returns userId (gc_gmailConnectionId c) ms (mkTally 0 0) s1)
      as (t & s2 & Eloop & Hsum).
    assert (Econn : fromConnection userId st = (Ret (gc_gmailConnectionId c), st)).
    { unfold fromConnection, getConnection, gets, bind. now rewrite F. }
    pose proof (ingestSubstackPosts_unfold _ _ _ _ _ _ Eloop) as Erun.
    match type of Erun with
    | _ = (_, ?final) =>
        assert (Eing : ingestForUser fetchMessages userId st = (Ret t, final))
    end.
    { unfold ingestForUser. rewrite (bind_run _ _ _ _ _ Econn).
      rewrite (bind_run _ _ _ _ _ Hfetch). exact Erun. }
    exists t. eexists. unfold syncUser, tryCatch.
    rewrite (bind_run _ _ _ _ _ Eing).
    split; [reflexivity | cbn [processed skipped] in Hsum; lia].
  - intros totals userId msg s1 Hc Hfetch Hmsg.
    unfold connected in Hc.
    destruct (find (fun c => String.eqb (gc_userId c) userId && gc_isActive c)
                   (gmailConnections st)) as [c|] eqn:F; [ | discriminate Hc].
    assert (Econn : fromConnection userId st = (Ret (gc_gmailConnectionId c), st)).
    { unfold fromConnection, getConnection, gets, bind. now rewrite F. }
    assert (Eing : ingestForUser fetchMessages userId st = (Throw msg, s1)).
    { unfold ingestForUser. rewrite (bind_run _ _ _ _ _ Econn).
      exact (bind_throw _ _ _ _ _ Hfetch). }
    unfold syncUser, tryCatch. rewrite (bind_throw _ _ _ _ _ Eing).
    rewrite Hmsg. reflexivity.
Qed.

End DailySyncProperties.

Lemma daily_sync_isolates_users_witness :
  let st := mkState [] [] [] [] []
              [mkGmailConnection "conn-1" "user-1" "jane@example.com" None true] 0 0 0 in
  let mailbox := fun _ : string => @ret (list GmailMessage) demoInbox in
  (forallb (fun u => negb (connected u st)) ["user-2"; "user-3"] = true /\
   @syncAllUsers demoRuntime mailbox ["user-2"; "user-3"] st =
     (Ret (mkSyncTotals 0 0 0 0), st)) /\
  (connected "user-1" st = true /\
   exists t st',
     @syncUser demoRuntime mailbox (mkSyncTotals 0 0 0 0) "user-1" st =
       (Ret (mkSyncTotals (0 + processed t) (0 + skipped t) 1 0), st') /\
     processed t + skipped t = 3).
Proof.
  cbv zeta.
  set (st := mkState [] [] [] [] []
               [mkGmailConnection "conn-1" "user-1" "jane@example.com" None true] 0 0 0).
  set (mailbox := fun _ : string => @ret (list GmailMessage) demoInbox).
  assert (H1 : forallb (fun u => negb (connected u st)) ["user-2"; "user-3"] = true)
    by reflexivity.
  assert (H2 : connected "user-1" st = true) by reflexivity.
  split.
  - split; [exact H1 | ].
    exact (proj1 (proj2 (@daily_sync_isolates_users demoRuntime mailbox
                           ["user-2"; "user-3"] st)) H1).
  - split; [exact H2 | ].
    exact (proj1 (proj2 (proj2 (@daily_sync_isolates_users demoRuntime mailbox
                                  ["user-1"] st)))
             (mkSyncTotals 0 0 0 0) "user-1" demoInbox st H2 eq_refl).
Defined.

Lemma removed_source_is_not_synced_witness :
  "1" <> "2" /\
  sourceRow "1" (snd (removeSource "2" demoBatch)) = sourceRow "1" demoBatch /\
  @syncSource demoRuntime "2" (snd (removeSource "2" demoBatch)) =
    (Throw "Source not found or inactive: 2", snd (removeSource "2" demoBatch)).
Proof.
  assert (H : "1" <> "2") by discriminate.
  destruct (@removed_source_is_not_synced demoRuntime "2" demoBatch)
    as (_ & _ & _ & _ & Hother & _ & Hsync & _).
  split; [exact H | ]. split; [exact (Hother "1" H) | exact Hsync].
Defined.

Lemma latest_posts_are_bounded_and_owned_witness :
  (forall s, In s (rssSources storeWithFeedItems) -> src_userId s = "user-1" ->
             src_isActive s = false) /\
  getLatestPosts "user-1" 20 storeWithFeedItems = (Ret [], storeWithFeedItems).
Proof.
  assert (H : forall s, In s (rssSources storeWithFeedItems) -> src_userId s = "user-1" ->
                        src_isActive s = false) by (intros s []).
  split; [exact H | ].
  destruct (latest_posts_are_bounded_and_owned "user-1" 20 storeWithFeedItems)
    as (posts & E & _ & _ & Hnone).
  rewrite E, (Hnone H). reflexivity.
Defined.

(** ** A sync cycle by the answer of the feed server *)

Section SyncByAnswer.
Context {RT : Runtime}.

Ltac simpl_state :=
  cbn [rssSources creators contentItems gmailProcessedMessages userSubscriptions
       gmailConnections nanoidCalls clockReads fetchCalls
       set_rssSources set_creators set_contentItems set_gmailProcessedMessages
       set_userSubscriptions set_gmailConnections tick_nanoid tick_clock tick_fetch
       fst snd].

(** X24: an HTTP error status ends in the row of the source.  When the
    feed server answers the conditional request of an active source with
    a status other than 304 and outside 200 to 299, the cycle makes this
    one request, throws HTTP, the status and the status text, and stores
    exactly that message as the last sync error with the error status;
    no creator and no content item is written. *)
Theorem http_error_status_is_recorded
    (sourceId : string) (st : State) (source : RssSource) (response : Response) :
  sourceRow sourceId st = Some source ->
  src_isActive source = true ->
  fetchAt (fetchCalls st) (src_feedUrl source) (conditionalRequest source) = Replied response ->
  status response <> 304 ->
  ok response = false ->
  exists st',
    syncSource sourceId st =
      (Throw ("HTTP " ++ showNat (status response) ++ ": " ++ statusText response), st') /\
    fetchCalls st' = S (fetchCalls st) /\
    contentItems st' = contentItems st /\ creators st' = creators st /\
    exists row,
      sourceRow sourceId st' = Some row /\
      src_lastSyncStatus row = Some SyncError /\
      src_lastSyncError row =
        Some ("HTTP " ++ showNat (status response) ++ ": " ++ statusText response) /\
      src_lastSyncedAt row = src_lastSyncedAt source /\
      src_etag row = src_etag source.
Proof.
  intros Hrow Hact Hfetch H304 Hok.
  assert (E : fetchAndParseFeed (src_feedUrl source) (src_feedType source)
                (orElse (src_etag source) None) (orElse (src_lastModified source) None) st =
              (Throw ("HTTP " ++ showNat (status response) ++ ": " ++ statusText response),
               tick_fetch st)).
  { unfold fetchAndParseFeed. rewrite !orElse_None_idem.
    assert (Ef : fetch (src_feedUrl source) (conditionalRequest source) st =
                 (Ret (Replied response), tick_fetch st))
      by (unfold fetch; now rewrite Hfetch).
    unfold conditionalRequest in Ef. rewrite (bind_run _ _ _ _ _ Ef).
    apply Nat.eqb_neq in H304. rewrite H304, Hok. reflexivity. }
  rewrite (syncSource_active _ _ _ Hrow Hact). unfold tryCatch.
  rewrite (bind_throw _ _ _ _ _ E).
  eexists. split; [reflexivity | ]. simpl_state.
  split; [reflexivity | ]. split; [reflexivity | ]. split; [reflexivity | ].
  eexists. split.
  - unfold sourceRow. simpl_state.
    apply sourceRow_after_update; [reflexivity | exact Hrow].
  - cbn [withSync src_lastSyncStatus src_lastSyncError src_lastSyncedAt src_etag].
    repeat split.
Qed.

(** X25: a sync that brings nothing new stores no content.  When the
    feed of an active source is fetched and parsed and the hash of every
    item it holds is already stored for a feed item, the cycle succeeds
    and the content table is exactly as before: no row is added and no
    stored row is changed, even when the server does not answer 304. *)
Theorem sync_of_known_items_stores_nothing
    (sourceId : string) (st : State) (source : RssSource) (r : FeedFetchResult)
    (st1 : State) :
  sourceRow sourceId st = Some source ->
  src_isActive source = true ->
  fetchAndParseFeed (src_feedUrl source) (src_feedType source)
    (orElse (src_etag source) None) (orElse (src_lastModified source) None) st
    = (Ret (Some r), st1) ->
  (forall p, In p (items (feed r)) -> findRssByHash (hash p) (contentItems st) <> None) ->
  exists st',
    syncSource sourceId st = (Ret tt, st') /\
    contentItems st' = contentItems st /\
    gmailProcessedMessages st' = gmailProcessedMessages st1.
Proof.
  intros Hrow Hact Hfetch Hknown.
  destruct (keeps_fetchAndParseFeed (src_feedUrl source) (src_feedType source)
              (orElse (src_etag source) None) (orElse (src_lastModified source) None) st)
    as (_ & _ & Ki).
  rewrite Hfetch in Ki. cbn [snd] in Ki.
  rewrite (syncSource_active _ _ _ Hrow Hact). unfold tryCatch.
  rewrite (bind_run _ _ _ _ _ Hfetch).
  assert (Eh : updateSourceHeaders sourceId (ffr_etag r) (ffr_lastModified r) st1 =
               (Ret tt, set_rssSources
                          (updateWhere (isSource sourceId)
                             (withHeaders (ffr_etag r) (ffr_lastModified r))) st1))
    by reflexivity.
  rewrite (bind_run _ _ _ _ _ Eh).
  match goal with
  | |- context [upsertCreator ?u ?t ?d] =>
      destruct (upsertCreator_effect u t d
                  (set_rssSources
                     (updateWhere (isSource sourceId)
                        (withHeaders (ffr_etag r) (ffr_lastModified r))) st1))
        as (creator & s2 & Ec & _ & _ & Hi2 & _ & Hl2)
  end.
  rewrite (bind_run _ _ _ _ _ Ec).
  revert Hi2 Hl2. simpl_state. intros Hi2 Hl2.
  assert (Ep : upsertPosts (cr_creatorId creator) (items (feed r)) s2 =
               (Ret 0, tick_clock s2)).
  { rewrite upsertPosts_unfold. apply upsert_loop_idle.
    intros p Hin. simpl_state. rewrite Hi2, Ki. now apply Hknown. }
  rewrite (bind_run _ _ _ _ _ Ep).
  eexists. split; [reflexivity | ]. simpl_state.
  split; [rewrite Hi2; exact Ki | exact Hl2].
Qed.

End SyncByAnswer.

Lemma http_error_status_is_recorded_witness :
  let st := stateWithSources [demoSource "9" "https://example.com/gone.xml" None] in
  sourceRow "9" st = Some (demoSource "9" "https://example.com/gone.xml" None) /\
  exists st' row,
    @syncSource demoRuntime "9" st = (Throw "HTTP 404: Not Found", st') /\
    sourceRow "9" st' = Some row /\
    src_lastSyncError row = Some "HTTP 404: Not Found".
Proof.
  cbv zeta.
  set (st := stateWithSources [demoSource "9" "https://example.com/gone.xml" None]).
  assert (H1 : sourceRow "9" st = Some (demoSource "9" "https://example.com/gone.xml" None))
    by reflexivity.
  split; [exact H1 | ].
  destruct (@http_error_status_is_recorded demoRuntime "9" st
              (demoSource "9" "https://example.com/gone.xml" None)
              (mkResponse 404 "Not Found" (Some "text/html") None None "")
              H1 eq_refl eq_refl ltac:(discriminate) eq_refl)
    as (st' & E & _ & _ & _ & row & Hr & _ & He & _).
  exists st', row. split; [exact E | ]. split; [exact Hr | exact He].
Defined.

Lemma sync_of_known_items_stores_nothing_witness :
  let st := set_rssSources (fun _ => [workingSource]) storeWithFeedItems in
  sourceRow "1" st = Some workingSource /\
  exists st',
    @syncSource demoRuntime "1" st = (Ret tt, st') /\
    contentItems st' = contentItems st.
Proof.
  cbv zeta.
  set (st := set_rssSources (fun _ => [workingSource]) storeWithFeedItems).
  assert (H1 : sourceRow "1" st = Some workingSource) by reflexivity.
  split; [exact H1 | ].
  destruct (@fetchAndParseFeed demoRuntime (src_feedUrl workingSource)
              (src_feedType workingSource) (orElse (src_etag workingSource) None)
              (orElse (src_lastModified workingSource) None) st)
    as [[[r|]|msg] s1] eqn:E;
    [ | vm_compute in E; discriminate E | vm_compute in E; discriminate E].
  assert (Hknown : forall p, In p (items (feed r)) ->
                     findRssByHash (hash p) (contentItems st) <> None).
  { vm_compute in E. injection E as <- _. cbn [items feed].
    intros p [<- | [<- | []]]; vm_compute; discriminate. }
  destruct (@sync_of_known_items_stores_nothing demoRuntime "1" st workingSource r s1
              H1 eq_refl E Hknown) as (st' & Hrun & Hitems & _).
  exists st'. split; [exact Hrun | exact Hitems].
Defined.
